(** * ParseClass.js: GraphQL type generation and CRUD resolvers of parse-server

    A shallow embedding of [src/graphql/schemas/ParseClass.js].

    The file has two layers, and the embedding keeps them apart:

    - the _resolvers_ ([get], [find], [create], [update], [destroy] and the
      resolver of a Relation field) are asynchronous functions that call the
      storage collaborators ([runGet], [runFind], [rest.create], ...).  They
      are embedded as programs of a small free monad [Prog] whose nodes are
      the collaborator calls; running a program against any backend yields
      the outcome together with the sequence of calls that were issued;

    - the _type builder_ ([loadClass], the [ParseClass] class and the field
      mappers) allocates objects, memoises them on the [ParseClass] instance
      and in the types cache, and writes to the console.  It is embedded in
      a state-and-exception monad [M] over an explicit store in which every
      [new] and every object literal whose identity matters receives a fresh
      address. *)

From stdpp Require Import gmap strings list pretty.
From Stdlib Require Import ZArith Ascii.

Set Warnings "-register-all".
Local Open Scope string_scope.

(** ** JavaScript values *)

(** The values the resolvers inspect.  An array behaves like an object under
    every operation this file applies to an input value (truthiness, reading
    and assigning a named property), so it needs no constructor of its own;
    the result lists of [runFind], the only values iterated over, are Rocq
    lists. *)
Inductive Value : Type :=
| VUndef
| VNull
| VBool (b : bool)
| VNum (n : Z)
| VStr (s : string)
| VObj (props : list (string * Value)).

(** What a [throw], a failed property access or a rejected promise carries. *)
Inductive Err : Type :=
| Thrown (v : Value)
| TypeError
| Rejected (reason : Value).

(** [throw 'id or objectId are required'] in [getObjectId]. *)
Definition MissingIdentifier : Err := Thrown (VStr "id or objectId are required").

(** *** Objects as ordered property lists *)

Module Obj.
Section Props.
Context {A : Type}.

Fixpoint get (k : string) (o : list (string * A)) : option A :=
  match o with
  | [] => None
  | (k', v) :: o' => if decide (k = k') then Some v else get k o'
  end.

(** [o[k] = v]: overwrite in place, or append as the newest property (for
    a key other than [__proto__], which is no name of a field or class). *)
Fixpoint set (k : string) (v : A) (o : list (string * A)) : list (string * A) :=
  match o with
  | [] => [(k, v)]
  | (k', v') :: o' =>
      if decide (k = k') then (k, v) :: o' else (k', v') :: set k v o'
  end.

(** [delete o[k]]. *)
Fixpoint del (k : string) (o : list (string * A)) : list (string * A) :=
  match o with
  | [] => []
  | (k', v') :: o' =>
      if decide (k = k') then del k o' else (k', v') :: del k o'
  end.

Definition has (k : string) (o : list (string * A)) : bool :=
  match get k o with Some _ => true | None => false end.

Definition keys (o : list (string * A)) : list string := o.*1.
End Props.
End Obj.

(** *** Truthiness and property access *)

Definition truthy (v : Value) : bool :=
  match v with
  | VUndef | VNull => false
  | VBool b => b
  | VNum n => negb (n =? 0)%Z
  | VStr s => if decide (s = "") then false else true
  | VObj _ => true
  end.

(** [v[k]] for a property name that no prototype defines: [undefined] and
    [null] raise, a primitive has no such property. *)
Definition member (v : Value) (k : string) : Err + Value :=
  match v with
  | VUndef | VNull => inl TypeError
  | VObj o => inr (default VUndef (Obj.get k o))
  | _ => inr VUndef
  end.

(** [v[k] = x].  The file is an ES module, hence strict code: assigning a
    property of a primitive, of [undefined] or of [null] raises. *)
Definition assign (v : Value) (k : string) (x : Value) : Err + Value :=
  match v with
  | VObj o => inr (VObj (Obj.set k x o))
  | _ => inl TypeError
  end.

(** [delete v[k]]. *)
Definition delete_prop (v : Value) (k : string) : Err + Value :=
  match v with
  | VUndef | VNull => inl TypeError
  | VObj o => inr (VObj (Obj.del k o))
  | _ => inr v
  end.

(** A property read that cannot raise, for the places that hold an object. *)
Definition prop (v : Value) (k : string) : Value :=
  match v with
  | VObj o => default VUndef (Obj.get k o)
  | _ => VUndef
  end.

(** ** The backend schema *)

(** A field definition: [field.type] and [field.targetClass].  The schema
    loader supplies [targetClass] for Pointer and Relation fields; it is not
    read for any other kind. *)
Record Field : Type := mkField {
  field_type : string;
  targetClass : string;
}.

(** A class of the schema, with its [fields] in declaration order. *)
Record ClassSchema : Type := mkClass {
  fields : list (string * Field);
}.

(** The schema object: its classes by name, and [schema.__classNames]. *)
Record Schema : Type := mkSchema {
  classes : gmap string ClassSchema;
  __classNames : list string;
}.

(** What the property read [schema[className]] can find: a class, or a
    value that is no class, namely the array under [__classNames] or a
    member that the schema object inherits from [Object.prototype].  Such a
    value is truthy and has no [fields] property. *)
Inductive SchemaValue : Type :=
| AClass (class : ClassSchema)
| NotAClass.

(** [value.fields] *)
Definition fieldsOf (value : SchemaValue) : option (list (string * Field)) :=
  match value with
  | AClass class => Some (fields class)
  | NotAClass => None
  end.

(** The property names of [Object.prototype]. *)
Definition objectPrototypeNames : list string :=
  ["constructor"; "hasOwnProperty"; "isPrototypeOf"; "propertyIsEnumerable";
   "toLocaleString"; "toString"; "valueOf"; "__proto__"; "__defineGetter__";
   "__defineSetter__"; "__lookupGetter__"; "__lookupSetter__"].

(** [schema[className]]: an own property first, then the prototype;
    [None] is [undefined]. *)
Definition schemaGet (schema : Schema) (className : string) : option SchemaValue :=
  if decide (className = "__classNames") then Some NotAClass
  else
    match classes schema !! className with
    | Some class => Some (AClass class)
    | None =>
        if bool_decide (className ∈ objectPrototypeNames) then Some NotAClass
        else None
    end.

(** ** Resolver programs *)

(** The [context] of a resolver call: [context.auth], [context.config] and
    [context.info]. *)
Module Context.
Record t : Type := mk {
  auth : Value;
  config : Value;
  info : Value;
}.
End Context.

(** The collaborator calls a resolver awaits.  [runFind] and
    [resolvePointer] always receive the schema of the pass, which is left
    out; [runGet] receives it from [get] only, so the call records it. *)
Inductive Call : Type :=
| RunGet (context : Context.t) (info : Value) (className : string) (objectId : Value)
         (schema : option Schema)
| RunFind (context : Context.t) (info : Value) (className : Value) (args : Value)
          (query : option Value)
| RestCreate (config auth : Value) (className : string) (input : Value)
| RestUpdate (config auth : Value) (className : string) (query input : Value)
| RestDel (config auth : Value) (className : string) (objectId : Value)
| GetAuthForSessionToken (options : Value)
| ResolvePointer (targetClass : string) (pointer : Value) (context : Context.t)
                 (info : Value).

(** What the awaited promise resolves to. *)
Definition Resp (c : Call) : Type :=
  match c with
  | RunFind _ _ _ _ _ => list Value
  | _ => Value
  end.

Inductive Prog (A : Type) : Type :=
| Ret (a : A)
| Throw (e : Err)
| Await (c : Call) (k : Resp c → Prog A).
Arguments Ret {A} a.
Arguments Throw {A} e.
Arguments Await {A} c k.

Fixpoint prog_bind {A B : Type} (f : A → Prog B) (p : Prog A) : Prog B :=
  match p with
  | Ret a => f a
  | Throw e => Throw e
  | Await c k => Await c (λ r, prog_bind f (k r))
  end.

#[global] Instance Prog_ret : MRet Prog := λ A a, Ret a.
#[global] Instance Prog_bind : MBind Prog := λ A B f p, prog_bind f p.

(** A synchronous step that may raise. *)
Definition lift {A : Type} (r : Err + A) : Prog A :=
  match r with
  | inl e => Throw e
  | inr a => Ret a
  end.

Definition await (c : Call) : Prog (Resp c) := Await c Ret.

(** *** Running a program against a backend *)

Section Run.
Context {W : Type}.
(** A backend answers a call in a world [W]: it resolves or rejects, and
    leaves a new world. *)
Variable backend : ∀ c : Call, W → (Err + Resp c) * W.

(** Outcome, calls issued in order, final world. *)
Fixpoint run {A : Type} (p : Prog A) (w : W) : (Err + A) * list Call * W :=
  match p with
  | Ret a => (inr a, [], w)
  | Throw e => (inl e, [], w)
  | Await c k =>
      match backend c w with
      | (inl e, w') => (inl e, [c], w')
      | (inr r, w') =>
          let '(out, calls, w'') := run (k r) w' in (out, c :: calls, w'')
      end
  end.
End Run.

(** *** Synchronous steps that may raise *)

#[global] Instance Res_ret : MRet (sum Err) := λ A a, inr a.
#[global] Instance Res_bind : MBind (sum Err) := λ A B f r,
  match r with
  | inl e => inl e
  | inr a => f a
  end.

(** ** GraphQL types *)

(** Addresses of allocated objects. *)
Definition loc : Type := nat.

(** A type expression.  [TypeRef l] is the object or input-object type
    allocated at [l]; [External n] is a type exported by [../types]
    ([PageInfo]) or returned by its mappers. *)
Inductive GType : Type :=
| GraphQLInt
| GraphQLString
| GraphQLID
| GraphQLNonNull (t : GType)
| GraphQLList (t : GType)
| TypeRef (l : loc)
| External (name : string).

#[global] Instance GType_eq_dec : EqDecision GType.
Proof. solve_decision. Defined.

(** ** Collaborators *)

(** What the file imports from [../execute], apart from the calls that are
    awaited: [parseID] decodes a global id into an object with an [objectId]
    property, or raises; [getGloballyUniqueId] encodes one. *)
Module execute.
Class Collab : Type := {
  parseID : Value → Err + Value;
  getGloballyUniqueId : Value → Value → Value;
  toGraphQLCursor : Value → Value;
}.
End execute.

(** What the file imports from [../types]: the mappers of a field definition
    to its output, input and filter type; each may return [undefined]. *)
Module types.
Class Collab : Type := {
  type : Field → option GType;
  inputType : Field → option GType;
  queryType : Field → option GType;
}.
Definition PageInfo : GType := External "PageInfo".
End types.

(** ** Connections *)

Record PageInfo : Type := mkPageInfo {
  hasNextPage : bool;
  hasPreviousPage : bool;
}.

Record Connection : Type := mkConnection {
  nodes : list Value;
  edges : list (Value * Value);
  pageInfo : PageInfo;
}.

(** The page size a caller asks for: [first], else [last]. *)
Definition requestedPageSize (args : Value) : option nat :=
  match prop args "first", prop args "last" with
  | VNum n, _ => Some (Z.to_nat n)
  | _, VNum n => Some (Z.to_nat n)
  | _, _ => None
  end.

(** Modelled from the spec: [connectionResultsArray] of [../execute] is not
    part of the sources.  The spec describes a Connection as the node
    sequence truncated to a page window, the parallel sequence of
    (node, opaque cursor) edges and a page-info record, the page size being
    capped at the fixed maximum whatever size is requested.  The window is
    taken from the front, or from the back when only [last] is given. *)
Definition connectionResultsArray `{execute.Collab}
    (results : list Value) (args : Value) (maximum : nat) : Connection :=
  let pageSize := Nat.min (default maximum (requestedPageSize args)) maximum in
  let backward :=
    match prop args "first", prop args "last" with
    | VNum _, _ => false
    | _, VNum _ => true
    | _, _ => false
    end in
  let window :=
    if backward then drop (length results - pageSize) results
    else take pageSize results in
  {| nodes := window;
     edges := (λ node, (node, execute.toGraphQLCursor node)) <$> window;
     pageInfo :=
       {| hasNextPage := negb backward && bool_decide (pageSize < length results);
          hasPreviousPage := backward && bool_decide (pageSize < length results) |} |}.

(** ** Helpers of the resolvers *)

(** [transformInput(input, schema)]: tag the value of every Pointer and
    GeoPoint field.  [cls] is [schema[className]]; destructuring
    [{ fields }] raises when it is [undefined], and leaves [fields]
    undefined when it is no class, in which case [fields[key]] raises at the
    first key.  [Object.keys] raises on [undefined] and [null], yields the
    indices of a string, whose values are its characters, and nothing for a
    number or a boolean. *)
Definition transformValue (fs : list (string * Field)) (key : string) (value : Value)
    : Err + Value :=
  match Obj.get key fs with
  | Some f =>
      if decide (field_type f = "Pointer") then assign value "__type" (VStr "Pointer")
      else if decide (field_type f = "GeoPoint") then assign value "__type" (VStr "GeoPoint")
      else inr value
  | None => inr value
  end.

(** The own enumerable properties of a string: index and character. *)
Fixpoint charactersFrom (i : nat) (s : string) : list (string * Value) :=
  match s with
  | EmptyString => []
  | String a rest => (pretty i, VStr (String a "")) :: charactersFrom (S i) rest
  end.
Definition characters (s : string) : list (string * Value) := charactersFrom 0 s.

Fixpoint transformProps (fs : list (string * Field)) (o : list (string * Value))
    : Err + list (string * Value) :=
  match o with
  | [] => inr []
  | (key, value) :: o' =>
      value' ← transformValue fs key value;
      o'' ← transformProps fs o';
      mret ((key, value') :: o'')
  end.

(** The [forEach] over the keys; [fs] is [fields], [None] when it is
    undefined. *)
Definition transformKeys (fs : option (list (string * Field)))
    (o : list (string * Value)) : Err + list (string * Value) :=
  match fs, o with
  | Some fs, _ => transformProps fs o
  | None, [] => inr []
  | None, _ :: _ => inl TypeError
  end.

Definition transformInput (input : Value) (cls : option SchemaValue) : Err + Value :=
  match cls with
  | None => inl TypeError
  | Some value =>
      let fields := fieldsOf value in
      match input with
      | VUndef | VNull => inl TypeError
      | VObj o => o' ← transformKeys fields o; mret (VObj o')
      | VStr s => _ ← transformKeys fields (characters s); mret input
      | _ => inr input
      end
  end.

(** [getObjectId(input)]: the local id, and [input] after the [delete]. *)
Definition getObjectId `{execute.Collab} (input : Value) : Err + (Value * Value) :=
  id ← member input "id";
  objectId ← member input "objectId";
  if negb (truthy id) && negb (truthy objectId) then inl MissingIdentifier
  else if truthy objectId then
    input' ← delete_prop input "objectId";
    mret (objectId, input')
  else
    parsed ← execute.parseID id;
    objectId' ← member parsed "objectId";
    input' ← delete_prop input "id";
    mret (objectId', input').

(** ** The resolvers built by [loadClass] *)

Section Resolvers.
Context `{execute.Collab}.
Variable className : string.
Variable schema : Schema.

(** [get.resolve] *)
Definition get_resolve (root args : Value) (context : Context.t) (info : Value)
    : Prog Value :=
  objectId ← lift (member args "objectId");
  await (RunGet context info className objectId (Some schema)).

(** [find.resolve] *)
Definition find_resolve (root args : Value) (context : Context.t) (info : Value)
    : Prog Connection :=
  results ← await (RunFind context info (VStr className) args None);
  mret (connectionResultsArray results args 100).

(** [create.resolve] *)
Definition create_resolve (root args : Value) (context : Context.t) (info : Value)
    : Prog Value :=
  let auth0 := Context.auth context in
  let config := Context.config context in
  input0 ← lift (member args "input");
  input ← lift (transformInput input0 (schemaGet schema className));
  clientMutationId ← lift (member input "clientMutationId");
  input ← lift (delete_prop input "clientMutationId");
  res ← await (RestCreate config auth0 className input);
  issued ← lift (
    if decide (className = "_User") then
      response ← member res "response";
      if truthy response then member response "sessionToken" else mret response
    else mret (VBool false));
  auth1 ←
    (if truthy issued then
       let installationId :=
         if truthy (Context.info context)
         then prop (Context.info context) "installationId"
         else Context.info context in
       await (GetAuthForSessionToken
                (VObj [("config", config);
                       ("installationId", installationId);
                       ("sessionToken", issued)]))
     else mret auth0);
  response ← lift (member res "response");
  objectId ← lift (member response "objectId");
  object ← await (RunGet (Context.mk auth1 config VUndef) info className objectId None);
  mret (VObj [("object", object); ("clientMutationId", clientMutationId)]).

(** [update.resolve] *)
Definition update_resolve (root args : Value) (context : Context.t) (info : Value)
    : Prog Value :=
  input0 ← lift (member args "input");
  '(objectId, input1) ← lift (getObjectId input0);
  input ← lift (transformInput input1 (schemaGet schema className));
  clientMutationId ← lift (member input "clientMutationId");
  input ← lift (delete_prop input "clientMutationId");
  _ ← await (RestUpdate (Context.config context) (Context.auth context) className
               (VObj [("objectId", objectId)]) input);
  object ← await (RunGet context info className objectId None);
  mret (VObj [("object", object); ("clientMutationId", clientMutationId)]).

(** [destroy.resolve] *)
Definition destroy_resolve (root args : Value) (context : Context.t) (info : Value)
    : Prog Value :=
  input0 ← lift (member args "input");
  '(objectId, input) ← lift (getObjectId input0);
  clientMutationId ← lift (member input "clientMutationId");
  object ← await (RunGet context info className objectId None);
  _ ← await (RestDel (Context.config context) (Context.auth context) className objectId);
  mret (VObj [("object", object); ("clientMutationId", clientMutationId)]).
End Resolvers.

(** The resolver that [getRelationField] installs on the [find] descriptor
    of the target class. *)
Section Relation.
Context `{execute.Collab}.
Variable fieldName : string.

(** [result.id = getGloballyUniqueId(result.className, result.objectId)] *)
Definition tagResult (result : Value) : Err + Value :=
  cn ← member result "className";
  oid ← member result "objectId";
  assign result "id" (execute.getGloballyUniqueId cn oid).

Fixpoint tagResults (results : list Value) : Err + list Value :=
  match results with
  | [] => inr []
  | result :: rest =>
      result' ← tagResult result;
      rest' ← tagResults rest;
      mret (result' :: rest')
  end.

Definition relatedTo (parentClass parentId : Value) : Value :=
  VObj [("$relatedTo",
         VObj [("object", VObj [("__type", VStr "Pointer");
                                ("className", parentClass);
                                ("objectId", parentId)]);
               ("key", VStr fieldName)])].

Definition relation_resolve (parent args : Value) (context : Context.t) (info : Value)
    : Prog Connection :=
  parentClass ← lift (member parent "className");
  parentId ← lift (member parent "objectId");
  let query := relatedTo parentClass parentId in
  args ← lift (assign args "redirectClassNameForKey" (VStr fieldName));
  results ← await (RunFind context info parentClass args (Some query));
  results ← lift (tagResults results);
  mret (connectionResultsArray results args 100).
End Relation.

(** ** The store of the type builder *)

(** What a resolver returns: an object, or a Connection. *)
Inductive Result : Type :=
| Single (v : Value)
| Paged (c : Connection).

Definition Resolver : Type := Value → Value → Context.t → Value → Prog Result.

(** A field descriptor: the object literals returned by the field mappers
    and the operation descriptors ([get], [find], ...) built by [loadClass].
    [fd_addr] is the identity of an operation descriptor. *)
Record FieldDesc : Type := mkFieldDesc {
  fd_addr : option loc;
  fd_name : option string;
  fd_type : option GType;
  fd_description : option string;
  fd_args : list (string * GType);
  fd_resolve : option Resolver;
}.

Definition Fields : Type := list (string * FieldDesc).

(** The [fields] of a type configuration: a thunk of the [ParseClass]
    instance at [c], forced by the GraphQL library when the fields of the
    type are first asked for, or an object literal. *)
Inductive FieldsThunk : Type :=
| ObjectFields (c : loc)
| QueryFields (c : loc)
| InputFields (c : loc)
| UpdateFields (c : loc)
| StaticFields (fs : Fields).

Inductive TypeKind : Type := ObjectType | InputObjectType.

(** [new GraphQLObjectType(config)] and [new GraphQLInputObjectType(config)];
    [ty_isTypeOf] is the class name that [isTypeOf] compares with. *)
Record TypeObj : Type := mkTypeObj {
  ty_kind : TypeKind;
  ty_name : string;
  ty_description : option string;
  ty_interfaces : list string;
  ty_fields : FieldsThunk;
  ty_isTypeOf : option string;
}.

(** The memoised type of a [ParseClass] instance that a method fills. *)
Inductive Slot : Type :=
| objectType
| updateInputObjectType
| inputObjectType
| queryInputObjectType
| queryResultObjectType
| mutationResultObjectType.

#[global] Instance Slot_eq_dec : EqDecision Slot.
Proof. solve_decision. Defined.

Module ParseClass.
(** An instance of [class ParseClass]; [memo] holds its six lazily
    created types. *)
Record t : Type := mk {
  className : string;
  displayName : string;
  schema : Schema;
  class : option SchemaValue;
  memo : list (Slot * loc);
}.

Fixpoint lookup (sl : Slot) (m : list (Slot * loc)) : option loc :=
  match m with
  | [] => None
  | (sl', l) :: m' => if decide (sl = sl') then Some l else lookup sl m'
  end.

(** [this.<slot>] *)
Definition slot (sl : Slot) (pc : t) : option loc := lookup sl (memo pc).

(** [this.<slot> = l] *)
Definition setSlot (sl : Slot) (l : loc) (pc : t) : t :=
  mk (className pc) (displayName pc) (schema pc) (class pc) ((sl, l) :: memo pc).
End ParseClass.

Inductive ConsoleEntry : Type :=
| Warn (message : string)
| Trace.

(** The store: the allocation counter, the types cache of [../typesCache],
    the [ParseClass] instances and the type objects by address, and the
    console.  [constructed] records, for the statements about the cache, the
    class name of every [new ParseClass] that ran. *)
Record State : Type := mkState {
  next : loc;
  cache : gmap string loc;
  instances : gmap loc ParseClass.t;
  typeObjects : gmap loc TypeObj;
  console : list ConsoleEntry;
  constructed : list string;
}.

Definition initial : State := mkState 0 ∅ ∅ ∅ [] [].

(** State and exceptions; an exception keeps the mutations made so far. *)
Definition M (A : Type) : Type := State → (Err + A) * State.

#[global] Instance M_ret : MRet M := λ A a s, (inr a, s).
#[global] Instance M_bind : MBind M := λ A B f m s,
  match m s with
  | (inl e, s') => (inl e, s')
  | (inr a, s') => f a s'
  end.

Definition raise {A : Type} (e : Err) : M A := λ s, (inl e, s).

(** A fresh address. *)
Definition alloc : M loc := λ s,
  (inr (next s),
   mkState (S (next s)) (cache s) (instances s) (typeObjects s) (console s)
           (constructed s)).

Definition modify (f : State → State) : M unit := λ s, (inr (), f s).

(** [console.warn(message)] and [console.trace()] *)
Definition log (e : ConsoleEntry) : M unit :=
  modify (λ s, mkState (next s) (cache s) (instances s) (typeObjects s)
                       (console s ++ [e]) (constructed s)).

Definition store (c : loc) (pc : ParseClass.t) : M unit :=
  modify (λ s, mkState (next s) (cache s) (<[c := pc]> (instances s))
                       (typeObjects s) (console s) (constructed s)).

(** [this], for a method running on the instance at [c]. *)
Definition self (c : loc) : M ParseClass.t := λ s,
  match instances s !! c with
  | Some pc => (inr pc, s)
  | None => (inl TypeError, s)
  end.

(** [new GraphQLObjectType(config)] or [new GraphQLInputObjectType(config)] *)
Definition newType (ty : TypeObj) : M loc :=
  l ← alloc;
  _ ← modify (λ s, mkState (next s) (cache s) (instances s)
                           (<[l := ty]> (typeObjects s)) (console s) (constructed s));
  mret l.

(** Modelled from the spec: [getOrElse] of [../typesCache] is not part of
    the sources.  On the first call for a key it invokes the factory once,
    stores the result under the key and returns it; on every later call it
    returns the stored result. *)
Definition getOrElse (key : string) (factory : M loc) : M loc := λ s,
  match cache s !! key with
  | Some l => (inr l, s)
  | None =>
      match factory s with
      | (inl e, s') => (inl e, s')
      | (inr l, s') =>
          (inr l,
           mkState (next s') (<[key := l]> (cache s')) (instances s')
                   (typeObjects s') (console s') (constructed s'))
      end
  end.

(** ** class ParseClass *)

(** [className.indexOf('_') === 0 ? className.slice(1) : className] *)
Definition displayNameOf (className : string) : string :=
  match className with
  | String "_"%char rest => rest
  | _ => className
  end.

(** [new ParseClass(className, schema)] *)
Definition newParseClass (className : string) (schema : Schema) : M loc :=
  c ← alloc;
  _ ← modify (λ s, mkState (next s) (cache s) (instances s) (typeObjects s)
                           (console s) (constructed s ++ [className]));
  let class := schemaGet schema className in
  _ ← store c (ParseClass.mk className (displayNameOf className) schema class []);
  _ ← match class with
      | Some _ => mret ()
      | None =>
          _ ← log (Warn ("Attempting to load a class (" ++ className
                         ++ ") that doesn't exist..."));
          log Trace
      end;
  mret c.

(** The shape shared by the six memoising methods:
    [if (!this.slot) { this.slot = new T(config); } return this.slot;] *)
Definition memoised (sl : Slot) (c : loc) (config : M TypeObj) : M loc :=
  this ← self c;
  match ParseClass.slot sl this with
  | Some l => mret l
  | None =>
      ty ← config;
      l ← newType ty;
      this ← self c;
      _ ← store c (ParseClass.setSlot sl l this);
      mret l
  end.

Definition graphQLConfig (c : loc) : M TypeObj :=
  this ← self c;
  mret (mkTypeObj ObjectType (ParseClass.displayName this)
          (Some ("Parse Class " ++ ParseClass.className this))
          ["Node"] (ObjectFields c) (Some (ParseClass.className this))).

Definition graphQLQueryConfig (c : loc) : M TypeObj :=
  this ← self c;
  mret (mkTypeObj InputObjectType (ParseClass.displayName this ++ "Query")
          (Some ("Parse Class " ++ ParseClass.className this ++ " Query"))
          [] (QueryFields c) (Some (ParseClass.className this))).

Definition graphQLInputConfig (c : loc) : M TypeObj :=
  this ← self c;
  mret (mkTypeObj InputObjectType ("Add" ++ ParseClass.displayName this ++ "Input")
          (Some ("Parse Class " ++ ParseClass.className this ++ " Input"))
          [] (InputFields c) (Some (ParseClass.className this))).

Definition graphQLUpdateInputConfig (c : loc) : M TypeObj :=
  this ← self c;
  mret (mkTypeObj InputObjectType ("Update" ++ ParseClass.displayName this ++ "Input")
          (Some ("Parse Class " ++ ParseClass.className this ++ " Update"))
          [] (UpdateFields c) (Some (ParseClass.className this))).

Definition plainField (ty : GType) : FieldDesc :=
  mkFieldDesc None None (Some ty) None [] None.

Definition graphQLObjectType (c : loc) : M loc :=
  memoised objectType c (graphQLConfig c).

Definition graphQLQueryResultConfig (c : loc) : M TypeObj :=
  objectType ← graphQLObjectType c;
  this ← self c;
  edge ← newType (mkTypeObj ObjectType (ParseClass.displayName this ++ "Edge") None []
                    (StaticFields [("node", plainField (TypeRef objectType));
                                   ("cursor", plainField GraphQLString)])
                    None);
  mret (mkTypeObj ObjectType (ParseClass.displayName this ++ "QueryConnection") None []
          (StaticFields [("nodes", plainField (GraphQLList (TypeRef objectType)));
                         ("edges", plainField (GraphQLList (TypeRef edge)));
                         ("pageInfo", plainField types.PageInfo)])
          None).

Definition graphQLMutationResultConfig (c : loc) : M TypeObj :=
  objectType ← graphQLObjectType c;
  this ← self c;
  mret (mkTypeObj ObjectType
          (ParseClass.displayName this ++ "MutationCompletePayload") None []
          (StaticFields [("object", plainField (TypeRef objectType));
                         ("clientMutationId", plainField GraphQLString)])
          None).

Definition graphQLUpdateInputObjectType (c : loc) : M loc :=
  memoised updateInputObjectType c (graphQLUpdateInputConfig c).

Definition graphQLInputObjectType (c : loc) : M loc :=
  memoised inputObjectType c (graphQLInputConfig c).

Definition graphQLQueryInputObjectType (c : loc) : M loc :=
  memoised queryInputObjectType c (graphQLQueryConfig c).

Definition graphQLQueryResultType (c : loc) : M loc :=
  memoised queryResultObjectType c (graphQLQueryResultConfig c).

Definition graphQLMutationResultType (c : loc) : M loc :=
  memoised mutationResultObjectType c (graphQLMutationResultConfig c).

(** ** loadClass *)

Module Bundle.
(** The object literal that [loadClass] returns; [addr] is its identity. *)
Record t : Type := mk {
  addr : loc;
  displayName : string;
  get : FieldDesc;
  find : FieldDesc;
  create : FieldDesc;
  update : FieldDesc;
  destroy : FieldDesc;
  objectType : loc;
  inputType : loc;
  updateType : loc;
  queryType : loc;
  queryResultType : loc;
  mutationResultType : loc;
  parseClass : loc;
}.
End Bundle.

Definition single (p : Prog Value) : Prog Result := v ← p; mret (Single v).
Definition paged (p : Prog Connection) : Prog Result := c ← p; mret (Paged c).

Section Builder.
Context `{execute.Collab} `{types.Collab}.

Definition loadClass (className : string) (schema : Schema) : M Bundle.t :=
  c ← getOrElse className (newParseClass className schema);
  objectType ← graphQLObjectType c;
  inputType ← graphQLInputObjectType c;
  updateType ← graphQLUpdateInputObjectType c;
  queryType ← graphQLQueryInputObjectType c;
  queryResultType ← graphQLQueryResultType c;
  mutationResultType ← graphQLMutationResultType c;
  get_addr ← alloc;
  let get :=
    mkFieldDesc (Some get_addr) None (Some (TypeRef objectType))
      (Some ("Use this endpoint to get or query " ++ className ++ " objects"))
      [("objectId", GraphQLNonNull GraphQLID)]
      (Some (λ root args context info,
               single (get_resolve className schema root args context info))) in
  find_addr ← alloc;
  let find :=
    mkFieldDesc (Some find_addr) None (Some (TypeRef queryResultType))
      (Some ("Use this endpoint to get or query " ++ className ++ " objects"))
      [("where", TypeRef queryType); ("first", GraphQLInt); ("last", GraphQLInt);
       ("after", GraphQLString); ("before", GraphQLString)]
      (Some (λ root args context info,
               paged (find_resolve className root args context info))) in
  create_addr ← alloc;
  let create :=
    mkFieldDesc (Some create_addr) None (Some (TypeRef mutationResultType))
      (Some ("use this method to create a new " ++ className))
      [("input", TypeRef inputType)]
      (Some (λ root args context info,
               single (create_resolve className schema root args context info))) in
  update_addr ← alloc;
  let update :=
    mkFieldDesc (Some update_addr) None (Some (TypeRef mutationResultType))
      (Some ("use this method to update an existing " ++ className))
      [("input", TypeRef updateType)]
      (Some (λ root args context info,
               single (update_resolve className schema root args context info))) in
  this ← self c;
  destroyInput ←
    newType (mkTypeObj InputObjectType
               ("Destroy" ++ ParseClass.displayName this ++ "Input") None []
               (StaticFields
                  [("id", mkFieldDesc None None (Some GraphQLID)
                            (Some "Use either the global id or objectId") [] None);
                   ("objectId", mkFieldDesc None None (Some GraphQLID)
                            (Some "Use either the global id or objectId") [] None);
                   ("clientMutationId", plainField GraphQLString)])
               None);
  destroy_addr ← alloc;
  let destroy :=
    mkFieldDesc (Some destroy_addr) None (Some (TypeRef mutationResultType))
      (Some ("use this method to update delete an existing " ++ className))
      [("input", TypeRef destroyInput)]
      (Some (λ root args context info,
               single (destroy_resolve className root args context info))) in
  this ← self c;
  addr ← alloc;
  mret (Bundle.mk addr (ParseClass.displayName this) get find create update destroy
          objectType inputType updateType queryType queryResultType
          mutationResultType c).

(** ** The field mappers *)

Definition handleIdField (fieldName : string) : option GType :=
  if decide (fieldName = "objectId") then Some (GraphQLNonNull GraphQLID)
  else if decide (fieldName = "id") then Some (GraphQLNonNull GraphQLID)
  else None.

(** [a || b] on types, which are truthy when defined. *)
Definition orElse (a b : option GType) : option GType :=
  match a with
  | Some t => Some t
  | None => b
  end.

Definition getRelationField (fieldName : string) (field : Field) (schema : Schema)
    : M FieldDesc :=
  bundle ← loadClass (targetClass field) schema;
  let find := Bundle.find bundle in
  mret (mkFieldDesc (fd_addr find) (fd_name find) (fd_type find)
          (fd_description find) (fd_args find)
          (Some (λ parent args context info,
                   paged (relation_resolve fieldName parent args context info)))).

Definition getFieldType (field : Field) : string :=
  if decide (field_type field = "Pointer")
  then "Pointer<" ++ targetClass field ++ ">"
  else field_type field.

(** The resolver of a Pointer field. *)
Definition pointer_resolve (fieldName : string) (field : Field)
    (parent args : Value) (context : Context.t) (info : Value) : Prog Value :=
  pointer ← lift (member parent fieldName);
  await (ResolvePointer (targetClass field) pointer context info).

Definition graphQLField (fieldName : string) (field : Field) (schema : Schema)
    : M (option FieldDesc) :=
  if decide (field_type field = "Relation") then
    find ← getRelationField fieldName field schema;
    mret (Some find)
  else
    let gQLType := orElse (handleIdField fieldName) (types.type field) in
    let fieldType := getFieldType field in
    '(gQLType, gQLResolve) ←
      (if decide (field_type field = "Pointer") then
         bundle ← loadClass (targetClass field) schema;
         mret (Some (TypeRef (Bundle.objectType bundle)),
               Some (λ parent args context info,
                       single (pointer_resolve fieldName field
                                 parent args context info)))
       else mret (gQLType, None));
    mret (Some (mkFieldDesc None (Some fieldName) gQLType
                  (Some ("Accessor for " ++ fieldName ++ " (" ++ fieldType ++ ")"))
                  [] gQLResolve)).

Definition graphQLInputField (fieldName : string) (field : Field)
    : option FieldDesc :=
  match orElse (handleIdField fieldName) (types.inputType field) with
  | None => None
  | Some gQLType =>
      let fieldType := getFieldType field in
      Some (mkFieldDesc None (Some fieldName) (Some gQLType)
              (Some ("Setter for " ++ fieldName ++ " (" ++ fieldType ++ ")"))
              [] None)
  end.

Definition graphQLQueryField (fieldName : string) (field : Field) (schema : Schema)
    : M (option FieldDesc) :=
  match orElse (handleIdField fieldName) (types.queryType field) with
  | None => mret None
  | Some gQLType =>
      gQLType ←
        (if decide (field_type field = "Pointer") then
           bundle ← loadClass (targetClass field) schema;
           mret (TypeRef (Bundle.queryType bundle))
         else mret gQLType);
      mret (Some (mkFieldDesc None (Some fieldName) (Some gQLType)
                    (Some ("Query for " ++ fieldName ++ " ("
                           ++ field_type field ++ ")"))
                    [] None))
  end.

(** ** buildFields and the field thunks *)

Definition reservedFieldNames : list string := ["objectId"; "createdAt"; "updatedAt"].

Definition Mapper : Type := string → Field → Schema → M (option FieldDesc).

(** The [reduce] over [Object.keys(fields)]. *)
Fixpoint reduceFields (mapper : Mapper) (filterReserved : bool) (schema : Schema)
    (fs : list (string * Field)) (memo : Fields) : M Fields :=
  match fs with
  | [] => mret memo
  | (fieldName, field) :: fs' =>
      if filterReserved && bool_decide (fieldName ∈ reservedFieldNames) then
        reduceFields mapper filterReserved schema fs' memo
      else
        gQLField ← mapper fieldName field schema;
        match gQLField with
        | None => reduceFields mapper filterReserved schema fs' memo
        | Some d =>
            reduceFields mapper filterReserved schema fs' (Obj.set fieldName d memo)
        end
  end.

Definition idField : FieldDesc :=
  mkFieldDesc None None (Some (GraphQLNonNull GraphQLID))
    (Some "A globaly unique identifier.") [] None.

Definition sessionTokenField : FieldDesc :=
  mkFieldDesc None None (Some GraphQLString)
    (Some "The session token for the user, set only when it makes sense.") [] None.

(** [buildFields(mapper, filterReserved, isObject)] on the instance at [c];
    [None] is the [undefined] of the bare [return].  When [this.class] is no
    class its [fields] are undefined and [Object.keys(fields)] raises. *)
Definition buildFields (c : loc) (mapper : Mapper) (filterReserved isObject : bool)
    : M (option Fields) :=
  this ← self c;
  match ParseClass.class this with
  | None =>
      _ ← log (Warn ("Attempting to build fields a class ("
                     ++ ParseClass.className this ++ ") that doesn't exist..."));
      _ ← log Trace;
      mret None
  | Some class =>
      let initial := [] in
      let initial := if isObject then Obj.set "id" idField initial else initial in
      let initial :=
        if decide (ParseClass.className this = "_User")
        then Obj.set "sessionToken" sessionTokenField initial else initial in
      match fieldsOf class with
      | None => raise TypeError
      | Some fields =>
          fs ← reduceFields mapper filterReserved (ParseClass.schema this)
                 fields initial;
          mret (Some fs)
      end
  end.

Definition inputMapper : Mapper :=
  λ fieldName field _, mret (graphQLInputField fieldName field).

(** Forcing the [fields] of a type.  A thunk that assigns to or deletes
    from the result of [buildFields] raises when that result is
    [undefined]. *)
Definition forceFields (th : FieldsThunk) : M (option Fields) :=
  match th with
  | ObjectFields c => buildFields c graphQLField false true
  | QueryFields c =>
      fs ← buildFields c graphQLQueryField false false;
      match fs with
      | None => raise TypeError
      | Some fs => mret (Some (Obj.del "id" (Obj.del "objectId" fs)))
      end
  | InputFields c =>
      fs ← buildFields c inputMapper true false;
      match fs with
      | None => raise TypeError
      | Some fs => mret (Some (Obj.set "clientMutationId" (plainField GraphQLString) fs))
      end
  | UpdateFields c =>
      fs ← buildFields c inputMapper true false;
      match fs with
      | None => raise TypeError
      | Some fs =>
          mret (Some (Obj.set "clientMutationId" (plainField GraphQLString)
                        (Obj.set "objectId" (plainField GraphQLID)
                           (Obj.set "id" (plainField GraphQLID) fs))))
      end
  | StaticFields fs => mret (Some fs)
  end.

(** [type.getFields()] for the type allocated at [l]. *)
Definition getFields (l : loc) : M (option Fields) := λ s,
  match typeObjects s !! l with
  | Some ty => forceFields (ty_fields ty) s
  | None => (inl TypeError, s)
  end.

(** ** The root fields *)

Fixpoint queryFieldsOf (schema : Schema) (classNames : list string) (fields : Fields)
    : M Fields :=
  match classNames with
  | [] => mret fields
  | className :: rest =>
      bundle ← loadClass className schema;
      queryFieldsOf schema rest
        (Obj.set ("find" ++ Bundle.displayName bundle) (Bundle.find bundle)
           (Obj.set (Bundle.displayName bundle) (Bundle.get bundle) fields))
  end.

Definition getParseClassQueryFields (schema : Schema) : M Fields :=
  queryFieldsOf schema (__classNames schema) [].

Fixpoint mutationFieldsOf (schema : Schema) (classNames : list string)
    (fields : Fields) : M Fields :=
  match classNames with
  | [] => mret fields
  | className :: rest =>
      bundle ← loadClass className schema;
      mutationFieldsOf schema rest
        (Obj.set ("destroy" ++ Bundle.displayName bundle) (Bundle.destroy bundle)
           (Obj.set ("update" ++ Bundle.displayName bundle) (Bundle.update bundle)
              (Obj.set ("add" ++ Bundle.displayName bundle) (Bundle.create bundle)
                 fields)))
  end.

Definition getParseClassMutationFields (schema : Schema) : M Fields :=
  mutationFieldsOf schema (__classNames schema) [].
End Builder.

(** ** Notions used by the statements *)

Definition isObject (v : Value) : bool :=
  match v with
  | VObj _ => true
  | _ => false
  end.

(** Whether the object [v] has the own property [k]. *)
Definition hasKey (v : Value) (k : string) : bool :=
  match v with
  | VObj o => Obj.has k o
  | _ => false
  end.

(** The local id an [update] or [destroy] input carries: its [objectId] when
    that is truthy, else the [objectId] decoded from a truthy [id]. *)
Definition identifierOf `{execute.Collab} (input : Value) : option Value :=
  if truthy (prop input "objectId") then Some (prop input "objectId")
  else if truthy (prop input "id") then
    match execute.parseID (prop input "id") with
    | inr parsed =>
        match member parsed "objectId" with
        | inr objectId => Some objectId
        | inl _ => None
        end
    | inl _ => None
    end
  else None.

(** [className === '_User' && res.response && res.response.sessionToken]:
    the value that [create] tests before it asks for an authorization. *)
Definition issuedSessionToken (className : string) (res : Value) : Err + Value :=
  if decide (className = "_User") then
    response ← member res "response";
    if truthy response then member response "sessionToken" else mret response
  else mret (VBool false).

(** [context.info && context.info.installationId] *)
Definition installationIdOf (context : Context.t) : Value :=
  if truthy (Context.info context) then prop (Context.info context) "installationId"
  else Context.info context.

(** A result of the relation find with its global id attached. *)
Definition withGlobalId `{execute.Collab} (result : Value) : Value :=
  match result with
  | VObj o =>
      VObj (Obj.set "id"
              (execute.getGloballyUniqueId (prop result "className")
                 (prop result "objectId")) o)
  | _ => result
  end.

(** How many times [new ParseClass(className, ...)] ran. *)
Definition constructions (className : string) (s : State) : nat :=
  length (filter (λ n, n = className) (constructed s)).

(** Every cached class name leads to a live instance, and [new ParseClass]
    ran once for each cached name and for no other. *)
Definition cacheOk (s : State) : Prop :=
  ∀ className : string,
    match cache s !! className with
    | Some c => is_Some (instances s !! c) ∧ constructions className s = 1
    | None => constructions className s = 0
    end.

(** The instance [pc'] is [pc] with possibly more slots filled. *)
Definition grown (pc pc' : ParseClass.t) : Prop :=
  ParseClass.className pc' = ParseClass.className pc
  ∧ ParseClass.displayName pc' = ParseClass.displayName pc
  ∧ ParseClass.schema pc' = ParseClass.schema pc
  ∧ ParseClass.class pc' = ParseClass.class pc
  ∧ ∀ sl l, ParseClass.slot sl pc = Some l → ParseClass.slot sl pc' = Some l.

(** A step that leaves the cache and the console alone and frees nothing. *)
Definition extends (s s' : State) : Prop :=
  cache s' = cache s
  ∧ console s' = console s
  ∧ constructed s' = constructed s
  ∧ (next s ≤ next s')%nat
  ∧ ∀ c, is_Some (instances s !! c) → is_Some (instances s' !! c).

(** An address handed out between [s] and [s']. *)
Definition allocatedBetween (s s' : State) (a : loc) : Prop :=
  (next s ≤ a < next s')%nat.

(** The types of a bundle are the filled slots of the instance. *)
Definition bundleOf (b : Bundle.t) (pc : ParseClass.t) : Prop :=
  ParseClass.slot objectType pc = Some (Bundle.objectType b)
  ∧ ParseClass.slot inputObjectType pc = Some (Bundle.inputType b)
  ∧ ParseClass.slot updateInputObjectType pc = Some (Bundle.updateType b)
  ∧ ParseClass.slot queryInputObjectType pc = Some (Bundle.queryType b)
  ∧ ParseClass.slot queryResultObjectType pc = Some (Bundle.queryResultType b)
  ∧ ParseClass.slot mutationResultObjectType pc = Some (Bundle.mutationResultType b)
  ∧ ParseClass.displayName pc = Bundle.displayName b.

(** What the constructor of [ParseClass] writes to the console for a class
    name that the schema lacks. *)
Definition missingClassWarning (className : string) : list ConsoleEntry :=
  [Warn ("Attempting to load a class (" ++ className ++ ") that doesn't exist...");
   Trace].

(** The field set of the add-input type, read off the class: the contents
    of [fields] under the name [name]. *)
Definition addInputField `{types.Collab} (className : string) (class : ClassSchema)
    (name : string) : option FieldDesc :=
  if decide (name = "clientMutationId") then Some (plainField GraphQLString)
  else
    match (if bool_decide (name ∈ reservedFieldNames) then None
           else field ← Obj.get name (fields class); graphQLInputField name field) with
    | Some d => Some d
    | None =>
        if decide (className = "_User") then
          if decide (name = "sessionToken") then Some sessionTokenField else None
        else None
    end.

(** ** A concrete setting for the examples *)

Module Demo.
(** Global ids of the form [Class:localId]. *)
Fixpoint splitId (s : string) : string * string :=
  match s with
  | EmptyString => ("", "")
  | String a rest =>
      if decide (a = ":"%char) then ("", rest)
      else let '(cls, oid) := splitId rest in (String a cls, oid)
  end.

#[global] Instance ids : execute.Collab := {|
  execute.parseID v :=
    match v with
    | VStr s =>
        let '(cls, oid) := splitId s in
        inr (VObj [("className", VStr cls); ("objectId", VStr oid)])
    | _ => inl (Thrown (VStr "Invalid ID"))
    end;
  execute.getGloballyUniqueId cls oid :=
    match cls, oid with
    | VStr c, VStr o => VStr (c ++ ":" ++ o)
    | _, _ => VUndef
    end;
  execute.toGraphQLCursor node := prop node "objectId";
|}.

#[global] Instance scalars : types.Collab := {|
  types.type f := Some (External (field_type f));
  types.inputType f :=
    if decide (field_type f = "Relation") then None
    else Some (External (field_type f ++ "Input"));
  types.queryType f :=
    if decide (field_type f = "Relation") then None
    else Some (External (field_type f ++ "Query"));
|}.

Definition schema : Schema :=
  mkSchema
    (<["Post" := mkClass [("objectId", mkField "String" "");
                          ("title", mkField "String" "");
                          ("author", mkField "Pointer" "_User");
                          ("comments", mkField "Relation" "Comment");
                          ("createdAt", mkField "Date" "")]]>
     (<["Comment" := mkClass [("text", mkField "String" "");
                              ("id", mkField "Pointer" "Post")]]>
      (<["_User" := mkClass [("username", mkField "String" "")]]> ∅)))
    ["Post"; "Comment"; "_User"; "Ghost"].

(** An in-memory backend: the world is the stored objects by local id. *)
Definition World : Type := list (string * Value).

Definition notFound : Err := Rejected (VStr "Object not found.").

Definition fetch (objectId : Value) (w : World) : (Err + Value) * World :=
  match objectId with
  | VStr k =>
      match Obj.get k w with
      | Some o => (inr o, w)
      | None => (inl notFound, w)
      end
  | _ => (inl notFound, w)
  end.

Definition backend (c : Call) : World → (Err + Resp c) * World :=
  match c with
  | RunGet _ _ _ objectId _ => fetch objectId
  | RunFind _ _ _ _ _ => λ w, (inr w.*2, w)
  | RestCreate _ _ className input => λ w,
      match assign input "objectId" (VStr "fresh") with
      | inr o =>
          (inr (VObj [("response", VObj [("objectId", VStr "fresh");
                                         ("sessionToken", VStr "r:token")])]),
           Obj.set "fresh" o w)
      | inl e => (inl e, w)
      end
  | RestUpdate _ _ _ query input => λ w,
      match prop query "objectId" with
      | VStr k =>
          match Obj.get k w with
          | Some _ => (inr (VObj []), Obj.set k input w)
          | None => (inl notFound, w)
          end
      | _ => (inl notFound, w)
      end
  | RestDel _ _ _ objectId => λ w,
      match objectId with
      | VStr k => (inr (VObj []), Obj.del k w)
      | _ => (inl notFound, w)
      end
  | GetAuthForSessionToken options => λ w,
      (inr (VObj [("sessionToken", prop options "sessionToken")]), w)
  | ResolvePointer _ pointer _ _ => fetch (prop pointer "objectId")
  end.

Definition context : Context.t :=
  Context.mk (VObj [("isMaster", VBool false)]) (VObj [("appId", VStr "demo")])
    (VObj [("installationId", VStr "i-1")]).

Definition post (k title : string) : string * Value :=
  (k, VObj [("className", VStr "Post"); ("objectId", VStr k); ("title", VStr title)]).

Definition world : World := [post "p1" "first"; post "p2" "second"].

(** More stored objects than a page holds. *)
Definition crowded : World := (λ n, post (pretty n) "filler") <$> seq 0 130.

Definition pageOf500 : Value := VObj [("first", VNum 500)].

(** A find of 500 posts, and the comments of a post, 500 at a time. *)
Definition crowdedFind : (Err + Connection) * list Call * World :=
  run backend (find_resolve "Post" VUndef pageOf500 context VUndef) crowded.
Definition crowdedRelation : (Err + Connection) * list Call * World :=
  run backend
    (relation_resolve "comments" (post "p1" "first").2 pageOf500 context VUndef)
    crowded.


(** The type a field mapper chose. *)
Definition mappedType (r : (Err + option FieldDesc) * State) : option GType :=
  match r.1 with
  | inr (Some d) => fd_type d
  | _ => None
  end.

(** The field names of the add-input type of a class, built from
    scratch. *)
Definition addInputFieldNames (className : string) : option (list string) :=
  match loadClass className schema initial with
  | (inr b, s) =>
      match getFields (Bundle.inputType b) s with
      | (inr (Some fs), _) => Some (Obj.keys fs)
      | _ => None
      end
  | _ => None
  end.


(** An update input with both identifiers, the local one empty, and what
    is left of it once [getObjectId] has run. *)
Definition emptyObjectId : Value :=
  VObj [("id", VStr "Post:p1"); ("objectId", VStr ""); ("title", VStr "t")].
Definition emptyObjectIdLeft : Value :=
  VObj [("objectId", VStr ""); ("title", VStr "t")].

(** An update input with both identifiers set. *)
Definition bothIds : list (string * Value) :=
  [("id", VStr "Post:p1"); ("objectId", VStr "p2"); ("title", VStr "t");
   ("clientMutationId", VStr "m-1")].

Definition inputOf (input : Value) : Value := VObj [("input", input)].

(** A store that holds the instance of a class that the schema lacks. *)
Definition ghostOnly : State :=
  mkState 1 ∅ {[0 := ParseClass.mk "Ghost" "Ghost" schema None []]} ∅ [] [].

(** The field names that a type of the bundle of [Ghost] yields, or the
    exception it raises, when asked for its fields. *)
Definition fieldsOfGhost (type : Bundle.t → loc) : option (Err + option (list string)) :=
  match loadClass "Ghost" schema initial with
  | (inr b, s) =>
      Some match (getFields (type b) s).1 with
           | inl e => inl e
           | inr fs => inr (Obj.keys <$> fs)
           end
  | _ => None
  end.

(** A store that holds the instance of [_User] and nothing else. *)
Definition userOnly : State :=
  mkState 1 ∅
    {[0 := ParseClass.mk "_User" "User" schema
             (Some (AClass (mkClass [("username", mkField "String" "");
                                     ("objectId", mkField "String" "");
                                     ("friends", mkField "Relation" "_User")])))
             []]}
    ∅ [] [].
End Demo.


(** ** Further notions *)

(** A value that is not an object under a Pointer or GeoPoint field. *)
Definition untaggable (fs : list (string * Field)) (k : string) (v : Value) : Prop :=
  isObject v = false
  ∧ ∃ f, Obj.get k fs = Some f
         ∧ (field_type f = "Pointer" ∨ field_type f = "GeoPoint").

(** ** The store as [loadClass] keeps it *)

(** The type object that a method of the instance [pc] at [c] leaves in the
    slot [sl]: the configuration returned by the [graphQL...Config] method
    of that slot.  The two result types name the object type of the
    instance, and the query-result type the edge type made along with it. *)
Definition typeOfSlot (sl : Slot) (c : loc) (pc : ParseClass.t) (ty : TypeObj) : Prop :=
  let displayName := ParseClass.displayName pc in
  let className := ParseClass.className pc in
  match sl with
  | objectType =>
      ty = mkTypeObj ObjectType displayName (Some ("Parse Class " ++ className))
             ["Node"] (ObjectFields c) (Some className)
  | inputObjectType =>
      ty = mkTypeObj InputObjectType ("Add" ++ displayName ++ "Input")
             (Some ("Parse Class " ++ className ++ " Input"))
             [] (InputFields c) (Some className)
  | updateInputObjectType =>
      ty = mkTypeObj InputObjectType ("Update" ++ displayName ++ "Input")
             (Some ("Parse Class " ++ className ++ " Update"))
             [] (UpdateFields c) (Some className)
  | queryInputObjectType =>
      ty = mkTypeObj InputObjectType (displayName ++ "Query")
             (Some ("Parse Class " ++ className ++ " Query"))
             [] (QueryFields c) (Some className)
  | queryResultObjectType =>
      ∃ object edge,
        ParseClass.slot objectType pc = Some object
        ∧ ty = mkTypeObj ObjectType (displayName ++ "QueryConnection") None []
                 (StaticFields
                    [("nodes", plainField (GraphQLList (TypeRef object)));
                     ("edges", plainField (GraphQLList (TypeRef edge)));
                     ("pageInfo", plainField types.PageInfo)])
                 None
  | mutationResultObjectType =>
      ∃ object,
        ParseClass.slot objectType pc = Some object
        ∧ ty = mkTypeObj ObjectType (displayName ++ "MutationCompletePayload") None []
                 (StaticFields
                    [("object", plainField (TypeRef object));
                     ("clientMutationId", plainField GraphQLString)])
                 None
  end.

(** Every address in use lies below the allocation counter, and every
    filled slot holds the address of the type object of that slot. *)
Definition storeOk (s : State) : Prop :=
  (∀ c, is_Some (instances s !! c) → (c < next s)%nat)
  ∧ (∀ l, is_Some (typeObjects s !! l) → (l < next s)%nat)
  ∧ ∀ c pc sl l,
      instances s !! c = Some pc → ParseClass.slot sl pc = Some l →
      ∃ ty, typeObjects s !! l = Some ty ∧ typeOfSlot sl c pc ty.

(** The cache maps a class name to an instance constructed for that name. *)
Definition cacheNamed (s : State) : Prop :=
  ∀ className c,
    cache s !! className = Some c →
    ∃ pc, instances s !! c = Some pc
          ∧ ParseClass.className pc = className
          ∧ ParseClass.displayName pc = displayNameOf className.

Definition wellFormed (s : State) : Prop := cacheOk s ∧ storeOk s ∧ cacheNamed s.

(** What [loadClass] leaves alone: the instances other than [c], the type
    objects that existed, and the cache entries of other class names. *)
Definition untouched (className : string) (c : loc) (s s' : State) : Prop :=
  (∀ c', c' ≠ c → instances s' !! c' = instances s !! c')
  ∧ (∀ l, (l < next s)%nat → typeObjects s' !! l = typeObjects s !! l)
  ∧ (∀ className', className' ≠ className → cache s' !! className' = cache s !! className').

(** The address of the type of the [input] argument of a mutation. *)
Definition inputTypeOf (d : FieldDesc) : option loc :=
  match Obj.get "input" (fd_args d) with
  | Some (TypeRef l) => Some l
  | _ => None
  end.

(** The configuration method behind each memoising method. *)
Definition configOf (sl : Slot) (c : loc) : M TypeObj :=
  match sl with
  | objectType => graphQLConfig c
  | updateInputObjectType => graphQLUpdateInputConfig c
  | inputObjectType => graphQLInputConfig c
  | queryInputObjectType => graphQLQueryConfig c
  | queryResultObjectType => graphQLQueryResultConfig c
  | mutationResultObjectType => graphQLMutationResultConfig c
  end.

(** The type object of [Destroy<DisplayName>Input]. *)
Definition destroyInputType (displayName : string) : TypeObj :=
  mkTypeObj InputObjectType ("Destroy" ++ displayName ++ "Input") None []
    (StaticFields
       [("id", mkFieldDesc None None (Some GraphQLID)
                 (Some "Use either the global id or objectId") [] None);
        ("objectId", mkFieldDesc None None (Some GraphQLID)
                 (Some "Use either the global id or objectId") [] None);
        ("clientMutationId", plainField GraphQLString)])
    None.


(** ** Inputs for the further examples *)

Module Cases.
(** The class [Post] of the example schema. *)
Definition postClass : ClassSchema :=
  mkClass [("objectId", mkField "String" "");
           ("title", mkField "String" "");
           ("author", mkField "Pointer" "_User");
           ("comments", mkField "Relation" "Comment");
           ("createdAt", mkField "Date" "")].

(** The class of the instance in [Demo.userOnly], and that instance. *)
Definition userClass : ClassSchema :=
  mkClass [("username", mkField "String" "");
           ("objectId", mkField "String" "");
           ("friends", mkField "Relation" "_User")].
Definition userInstance : ParseClass.t :=
  ParseClass.mk "_User" "User" Demo.schema (Some (AClass userClass)) [].

(** Both identifiers present and falsy. *)
Definition falsyIds : Value := VObj [("id", VStr ""); ("objectId", VNull)].

(** An [id] that is no string. *)
Definition numericId : list (string * Value) := [("id", VNum 7)].

(** A post with its author, before and after normalisation. *)
Definition authored : list (string * Value) :=
  [("author", VObj [("objectId", VStr "u1")]); ("title", VStr "t")].
Definition authoredTagged : list (string * Value) :=
  [("author", VObj [("objectId", VStr "u1"); ("__type", VStr "Pointer")]);
   ("title", VStr "t")].

(** A post whose author is [null]. *)
Definition orphan : list (string * Value) := [("author", VNull)].

(** New objects: a post that brings an [objectId] of its own, and a user. *)
Definition newPost : list (string * Value) :=
  [("objectId", VStr "mine"); ("title", VStr "t"); ("clientMutationId", VStr "m-1")].
Definition newUser : list (string * Value) :=
  [("username", VStr "u"); ("clientMutationId", VStr "m-1")].


(** What the example backend answers to a creation. *)
Definition created : Value :=
  VObj [("objectId", VStr "fresh"); ("sessionToken", VStr "r:token")].
End Cases.

(** * Properties *)

(** ** Property lists *)

Module ObjFacts.
Section Facts.
Context {A : Type}.
Implicit Types (o : list (string * A)) (k : string) (v : A).

Lemma get_set_eq k v o : Obj.get k (Obj.set k v o) = Some v.
Proof.
  induction o as [|[k' v'] o IH]; simpl.
  - by rewrite decide_True.
  - destruct (decide (k = k')) as [->|Hne]; simpl.
    + by rewrite decide_True.
    + by rewrite decide_False.
Qed.

Lemma get_set_ne k k' v o : k ≠ k' → Obj.get k (Obj.set k' v o) = Obj.get k o.
Proof.
  intros Hne. induction o as [|[k'' v''] o IH]; simpl.
  - by rewrite decide_False.
  - destruct (decide (k' = k'')) as [->|Hne']; simpl.
    + by rewrite !decide_False.
    + by rewrite IH.
Qed.

Lemma get_del_eq k o : Obj.get k (Obj.del k o) = None.
Proof.
  induction o as [|[k' v'] o IH]; simpl; [done|].
  destruct (decide (k = k')) as [->|Hne]; simpl; [done|].
  by rewrite decide_False.
Qed.

Lemma get_del_ne k k' o : k ≠ k' → Obj.get k (Obj.del k' o) = Obj.get k o.
Proof.
  intros Hne. induction o as [|[k'' v''] o IH]; simpl; [done|].
  destruct (decide (k' = k'')) as [->|Hne']; simpl.
  - by rewrite decide_False.
  - by rewrite IH.
Qed.

Lemma get_None k o : k ∉ Obj.keys o → Obj.get k o = None.
Proof.
  unfold Obj.keys. induction o as [|[k' v'] o IH]; simpl; [done|].
  intros [Hne Hk]%not_elem_of_cons. rewrite decide_False; [by apply IH|done].
Qed.

Lemma has_del_eq k o : Obj.has k (Obj.del k o) = false.
Proof. unfold Obj.has. by rewrite get_del_eq. Qed.

Lemma has_del_ne k k' o : k ≠ k' → Obj.has k (Obj.del k' o) = Obj.has k o.
Proof. intros. unfold Obj.has. by rewrite get_del_ne. Qed.
End Facts.
End ObjFacts.

(** ** Normalising an input *)

(** [transformInput] keeps the keys of the input, and leaves alone every
    value that is not an object: for such a value under a Pointer or
    GeoPoint field the assignment raises. *)
Lemma transformProps_get fs o o' k :
  transformProps fs o = inr o' →
  match Obj.get k o with
  | None => Obj.get k o' = None
  | Some v => ∃ v', Obj.get k o' = Some v' ∧ (isObject v = false → v' = v)
  end.
Proof.
  revert o'. induction o as [|[k' v] o IH]; intros o' Ho; simpl in *.
  - by inversion Ho.
  - destruct (transformValue fs k' v) as [e|v'] eqn:Hv; simpl in Ho; [done|].
    destruct (transformProps fs o) as [e|o''] eqn:Hrest; simpl in Ho; [done|].
    inversion Ho; subst o'; clear Ho. simpl.
    destruct (decide (k = k')) as [->|Hne].
    + exists v'. split; [done|]. intros Hprim.
      unfold transformValue in Hv.
      destruct (Obj.get k' fs) as [f|]; [|congruence].
      repeat case_decide; try congruence; by destruct v.
    + by apply IH.
Qed.

(** The keys are visited with the fields of a class, unless there is no
    key to visit. *)
Lemma transformKeys_props fs o o' :
  transformKeys fs o = inr o' →
  ∃ fs', transformProps fs' o = inr o' ∧ (fs = Some fs' ∨ (fs = None ∧ o = [])).
Proof.
  destruct fs as [fs|]; simpl.
  - intros Ho. exists fs. auto.
  - destruct o; [|done]. intros [= <-]. exists []. auto.
Qed.

(** An input that normalises is an object whose properties were visited,
    or a primitive that is returned as it came. *)
Lemma transformInput_inv input cls input1 :
  transformInput input cls = inr input1 →
  (match input with VBool _ | VNum _ | VStr _ => True | _ => False end
   ∧ input1 = input)
  ∨ ∃ o o' fs,
      input = VObj o ∧ input1 = VObj o' ∧ transformProps fs o = inr o'
      ∧ ∀ class, cls = Some (AClass class) → fs = fields class.
Proof.
  unfold transformInput. destruct cls as [value|]; [|done].
  destruct input as [| | | |s|o]; try done; try (intros [= <-]; by left).
  - destruct (transformKeys (fieldsOf value) (characters s)); simpl; [done|].
    intros [= <-]. by left.
  - destruct (transformKeys (fieldsOf value) o) as [e|o'] eqn:Ho; simpl; [done|].
    intros [= <-]. right.
    destruct (transformKeys_props _ _ _ Ho) as (fs & Hfs & Hwhich).
    exists o, o', fs. split; [done|]. split; [done|]. split; [done|].
    intros class [= ->]. simpl in Hwhich. by destruct Hwhich as [[= <-]|[? _]].
Qed.

Lemma transformInput_token input cls input1 :
  transformInput input cls = inr input1 →
  isObject (prop input "clientMutationId") = false →
  prop input1 "clientMutationId" = prop input "clientMutationId".
Proof.
  intros [[_ ->]|(o & o' & fs & -> & -> & Ho & _)]%transformInput_inv; [done|].
  intros Hprim. simpl in *.
  pose proof (transformProps_get _ _ _ "clientMutationId" Ho) as Hk.
  destruct (Obj.get "clientMutationId" o) as [v|].
  - destruct Hk as (v' & -> & Hv). simpl in *. by apply Hv.
  - by rewrite Hk.
Qed.

Lemma transformProps_has fs o o' k :
  transformProps fs o = inr o' → Obj.has k o' = Obj.has k o.
Proof.
  intros Ho. pose proof (transformProps_get _ _ _ k Ho) as Hk.
  unfold Obj.has. destruct (Obj.get k o).
  - by destruct Hk as (v' & -> & _).
  - by rewrite Hk.
Qed.

(** ** Resolving the identifier *)

Lemma getObjectId_missing `{execute.Collab} o :
  Obj.get "id" o = None → Obj.get "objectId" o = None →
  getObjectId (VObj o) = inl MissingIdentifier.
Proof. intros Hid Hoid. unfold getObjectId. simpl. by rewrite Hid, Hoid. Qed.

Lemma getObjectId_identifierOf `{execute.Collab} o objectId :
  identifierOf (VObj o) = Some objectId →
  ∃ k, (k = "id" ∨ k = "objectId") ∧
       getObjectId (VObj o) = inr (objectId, VObj (Obj.del k o)).
Proof.
  unfold identifierOf, getObjectId. simpl.
  destruct (truthy (default VUndef (Obj.get "objectId" o))) eqn:Hoid.
  - intros [= <-]. exists "objectId". split; [by right|].
    by rewrite andb_false_r.
  - destruct (truthy (default VUndef (Obj.get "id" o))) eqn:Hid; [|done].
    simpl. destruct (execute.parseID _) as [e|parsed]; [done|]. simpl.
    destruct (member parsed "objectId") as [e|oid]; [done|]. simpl.
    intros [= <-]. exists "id". split; [by left|done].
Qed.

(** ** The mutation resolvers *)

Section Mutations.
Context `{execute.Collab} {W : Type}.
Variable backend : ∀ c : Call, W → (Err + Resp c) * W.
Implicit Types (root args info : Value) (context : Context.t) (w : W).

(** C2.  An [update] or [destroy] whose input has neither an [id] nor an
    [objectId] property fails with the missing-identifier error, and the
    run issues no collaborator call at all: no [rest.update], no
    [rest.del], no [runGet]. *)
Theorem missing_identifier_without_storage_call
    className schema root args context info o w :
  member args "input" = inr (VObj o) →
  Obj.get "id" o = None →
  Obj.get "objectId" o = None →
  run backend (update_resolve className schema root args context info) w
    = (inl MissingIdentifier, [], w)
  ∧ run backend (destroy_resolve className root args context info) w
    = (inl MissingIdentifier, [], w).
Proof.
  intros Hin Hid Hoid.
  unfold update_resolve, destroy_resolve. rewrite Hin. simpl.
  by rewrite (getObjectId_missing o Hid Hoid).
Qed.

(** C5.  A [destroy] whose input carries an identifier first fetches the
    object.  If the fetch is rejected nothing else is called; otherwise
    the delete is the second and last call, and when it succeeds the
    result holds the object as fetched before the delete together with
    the [clientMutationId] of the input. *)
Theorem destroy_fetches_before_deleting
    className root args context info o objectId w :
  member args "input" = inr (VObj o) →
  identifierOf (VObj o) = Some objectId →
  let fetch := RunGet context info className objectId None in
  let remove :=
    RestDel (Context.config context) (Context.auth context) className objectId in
  run backend (destroy_resolve className root args context info) w =
    match backend fetch w with
    | (inl e, w1) => (inl e, [fetch], w1)
    | (inr object, w1) =>
        match backend remove w1 with
        | (inl e, w2) => (inl e, [fetch; remove], w2)
        | (inr _, w2) =>
            (inr (VObj [("object", object);
                        ("clientMutationId", prop (VObj o) "clientMutationId")]),
             [fetch; remove], w2)
        end
    end.
Proof.
  intros Hin Hid fetch remove.
  destruct (getObjectId_identifierOf o objectId Hid) as (k & Hk & Hget).
  unfold destroy_resolve. rewrite Hin. simpl. rewrite Hget. simpl.
  assert (Obj.get "clientMutationId" (Obj.del k o) = Obj.get "clientMutationId" o)
    as -> by (apply ObjFacts.get_del_ne; by destruct Hk as [-> | ->]).
  fold fetch. destruct (backend fetch w) as [[e|object] w1]; [done|].
  simpl. fold remove. by destruct (backend remove w1) as [[e|r] w2].
Qed.

(** C6.  A [create] whose input normalises forwards to [rest.create], as
    its first call, the input without its [clientMutationId] property.  If
    the creation is rejected the run ends there.  Otherwise, once the session
    of a new user is adopted where there is one, the created object is
    fetched by the [objectId] of the creation response, as the last call,
    and the result holds the object that the fetch resolved to together with
    the [clientMutationId] of the input. *)
Theorem create_strips_token_and_refetches
    className schema root args context info input input1 w :
  member args "input" = inr input →
  transformInput input (schemaGet schema className) = inr input1 →
  isObject (prop input "clientMutationId") = false →
  ∃ forwarded,
    delete_prop input1 "clientMutationId" = inr forwarded
    ∧ hasKey forwarded "clientMutationId" = false
    ∧ let config := Context.config context in
      let creation := RestCreate config (Context.auth context) className forwarded in
      run backend (create_resolve className schema root args context info) w =
        match backend creation w with
        | (inl e, w1) => (inl e, [creation], w1)
        | (inr res, w1) =>
            let refetch auth (calls : list Call) w2 :=
              match (response ← member res "response"; member response "objectId") with
              | inl e => (inl e, calls, w2)
              | inr objectId =>
                  let fetch :=
                    RunGet (Context.mk auth config VUndef) info className objectId None in
                  match backend fetch w2 with
                  | (inl e, w3) => (inl e, (calls ++ [fetch])%list, w3)
                  | (inr object, w3) =>
                      (inr (VObj [("object", object);
                                  ("clientMutationId",
                                   prop input "clientMutationId")]),
                       (calls ++ [fetch])%list, w3)
                  end
              end in
            match issuedSessionToken className res with
            | inl e => (inl e, [creation], w1)
            | inr token =>
                if truthy token then
                  let authenticating :=
                    GetAuthForSessionToken
                      (VObj [("config", config);
                             ("installationId", installationIdOf context);
                             ("sessionToken", token)]) in
                  match backend authenticating w1 with
                  | (inl e, w2) => (inl e, [creation; authenticating], w2)
                  | (inr auth1, w2) => refetch auth1 [creation; authenticating] w2
                  end
                else refetch (Context.auth context) [creation] w1
            end
        end.
Proof.
  intros Hin Htr Htok.
  pose proof (transformInput_token _ _ _ Htr Htok) as Hkeep.
  assert (∃ forwarded, delete_prop input1 "clientMutationId" = inr forwarded
            ∧ hasKey forwarded "clientMutationId" = false
            ∧ member input1 "clientMutationId"
              = inr (prop input "clientMutationId"))
    as (forwarded & Hdel & Hgone & Hmem).
  { rewrite <- Hkeep.
    destruct (transformInput_inv _ _ _ Htr)
      as [[Hprim ->]|(o & o' & fs & -> & -> & _ & _)].
    - destruct input; try done; by eexists.
    - eexists. split; [done|]. split; [|done]. simpl. apply ObjFacts.has_del_eq. }
  exists forwarded. split; [done|]. split; [done|]. intros config creation.
  unfold create_resolve, issuedSessionToken, installationIdOf.
  rewrite Hin. simpl. rewrite Htr. simpl.
  rewrite Hmem. simpl. rewrite Hdel. simpl. fold config. fold creation.
  destruct (backend creation w) as [[e|res] w1] eqn:Hcreate; [done|].
  simpl.
  set (issued := if decide (className = "_User") then _ else _).
  destruct issued as [e|tok] eqn:Hissued; simpl; [done|].
  destruct (truthy tok) eqn:Htruthy; simpl.
  - match goal with |- context [backend ?c w1] => set (authCall := c) end.
    destruct (backend authCall w1) as [[e|auth1] w2] eqn:Hauth; [done|].
    simpl.
    destruct (member res "response") as [e|response] eqn:Hresp; simpl; [done|].
    destruct (member response "objectId") as [e|objectId] eqn:Hoid; simpl; [done|].
    match goal with |- context [backend ?c w2] => set (fetch := c) end.
    by destruct (backend fetch w2) as [[e|object] w3] eqn:Hfetch.
  - destruct (member res "response") as [e|response] eqn:Hresp; simpl; [done|].
    destruct (member response "objectId") as [e|objectId] eqn:Hoid; simpl; [done|].
    match goal with |- context [backend ?c w1] => set (fetch := c) end.
    by destruct (backend fetch w1) as [[e|object] w3] eqn:Hfetch.
Qed.

(** C10, as the code has it.  When the input of an [update] or a [destroy]
    has both an [id] and an [objectId] property and the [objectId] value is
    truthy, [getObjectId] raises nothing, addresses the object by that value
    and deletes the [objectId] property only, so that the [id] property
    stays.  The [destroy] then fetches by that value; the [update], once the
    input normalises, hands the [id] property to [rest.update], its first
    call, as part of the partial field set. *)
Theorem update_with_both_identifiers
    className schema root args context info o idValue objectId w :
  member args "input" = inr (VObj o) →
  Obj.get "id" o = Some idValue →
  Obj.get "objectId" o = Some objectId →
  truthy objectId = true →
  getObjectId (VObj o) = inr (objectId, VObj (Obj.del "objectId" o))
  ∧ Obj.get "id" (Obj.del "objectId" o) = Some idValue
  ∧ (∃ out rest w',
       run backend (destroy_resolve className root args context info) w
         = (out, RunGet context info className objectId None :: rest, w'))
  ∧ ∀ input1,
      transformInput (VObj (Obj.del "objectId" o)) (schemaGet schema className)
        = inr input1 →
      ∃ forwarded,
        delete_prop input1 "clientMutationId" = inr forwarded
        ∧ hasKey forwarded "id" = true
        ∧ hasKey forwarded "objectId" = false
        ∧ ∃ out rest w',
            run backend (update_resolve className schema root args context info) w
              = (out,
                 RestUpdate (Context.config context) (Context.auth context)
                   className (VObj [("objectId", objectId)]) forwarded :: rest,
                 w').
Proof.
  intros Hin Hid Hoid Htruthy.
  assert (getObjectId (VObj o) = inr (objectId, VObj (Obj.del "objectId" o)))
    as Hget.
  { unfold getObjectId. simpl. rewrite Hid, Hoid. simpl.
    by rewrite Htruthy, andb_false_r. }
  split; [done|]. split; [by rewrite ObjFacts.get_del_ne|]. split.
  { unfold destroy_resolve. rewrite Hin. simpl. rewrite Hget. simpl.
    match goal with |- context [backend ?c w] => set (fetch := c) end.
    destruct (backend fetch w) as [[e|object] w1]; [by do 3 eexists|].
    simpl.
    match goal with |- context [backend ?c w1] => set (remove := c) end.
    destruct (backend remove w1) as [[e|r] w2]; by do 3 eexists. }
  intros input1 Htr.
  destruct (transformInput_inv _ _ _ Htr)
    as [[[] _]|(o0 & o' & fs & [= <-] & -> & Ho' & _)].
  exists (VObj (Obj.del "clientMutationId" o')). split; [done|].
  split; [|split].
  - simpl. rewrite ObjFacts.has_del_ne by done.
    rewrite (transformProps_has _ _ _ "id" Ho').
    rewrite ObjFacts.has_del_ne by done. unfold Obj.has. by rewrite Hid.
  - simpl. rewrite ObjFacts.has_del_ne by done.
    rewrite (transformProps_has _ _ _ "objectId" Ho').
    apply ObjFacts.has_del_eq.
  - unfold update_resolve. rewrite Hin. simpl. rewrite Hget. simpl.
    rewrite Htr. simpl.
    match goal with |- context [backend ?c w] => set (upd := c) end.
    destruct (backend upd w) as [[e|r] w1]; [by do 3 eexists|].
    simpl.
    match goal with |- context [backend ?c w1] => set (fetch := c) end.
    destruct (backend fetch w1) as [[e|object] w2]; by do 3 eexists.
Qed.
End Mutations.

(** ** Connections *)

Section Paging.
Context `{execute.Collab} {W : Type}.
Variable backend : ∀ c : Call, W → (Err + Resp c) * W.

(** The window never exceeds the maximum. *)
Lemma connectionResultsArray_capped results args maximum :
  (length (nodes (connectionResultsArray results args maximum)) ≤ maximum)%nat
  ∧ (length (edges (connectionResultsArray results args maximum)) ≤ maximum)%nat.
Proof.
  unfold connectionResultsArray. simpl. rewrite length_fmap.
  set (pageSize := Nat.min _ maximum).
  assert (pageSize ≤ maximum)%nat by apply Nat.le_min_r.
  destruct (match prop args "first" with VNum _ => _ | _ => _ end).
  - rewrite length_drop. lia.
  - rewrite length_take. lia.
Qed.

Lemma tagResults_objects results :
  Forall (λ r, isObject r = true) results →
  tagResults results = inr (withGlobalId <$> results).
Proof.
  induction 1 as [|r rs Hr _ IH]; simpl; [done|].
  destruct r; try done. simpl. by rewrite IH.
Qed.

(** The nodes are a window of the results: a run of them that holds as
    many as the page size allows, with one edge for every node. *)
Lemma connectionResultsArray_window results args maximum :
  sublist (nodes (connectionResultsArray results args maximum)) results
  ∧ length (nodes (connectionResultsArray results args maximum))
    = Nat.min (length results)
        (Nat.min (default maximum (requestedPageSize args)) maximum)
  ∧ (edges (connectionResultsArray results args maximum)).*1
    = nodes (connectionResultsArray results args maximum).
Proof.
  unfold connectionResultsArray. simpl.
  set (pageSize := Nat.min _ maximum).
  split; [|split].
  - destruct (match prop args "first" with VNum _ => _ | _ => _ end).
    + apply sublist_drop.
    + apply sublist_take.
  - destruct (match prop args "first" with VNum _ => _ | _ => _ end).
    + rewrite length_drop. lia.
    + rewrite length_take. lia.
  - rewrite <- list_fmap_compose. apply list_fmap_id.
Qed.

(** C3.  A [find] issues one call, the [runFind] of the class with the
    arguments as given, and wraps what it resolved to as a Connection: the
    nodes are a window of those results, as many as the requested page size
    and at most 100.  The resolver of a Relation field wraps in the same way,
    with the same cap of 100, the results of its find, each with its global
    id; and whenever it returns, its Connection has at most 100 nodes. *)
Theorem page_size_capped
    className fieldName root parent args context info (w : W) :
  (let finding := RunFind context info (VStr className) args None in
   match backend finding w with
   | (inl e, w1) =>
       run backend (find_resolve className root args context info) w
         = (inl e, [finding], w1)
   | (inr results, w1) =>
       ∃ connection,
         run backend (find_resolve className root args context info) w
           = (inr connection, [finding], w1)
         ∧ connection = connectionResultsArray results args 100
         ∧ sublist (nodes connection) results
         ∧ length (nodes connection)
           = Nat.min (length results)
               (Nat.min (default 100 (requestedPageSize args)) 100)
         ∧ (length (nodes connection) ≤ 100)%nat
   end)
  ∧ (isObject parent = true →
     ∀ a, args = VObj a →
       let marked := VObj (Obj.set "redirectClassNameForKey" (VStr fieldName) a) in
       let finding :=
         RunFind context info (prop parent "className") marked
           (Some (relatedTo fieldName (prop parent "className")
                    (prop parent "objectId"))) in
       match backend finding w with
       | (inl e, w1) =>
           run backend (relation_resolve fieldName parent args context info) w
             = (inl e, [finding], w1)
       | (inr results, w1) =>
           Forall (λ r, isObject r = true) results →
           ∃ connection,
             run backend (relation_resolve fieldName parent args context info) w
               = (inr connection, [finding], w1)
             ∧ connection
               = connectionResultsArray (withGlobalId <$> results) marked 100
             ∧ sublist (nodes connection) (withGlobalId <$> results)
             ∧ length (nodes connection)
               = Nat.min (length results)
                   (Nat.min (default 100 (requestedPageSize marked)) 100)
             ∧ (length (nodes connection) ≤ 100)%nat
       end)
  ∧ (∀ connection calls w',
       run backend (relation_resolve fieldName parent args context info) w
         = (inr connection, calls, w') →
       (length (nodes connection) ≤ 100)%nat).
Proof.
  split; [|split].
  - intros finding. unfold find_resolve. simpl. fold finding.
    destruct (backend finding w) as [[e|results] w1]; simpl; [done|].
    eexists. split; [done|]. split; [done|].
    destruct (connectionResultsArray_window results args 100) as (Hsub & Hlen & _).
    split; [done|]. split; [done|]. apply connectionResultsArray_capped.
  - intros Hparent a -> marked finding.
    destruct parent as [| | | | |p]; try done.
    subst marked finding. unfold relation_resolve, relatedTo. simpl.
    destruct (backend _ w) as [[e|results] w1]; simpl; [done|].
    intros Hobjs. rewrite (tagResults_objects _ Hobjs). simpl.
    eexists. split; [done|]. split; [done|].
    destruct (connectionResultsArray_window (withGlobalId <$> results)
                (VObj (Obj.set "redirectClassNameForKey" (VStr fieldName) a)) 100)
      as (Hsub & Hlen & _).
    rewrite length_fmap in Hlen.
    split; [done|]. split; [done|]. apply connectionResultsArray_capped.
  - intros connection calls w'. unfold relation_resolve.
    destruct (member parent "className") as [e|cn]; simpl; [done|].
    destruct (member parent "objectId") as [e|oid]; simpl; [done|].
    destruct (assign args _ _) as [e|args']; simpl; [done|].
    destruct (backend _ w) as [[e|results] w1]; simpl; [done|].
    destruct (tagResults results) as [e|results']; simpl; [done|].
    intros [= <- _ _]. apply connectionResultsArray_capped.
Qed.

(** C7.  The resolver of the Relation field [fieldName], for a parent
    object and an arguments object, issues one call: a find under the
    class name of the parent, with the arguments marked
    [redirectClassNameForKey = fieldName] and the [$relatedTo] filter that
    points at the parent through [fieldName].  When the find resolves to
    objects, each receives as [id] the global id of its own class name and
    [objectId], and the results are wrapped as a Connection. *)
Theorem relation_resolver_finds_related
    fieldName parent args context info (w : W) p a :
  parent = VObj p →
  args = VObj a →
  let query :=
    VObj [("$relatedTo",
           VObj [("object", VObj [("__type", VStr "Pointer");
                                  ("className", prop parent "className");
                                  ("objectId", prop parent "objectId")]);
                 ("key", VStr fieldName)])] in
  let marked := VObj (Obj.set "redirectClassNameForKey" (VStr fieldName) a) in
  let finding := RunFind context info (prop parent "className") marked (Some query) in
  prop marked "redirectClassNameForKey" = VStr fieldName
  ∧ match backend finding w with
    | (inl e, w1) =>
        run backend (relation_resolve fieldName parent args context info) w
          = (inl e, [finding], w1)
    | (inr results, w1) =>
        Forall (λ r, isObject r = true) results →
        run backend (relation_resolve fieldName parent args context info) w
          = (inr (connectionResultsArray (withGlobalId <$> results) marked 100),
             [finding], w1)
        ∧ Forall (λ r, prop (withGlobalId r) "id"
                       = execute.getGloballyUniqueId (prop r "className")
                           (prop r "objectId")) results
    end.
Proof.
  intros -> -> query marked finding. split.
  { simpl. by rewrite ObjFacts.get_set_eq. }
  subst query marked finding. unfold relation_resolve, relatedTo. simpl.
  destruct (backend _ w) as [[e|results] w1]; simpl; [done|].
  intros Hobjs. rewrite (tagResults_objects _ Hobjs). simpl.
  split; [done|].
  eapply Forall_impl; [exact Hobjs|]. intros r Hr.
  destruct r; try done. simpl. by rewrite ObjFacts.get_set_eq.
Qed.
End Paging.


(** ** Steps of the type builder *)

Section Steps.
Context {A B : Type}.

Lemma bind_returns (m : M A) (f : A → M B) s a s1 :
  m s = (inr a, s1) → (m ≫= f) s = f a s1.
Proof. intros E. unfold mbind, M_bind. by rewrite E. Qed.

Lemma bind_raises (m : M A) (f : A → M B) s e s1 :
  m s = (inl e, s1) → (m ≫= f) s = (inl e, s1).
Proof. intros E. unfold mbind, M_bind. by rewrite E. Qed.
End Steps.

Lemma extends_refl s : extends s s.
Proof. by repeat split. Qed.

Lemma extends_trans s1 s2 s3 : extends s1 s2 → extends s2 s3 → extends s1 s3.
Proof.
  intros (Hc1 & Hl1 & Hk1 & Hn1 & Hi1) (Hc2 & Hl2 & Hk2 & Hn2 & Hi2).
  repeat split; try congruence; [lia|]. intros c Hc. by apply Hi2, Hi1.
Qed.

Lemma alloc_spec s :
  ∃ s', alloc s = (inr (next s), s')
        ∧ extends s s' ∧ next s' = S (next s)
        ∧ instances s' = instances s ∧ typeObjects s' = typeObjects s.
Proof. eexists. split; [reflexivity|]. repeat split; simpl; auto. Qed.

Lemma newType_spec ty s :
  ∃ s', newType ty s = (inr (next s), s')
        ∧ extends s s' ∧ next s' = S (next s)
        ∧ instances s' = instances s
        ∧ typeObjects s' = <[next s := ty]> (typeObjects s).
Proof. eexists. split; [reflexivity|]. repeat split; simpl; auto. Qed.

Lemma self_spec c s pc : instances s !! c = Some pc → self c s = (inr pc, s).
Proof. intros E. unfold self. by rewrite E. Qed.

Lemma store_spec c pc s :
  ∃ s', store c pc s = (inr (), s')
        ∧ extends s s' ∧ next s' = next s
        ∧ instances s' = <[c := pc]> (instances s)
        ∧ typeObjects s' = typeObjects s.
Proof.
  eexists. split; [reflexivity|]. repeat split; simpl; auto.
  intros c' Hc'. destruct (decide (c = c')) as [->|Hne].
  - rewrite lookup_insert_eq. by eexists.
  - by rewrite lookup_insert_ne.
Qed.

(** ** The memoising methods *)

Lemma slot_setSlot_eq sl l pc : ParseClass.slot sl (ParseClass.setSlot sl l pc) = Some l.
Proof. unfold ParseClass.slot. simpl. by rewrite decide_True. Qed.

Lemma slot_setSlot_ne sl sl' l pc :
  sl' ≠ sl → ParseClass.slot sl' (ParseClass.setSlot sl l pc) = ParseClass.slot sl' pc.
Proof. intros Hne. unfold ParseClass.slot. simpl. by rewrite decide_False. Qed.

(** A method whose slot is filled returns it and changes nothing. *)
Lemma memoised_hit sl c config s pc l :
  instances s !! c = Some pc →
  ParseClass.slot sl pc = Some l →
  memoised sl c config s = (inr l, s).
Proof.
  intros Hc Hsl. unfold memoised.
  rewrite (bind_returns _ _ _ _ _ (self_spec _ _ _ Hc)). by rewrite Hsl.
Qed.

(** A method fills its own slot and no other, provided that building the
    configuration leaves the instances alone. *)
Lemma memoised_spec sl c config s pc :
  instances s !! c = Some pc →
  (ParseClass.slot sl pc = None →
   ∃ ty s1, config s = (inr ty, s1) ∧ extends s s1 ∧ instances s1 = instances s) →
  ∃ l s' pc',
    memoised sl c config s = (inr l, s')
    ∧ extends s s'
    ∧ instances s' !! c = Some pc'
    ∧ grown pc pc'
    ∧ ParseClass.slot sl pc' = Some l
    ∧ (∀ sl', sl' ≠ sl → ParseClass.slot sl' pc' = ParseClass.slot sl' pc).
Proof.
  intros Hc Hconfig.
  destruct (ParseClass.slot sl pc) as [l|] eqn:Hsl.
  - exists l, s, pc. rewrite (memoised_hit _ _ _ _ _ _ Hc Hsl).
    repeat split; auto using extends_refl.
  - destruct Hconfig as (ty & s1 & Hty & Hext1 & Hinst1); [done|].
    destruct (newType_spec ty s1) as (s2 & Hnew & Hext2 & _ & Hinst2 & _).
    destruct (store_spec c (ParseClass.setSlot sl (next s1) pc) s2)
      as (s3 & Hstore & Hext3 & _ & Hinst3 & _).
    exists (next s1), s3, (ParseClass.setSlot sl (next s1) pc).
    split.
    { unfold memoised.
      rewrite (bind_returns _ _ _ _ _ (self_spec _ _ _ Hc)), Hsl.
      rewrite (bind_returns _ _ _ _ _ Hty).
      rewrite (bind_returns _ _ _ _ _ Hnew).
      assert (instances s2 !! c = Some pc) as Hc2 by congruence.
      rewrite (bind_returns _ _ _ _ _ (self_spec _ _ _ Hc2)).
      by rewrite (bind_returns _ _ _ _ _ Hstore). }
    split; [eauto using extends_trans|].
    split; [by rewrite Hinst3, lookup_insert_eq|].
    split.
    { repeat split; auto. intros sl' l' Hsl'.
      rewrite slot_setSlot_ne; [done|]. intros ->. congruence. }
    split; [apply slot_setSlot_eq|]. intros. by apply slot_setSlot_ne.
Qed.

(** The four configurations with a field thunk only read the instance. *)
Lemma graphQLConfig_pure c s pc :
  instances s !! c = Some pc → ∃ ty, graphQLConfig c s = (inr ty, s).
Proof.
  intros Hc. unfold graphQLConfig.
  rewrite (bind_returns _ _ _ _ _ (self_spec _ _ _ Hc)). by eexists.
Qed.

Lemma graphQLQueryConfig_pure c s pc :
  instances s !! c = Some pc → ∃ ty, graphQLQueryConfig c s = (inr ty, s).
Proof.
  intros Hc. unfold graphQLQueryConfig.
  rewrite (bind_returns _ _ _ _ _ (self_spec _ _ _ Hc)). by eexists.
Qed.

Lemma graphQLInputConfig_pure c s pc :
  instances s !! c = Some pc →
  graphQLInputConfig c s
    = (inr (mkTypeObj InputObjectType ("Add" ++ ParseClass.displayName pc ++ "Input")
              (Some ("Parse Class " ++ ParseClass.className pc ++ " Input"))
              [] (InputFields c) (Some (ParseClass.className pc))), s).
Proof.
  intros Hc. unfold graphQLInputConfig.
  by rewrite (bind_returns _ _ _ _ _ (self_spec _ _ _ Hc)).
Qed.

Lemma graphQLUpdateInputConfig_pure c s pc :
  instances s !! c = Some pc → ∃ ty, graphQLUpdateInputConfig c s = (inr ty, s).
Proof.
  intros Hc. unfold graphQLUpdateInputConfig.
  rewrite (bind_returns _ _ _ _ _ (self_spec _ _ _ Hc)). by eexists.
Qed.

(** Once the object type exists, the two result configurations allocate at
    most the edge type. *)
Lemma graphQLQueryResultConfig_spec c s pc l :
  instances s !! c = Some pc →
  ParseClass.slot objectType pc = Some l →
  ∃ ty s1, graphQLQueryResultConfig c s = (inr ty, s1)
           ∧ extends s s1 ∧ instances s1 = instances s.
Proof.
  intros Hc Hsl. unfold graphQLQueryResultConfig, graphQLObjectType.
  rewrite (bind_returns _ _ _ _ _ (memoised_hit _ _ _ _ _ _ Hc Hsl)).
  rewrite (bind_returns _ _ _ _ _ (self_spec _ _ _ Hc)).
  match goal with |- context [newType ?ty] =>
    destruct (newType_spec ty s) as (s1 & Hnew & Hext & _ & Hinst & _) end.
  rewrite (bind_returns _ _ _ _ _ Hnew). by do 2 eexists.
Qed.

Lemma graphQLMutationResultConfig_spec c s pc l :
  instances s !! c = Some pc →
  ParseClass.slot objectType pc = Some l →
  ∃ ty s1, graphQLMutationResultConfig c s = (inr ty, s1)
           ∧ extends s s1 ∧ instances s1 = instances s.
Proof.
  intros Hc Hsl. unfold graphQLMutationResultConfig, graphQLObjectType.
  rewrite (bind_returns _ _ _ _ _ (memoised_hit _ _ _ _ _ _ Hc Hsl)).
  rewrite (bind_returns _ _ _ _ _ (self_spec _ _ _ Hc)).
  eexists _, s. split; [reflexivity|]. auto using extends_refl.
Qed.

(** ** The cache and the constructor *)

Lemma extends_next s s' : extends s s' → (next s ≤ next s')%nat.
Proof. by intros (_ & _ & _ & ? & _). Qed.

Lemma cacheOk_extends s s' : extends s s' → cacheOk s → cacheOk s'.
Proof.
  intros (Hc & _ & Hk & _ & Hi) Hok cn. specialize (Hok cn).
  unfold constructions in *. rewrite Hc, Hk.
  destruct (cache s !! cn); [|done]. destruct Hok. split; auto.
Qed.

Lemma cacheOk_initial : cacheOk initial.
Proof. intros cn. done. Qed.

Lemma newParseClass_spec className schema s :
  ∃ s', newParseClass className schema s = (inr (next s), s')
        ∧ cache s' = cache s
        ∧ next s' = S (next s)
        ∧ instances s'
          = <[next s := ParseClass.mk className (displayNameOf className) schema
                          (schemaGet schema className) []]> (instances s)
        ∧ typeObjects s' = typeObjects s
        ∧ constructed s' = (constructed s ++ [className])%list
        ∧ console s'
          = (console s ++ match schemaGet schema className with
                          | Some _ => []
                          | None => missingClassWarning className
                          end)%list.
Proof.
  unfold newParseClass. destruct (schemaGet schema className) as [cls|].
  - eexists. split; [reflexivity|]. simpl. by rewrite app_nil_r.
  - eexists. split; [reflexivity|]. simpl. by rewrite <- app_assoc.
Qed.

Lemma constructions_snoc className className' s s' :
  constructed s' = (constructed s ++ [className'])%list →
  constructions className s'
  = (constructions className s + if decide (className' = className) then 1 else 0)%nat.
Proof.
  intros E. unfold constructions. rewrite E, filter_app, length_app. f_equal.
  rewrite filter_cons, filter_nil. by repeat case_decide.
Qed.

Lemma getOrElse_spec className schema s :
  cacheOk s →
  ∃ c s0 pc0,
    getOrElse className (newParseClass className schema) s = (inr c, s0)
    ∧ cacheOk s0
    ∧ instances s0 !! c = Some pc0
    ∧ cache s0 = <[className := c]> (cache s)
    ∧ (next s ≤ next s0)%nat
    ∧ (∀ c', is_Some (instances s !! c') → is_Some (instances s0 !! c'))
    ∧ (∀ c', cache s !! className = Some c' → c' = c ∧ s0 = s)
    ∧ (cache s !! className = None →
       constructed s0 = (constructed s ++ [className])%list
       ∧ console s0
         = (console s ++ match schemaGet schema className with
                         | Some _ => []
                         | None => missingClassWarning className
                         end)%list
       ∧ pc0 = ParseClass.mk className (displayNameOf className) schema
                 (schemaGet schema className) []).
Proof.
  intros Hok. unfold getOrElse.
  destruct (cache s !! className) as [c|] eqn:Hcache.
  - pose proof (Hok className) as Hcn. rewrite Hcache in Hcn.
    destruct Hcn as [[pc Hpc] _]. exists c, s, pc.
    repeat split; auto; try congruence.
    by rewrite insert_id.
  - destruct (newParseClass_spec className schema s)
      as (s' & -> & Hc & Hn & Hi & _ & Hk & Hl).
    eexists _, _, _. split; [reflexivity|]. simpl.
    split; [|split; [by rewrite Hi, lookup_insert_eq|]].
    { intros cn. unfold constructions. simpl.
      fold (constructions cn s'). rewrite (constructions_snoc _ _ _ _ Hk).
      pose proof (Hok cn) as Hcn. rewrite Hc.
      destruct (decide (className = cn)) as [<-|Hne].
      - rewrite lookup_insert_eq, Hi, lookup_insert_eq.
        rewrite Hcache in Hcn. split; [by eexists|lia].
      - rewrite lookup_insert_ne by done.
        destruct (cache s !! cn) as [c'|]; [|lia].
        destruct Hcn as [Hlive ?]. split; [|lia].
        rewrite Hi. destruct (decide (next s = c')) as [->|?].
        + rewrite lookup_insert_eq. by eexists.
        + by rewrite lookup_insert_ne. }
    rewrite Hc. repeat split; auto; try done; try lia.
    intros c' Hc'. rewrite Hi. destruct (decide (next s = c')) as [->|?].
    + rewrite lookup_insert_eq. by eexists.
    + by rewrite lookup_insert_ne.
Qed.

(** ** loadClass *)

Ltac step H := rewrite (bind_returns _ _ _ _ _ H); cbv beta.

Lemma grown_refl pc : grown pc pc.
Proof. by repeat split. Qed.

Lemma grown_trans pc1 pc2 pc3 : grown pc1 pc2 → grown pc2 pc3 → grown pc1 pc3.
Proof.
  intros (? & ? & ? & ? & H12) (? & ? & ? & ? & H23).
  repeat split; try congruence. auto.
Qed.

Section LoadClass.
Context `{execute.Collab} `{types.Collab}.

(** [loadClass] returns for every class name, cached or not, present in
    the schema or not.  The instance is the cached one when there is one;
    its six slots hold the types of the bundle; the bundle itself and its
    five operation descriptors sit at addresses handed out by this very
    call. *)
Lemma loadClass_spec className schema s :
  cacheOk s →
  ∃ b s' pc',
    loadClass className schema s = (inr b, s')
    ∧ cacheOk s'
    ∧ cache s' = <[className := Bundle.parseClass b]> (cache s)
    ∧ instances s' !! Bundle.parseClass b = Some pc'
    ∧ bundleOf b pc'
    ∧ (∀ c, cache s !! className = Some c →
            Bundle.parseClass b = c
            ∧ constructed s' = constructed s
            ∧ console s' = console s
            ∧ ∀ pc, instances s !! c = Some pc → grown pc pc')
    ∧ (cache s !! className = None →
       constructed s' = (constructed s ++ [className])%list
       ∧ console s'
         = (console s ++ match schemaGet schema className with
                         | Some _ => []
                         | None => missingClassWarning className
                         end)%list
       ∧ grown (ParseClass.mk className (displayNameOf className) schema
                  (schemaGet schema className) []) pc')
    ∧ allocatedBetween s s' (Bundle.addr b)
    ∧ (∀ d, d ∈ [Bundle.get b; Bundle.find b; Bundle.create b;
                 Bundle.update b; Bundle.destroy b] →
            ∃ a, fd_addr d = Some a ∧ allocatedBetween s s' a).
Proof.
  intros Hok.
  destruct (getOrElse_spec className schema s Hok)
    as (c & s0 & pc0 & Hget & Hok0 & Hpc0 & Hcache0 & Hn0 & Hdom0 & Hhit & Hmiss).
  (* the six memoised types *)
  destruct (memoised_spec objectType c (graphQLConfig c) s0 pc0 Hpc0)
    as (t1 & s1 & pc1 & E1 & X1 & Hpc1 & G1 & S1 & O1).
  { intros _. destruct (graphQLConfig_pure c s0 pc0 Hpc0) as [ty Hty].
    exists ty, s0. auto using extends_refl. }
  destruct (memoised_spec inputObjectType c (graphQLInputConfig c) s1 pc1 Hpc1)
    as (t2 & s2 & pc2 & E2 & X2 & Hpc2 & G2 & S2 & O2).
  { intros _. rewrite (graphQLInputConfig_pure c s1 pc1 Hpc1).
    eexists _, s1. auto using extends_refl. }
  destruct (memoised_spec updateInputObjectType c (graphQLUpdateInputConfig c)
              s2 pc2 Hpc2)
    as (t3 & s3 & pc3 & E3 & X3 & Hpc3 & G3 & S3 & O3).
  { intros _. destruct (graphQLUpdateInputConfig_pure c s2 pc2 Hpc2) as [ty Hty].
    exists ty, s2. auto using extends_refl. }
  destruct (memoised_spec queryInputObjectType c (graphQLQueryConfig c) s3 pc3 Hpc3)
    as (t4 & s4 & pc4 & E4 & X4 & Hpc4 & G4 & S4 & O4).
  { intros _. destruct (graphQLQueryConfig_pure c s3 pc3 Hpc3) as [ty Hty].
    exists ty, s3. auto using extends_refl. }
  assert (ParseClass.slot objectType pc4 = Some t1) as Hobj4.
  { destruct G2 as (_ & _ & _ & _ & G2), G3 as (_ & _ & _ & _ & G3),
      G4 as (_ & _ & _ & _ & G4). auto. }
  destruct (memoised_spec queryResultObjectType c (graphQLQueryResultConfig c)
              s4 pc4 Hpc4)
    as (t5 & s5 & pc5 & E5 & X5 & Hpc5 & G5 & S5 & O5).
  { intros _. by eapply graphQLQueryResultConfig_spec. }
  assert (ParseClass.slot objectType pc5 = Some t1) as Hobj5.
  { destruct G5 as (_ & _ & _ & _ & G5). auto. }
  destruct (memoised_spec mutationResultObjectType c (graphQLMutationResultConfig c)
              s5 pc5 Hpc5)
    as (t6 & s6 & pc6 & E6 & X6 & Hpc6 & G6 & S6 & O6).
  { intros _. by eapply graphQLMutationResultConfig_spec. }
  (* the descriptors and the bundle *)
  destruct (alloc_spec s6) as (s7 & A7 & X7 & N7 & I7 & _).
  destruct (alloc_spec s7) as (s8 & A8 & X8 & N8 & I8 & _).
  destruct (alloc_spec s8) as (s9 & A9 & X9 & N9 & I9 & _).
  destruct (alloc_spec s9) as (s10 & A10 & X10 & N10 & I10 & _).
  assert (instances s10 !! c = Some pc6) as Hpc10 by congruence.
  match type of Hpc10 with _ =>
    destruct (newType_spec
                (mkTypeObj InputObjectType
                   ("Destroy" ++ ParseClass.displayName pc6 ++ "Input") None []
                   (StaticFields
                      [("id", mkFieldDesc None None (Some GraphQLID)
                                (Some "Use either the global id or objectId") [] None);
                       ("objectId", mkFieldDesc None None (Some GraphQLID)
                                (Some "Use either the global id or objectId") [] None);
                       ("clientMutationId", plainField GraphQLString)])
                   None) s10)
      as (s11 & A11 & X11 & N11 & I11 & _) end.
  destruct (alloc_spec s11) as (s12 & A12 & X12 & N12 & I12 & _).
  assert (instances s12 !! c = Some pc6) as Hpc12 by congruence.
  destruct (alloc_spec s12) as (s13 & A13 & X13 & N13 & I13 & _).
  assert (instances s13 !! c = Some pc6) as Hpc13 by congruence.
  eexists _, s13, pc6. split.
  { unfold loadClass. step Hget.
    unfold graphQLObjectType, graphQLInputObjectType, graphQLUpdateInputObjectType,
      graphQLQueryInputObjectType, graphQLQueryResultType, graphQLMutationResultType.
    step E1. step E2. step E3. step E4. step E5. step E6.
    step A7. step A8. step A9. step A10.
    step (self_spec _ _ _ Hpc10). step A11. step A12.
    step (self_spec _ _ _ Hpc12). step A13. reflexivity. }
  assert (extends s0 s13) as X by eauto 20 using extends_trans.
  pose proof (extends_next _ _ X1). pose proof (extends_next _ _ X2).
  pose proof (extends_next _ _ X3). pose proof (extends_next _ _ X4).
  pose proof (extends_next _ _ X5). pose proof (extends_next _ _ X6).
  assert (grown pc0 pc6) as G by eauto 10 using grown_trans.
  simpl. split; [by eapply cacheOk_extends|].
  destruct X as (Xc & Xl & Xk & Xn & Xi).
  split; [congruence|]. split; [done|].
  split.
  { destruct G2 as (_ & _ & _ & _ & G2), G3 as (_ & _ & _ & _ & G3),
      G4 as (_ & _ & _ & _ & G4), G5 as (_ & _ & _ & _ & G5),
      G6 as (_ & _ & _ & _ & G6).
    repeat split; simpl; auto 10. }
  split.
  { intros c' Hc'. destruct (Hhit c' Hc') as [-> ->].
    split; [done|]. split; [done|]. split; [done|].
    intros pc Hpc. congruence. }
  split.
  { intros Hnone. destruct (Hmiss Hnone) as (Hk & Hl & ->).
    split; [congruence|]. split; [congruence|done]. }
  unfold allocatedBetween. split; [lia|].
  intros d Hd. repeat (apply elem_of_cons in Hd as [->|Hd]); simpl;
    try (eexists; split; [reflexivity|lia]).
  by apply elem_of_nil in Hd.
Qed.
End LoadClass.


Section Identity.
Context `{execute.Collab} `{types.Collab}.

End Identity.

(** ** Classes missing from the schema *)

Section Missing.
Context `{execute.Collab} `{types.Collab}.

Lemma buildFields_missing c mapper filterReserved isObject s pc :
  instances s !! c = Some pc →
  ParseClass.class pc = None →
  ∃ s', buildFields c mapper filterReserved isObject s = (inr None, s')
        ∧ console s'
          = (console s
             ++ [Warn ("Attempting to build fields a class ("
                       ++ ParseClass.className pc ++ ") that doesn't exist...");
                 Trace])%list
        ∧ cache s' = cache s
        ∧ instances s' = instances s
        ∧ typeObjects s' = typeObjects s
        ∧ next s' = next s.
Proof.
  intros Hc Hcls. unfold buildFields.
  rewrite (bind_returns _ _ _ _ _ (self_spec _ _ _ Hc)), Hcls.
  eexists. split; [reflexivity|]. simpl. by rewrite <- app_assoc.
Qed.

Lemma queryFieldsOf_total schema classNames :
  ∀ fields s, cacheOk s →
    ∃ out s', queryFieldsOf schema classNames fields s = (inr out, s') ∧ cacheOk s'.
Proof.
  induction classNames as [|className rest IH]; intros fields s Hok; simpl.
  - by exists fields, s.
  - destruct (loadClass_spec className schema s Hok)
      as (b & s1 & pc & E & Hok1 & _).
    rewrite (bind_returns _ _ _ _ _ E). by apply IH.
Qed.

Lemma mutationFieldsOf_total schema classNames :
  ∀ fields s, cacheOk s →
    ∃ out s', mutationFieldsOf schema classNames fields s = (inr out, s')
              ∧ cacheOk s'.
Proof.
  induction classNames as [|className rest IH]; intros fields s Hok; simpl.
  - by exists fields, s.
  - destruct (loadClass_spec className schema s Hok)
      as (b & s1 & pc & E & Hok1 & _).
    rewrite (bind_returns _ _ _ _ _ E). by apply IH.
Qed.

(** The part of the error policy that the code implements.  Building the
    types of a class name that the schema lacks does not raise:
    [loadClass] returns a bundle and the console receives the diagnostic of
    the constructor.  On the instance built, [buildFields]
    returns [undefined] for every mapper after a diagnostic of its own,
    instead of raising.  The pass goes on: the root fields of any further
    class names, and of the whole schema, are assembled. *)
Theorem absent_class_is_contained className schema s :
  schemaGet schema className = None →
  cache s !! className = None →
  cacheOk s →
  ∃ b s1 pc,
    loadClass className schema s = (inr b, s1)
    ∧ console s1 = (console s ++ missingClassWarning className)%list
    ∧ instances s1 !! Bundle.parseClass b = Some pc
    ∧ ParseClass.className pc = className
    ∧ ParseClass.class pc = None
    ∧ (∀ mapper filterReserved isObject,
         ∃ s2, buildFields (Bundle.parseClass b) mapper filterReserved isObject s1
               = (inr None, s2)
               ∧ console s2
                 = (console s1
                    ++ [Warn ("Attempting to build fields a class ("
                              ++ className ++ ") that doesn't exist...");
                        Trace])%list)
    ∧ (∀ others,
         (∃ out s2, queryFieldsOf schema others [] s1 = (inr out, s2))
         ∧ (∃ out s2, mutationFieldsOf schema others [] s1 = (inr out, s2)))
    ∧ (∃ out s2, getParseClassQueryFields schema s1 = (inr out, s2))
    ∧ (∃ out s2, getParseClassMutationFields schema s1 = (inr out, s2)).
Proof.
  intros Habsent Hfirst Hok.
  destruct (loadClass_spec className schema s Hok)
    as (b & s1 & pc & E & Hok1 & _ & Hpc & _ & _ & Hmiss & _).
  destruct (Hmiss Hfirst) as (_ & Hlog & Hcn & _ & _ & Hcls & _).
  rewrite Habsent in Hlog, Hcls. simpl in Hcn, Hcls.
  exists b, s1, pc. repeat split; auto.
  - intros mapper filterReserved isObject.
    destruct (buildFields_missing (Bundle.parseClass b) mapper filterReserved
                isObject s1 pc Hpc Hcls) as (s2 & Hb & Hl & _).
    exists s2. split; [done|]. by rewrite Hl, Hcn.
  - destruct (queryFieldsOf_total schema others [] s1 Hok1) as (out & s2 & ? & _).
    by exists out, s2.
  - destruct (mutationFieldsOf_total schema others [] s1 Hok1) as (out & s2 & ? & _).
    by exists out, s2.
  - destruct (queryFieldsOf_total schema (__classNames schema) [] s1 Hok1)
      as (out & s2 & ? & _). by exists out, s2.
  - destruct (mutationFieldsOf_total schema (__classNames schema) [] s1 Hok1)
      as (out & s2 & ? & _). by exists out, s2.
Qed.

(** C9 fails on the code.  For an instance whose class the schema lacks,
    [buildFields] returns [undefined], and the [fields] thunks of the
    add-input, update-input and query types assign to or delete from that
    result without a test: forcing any of them raises a [TypeError] instead
    of yielding a degenerate or empty field set.  Only the thunk of the
    object type passes the [undefined] on. *)
Theorem absent_class_thunks_raise c s pc :
  instances s !! c = Some pc →
  ParseClass.class pc = None →
  (∃ ty, graphQLInputConfig c s = (inr ty, s)
         ∧ (forceFields (ty_fields ty) s).1 = inl TypeError)
  ∧ (∃ ty, graphQLUpdateInputConfig c s = (inr ty, s)
           ∧ (forceFields (ty_fields ty) s).1 = inl TypeError)
  ∧ (∃ ty, graphQLQueryConfig c s = (inr ty, s)
           ∧ (forceFields (ty_fields ty) s).1 = inl TypeError)
  ∧ (∃ ty, graphQLConfig c s = (inr ty, s)
           ∧ (forceFields (ty_fields ty) s).1 = inr None).
Proof.
  intros Hc Hcls.
  destruct (buildFields_missing c graphQLQueryField false false s pc Hc Hcls)
    as (s1 & E1 & _).
  destruct (buildFields_missing c inputMapper true false s pc Hc Hcls)
    as (s2 & E2 & _).
  destruct (buildFields_missing c graphQLField false true s pc Hc Hcls)
    as (s3 & E3 & _).
  unfold graphQLInputConfig, graphQLUpdateInputConfig, graphQLQueryConfig,
    graphQLConfig.
  rewrite !(bind_returns _ _ _ _ _ (self_spec _ _ _ Hc)).
  repeat split; eexists; (split; [reflexivity|]); cbn [ty_fields forceFields].
  - by rewrite (bind_returns _ _ _ _ _ E2).
  - by rewrite (bind_returns _ _ _ _ _ E2).
  - by rewrite (bind_returns _ _ _ _ _ E1).
  - by rewrite E3.
Qed.
End Missing.

(** ** The field mappers *)

Section Mappers.
Context `{execute.Collab} `{types.Collab}.

Lemma handleIdField_reserved fieldName :
  fieldName = "id" ∨ fieldName = "objectId" →
  handleIdField fieldName = Some (GraphQLNonNull GraphQLID).
Proof. by intros [-> | ->]. Qed.

(** C4, as the code has it.  A field named [id] or [objectId] is mapped to
    the non-null [GraphQLID] by the input mapper whatever its declared
    kind, by the output mapper for every kind but Relation and Pointer,
    and by the filter mapper for every kind but Pointer. *)
Theorem reserved_id_field_type fieldName field schema s :
  fieldName = "id" ∨ fieldName = "objectId" →
  (∃ d, graphQLInputField fieldName field = Some d
        ∧ fd_type d = Some (GraphQLNonNull GraphQLID))
  ∧ (field_type field ≠ "Relation" → field_type field ≠ "Pointer" →
     ∃ d, graphQLField fieldName field schema s = (inr (Some d), s)
          ∧ fd_type d = Some (GraphQLNonNull GraphQLID))
  ∧ (field_type field ≠ "Pointer" →
     ∃ d, graphQLQueryField fieldName field schema s = (inr (Some d), s)
          ∧ fd_type d = Some (GraphQLNonNull GraphQLID)).
Proof.
  intros Hname. pose proof (handleIdField_reserved _ Hname) as Hid.
  split; [|split].
  - unfold graphQLInputField. rewrite Hid. simpl. by eexists.
  - intros Hrel Hptr. unfold graphQLField.
    rewrite (decide_False (P := field_type field = "Relation")) by done.
    rewrite (decide_False (P := field_type field = "Pointer")) by done.
    rewrite Hid. simpl. by eexists.
  - intros Hptr. unfold graphQLQueryField. rewrite Hid. simpl.
    rewrite (decide_False (P := field_type field = "Pointer")) by done.
    by eexists.
Qed.
End Mappers.

(** ** The add-input type *)

Section AddInput.
Context `{execute.Collab} `{types.Collab}.

(** What the reduce of [buildFields] leaves under a name, for the input
    mapper with the reserved names filtered out. *)
Lemma reduceFields_input schema fs :
  NoDup (Obj.keys fs) →
  ∀ memo s,
    ∃ out,
      reduceFields inputMapper true schema fs memo s = (inr out, s)
      ∧ ∀ name,
          Obj.get name out
          = match (if bool_decide (name ∈ reservedFieldNames) then None
                   else field ← Obj.get name fs; graphQLInputField name field) with
            | Some d => Some d
            | None => Obj.get name memo
            end.
Proof.
  unfold Obj.keys. induction fs as [|[k f] fs IH]; intros Hnd memo s.
  - exists memo. split; [done|]. intros name. simpl. by case_bool_decide.
  - apply NoDup_cons in Hnd as [Hk Hnd].
    pose proof (ObjFacts.get_None k fs Hk) as Hkfs.
    cbn [reduceFields andb].
    destruct (bool_decide (k ∈ reservedFieldNames)) eqn:Hres.
    + destruct (IH Hnd memo s) as (out & -> & Hout).
      exists out. split; [done|]. intros name. rewrite Hout. simpl.
      destruct (decide (name = k)) as [->|Hne]; [|done].
      by rewrite Hres.
    + assert (inputMapper k f schema s = (inr (graphQLInputField k f), s)) as Hmapper
        by done.
      rewrite (bind_returns _ _ _ _ _ Hmapper).
      destruct (graphQLInputField k f) as [d|] eqn:Hmap.
      * destruct (IH Hnd (Obj.set k d memo) s) as (out & -> & Hout).
        exists out. split; [done|]. intros name. rewrite Hout. simpl.
        destruct (decide (name = k)) as [->|Hne].
        -- rewrite Hres, Hkfs. simpl. by rewrite Hmap, ObjFacts.get_set_eq.
        -- by rewrite ObjFacts.get_set_ne.
      * destruct (IH Hnd memo s) as (out & -> & Hout).
        exists out. split; [done|]. intros name. rewrite Hout. simpl.
        destruct (decide (name = k)) as [->|Hne]; [|done].
        rewrite Hres, Hkfs. simpl. by rewrite Hmap.
Qed.

(** C8, as the code has it.  For a class of the schema, the fields of
    the add-input type are the [clientMutationId] field, the class fields
    that are not reserved and that the input mapper does not omit, each as
    mapped, and for the class [_User] the [sessionToken] field that
    [buildFields] seeds in every mapping context; nothing else. *)
Theorem add_input_fields c s pc class :
  instances s !! c = Some pc →
  ParseClass.class pc = Some (AClass class) →
  NoDup (Obj.keys (fields class)) →
  ∃ ty fs,
    graphQLInputConfig c s = (inr ty, s)
    ∧ ty_name ty = "Add" ++ ParseClass.displayName pc ++ "Input"
    ∧ forceFields (ty_fields ty) s = (inr (Some fs), s)
    ∧ ∀ name, Obj.get name fs = addInputField (ParseClass.className pc) class name.
Proof.
  intros Hc Hcls Hnd. rewrite (graphQLInputConfig_pure c s pc Hc).
  set (seed := if decide (ParseClass.className pc = "_User")
               then Obj.set "sessionToken" sessionTokenField []
               else ([] : Fields)).
  destruct (reduceFields_input (ParseClass.schema pc) (fields class) Hnd seed s)
    as (out & Hred & Hout).
  eexists _, (Obj.set "clientMutationId" (plainField GraphQLString) out).
  split; [done|]. split; [done|]. split.
  { assert (buildFields c inputMapper true false s = (inr (Some out), s)) as Hbuild.
    { unfold buildFields.
      rewrite (bind_returns _ _ _ _ _ (self_spec _ _ _ Hc)), Hcls.
      cbn [Obj.set fieldsOf]. fold seed. by rewrite (bind_returns _ _ _ _ _ Hred). }
    cbn [ty_fields forceFields]. by rewrite (bind_returns _ _ _ _ _ Hbuild). }
  intros name. unfold addInputField.
  destruct (decide (name = "clientMutationId")) as [->|Hne].
  - by rewrite ObjFacts.get_set_eq.
  - rewrite ObjFacts.get_set_ne by done. rewrite Hout.
    destruct (if bool_decide (name ∈ reservedFieldNames) then None else _);
      [done|].
    unfold seed. destruct (decide (ParseClass.className pc = "_User")); [|done].
    simpl. by destruct (decide (name = "sessionToken")).
Qed.
End AddInput.


(** * Examples *)

(** ** Where the code departs from the specification *)


(** C4 as stated fails: a Pointer field named [id] gets the object type of
    its target class in the output context and the query type in the filter
    context, and a Relation field named [objectId] gets the connection type
    in the output context. *)
Lemma pointer_named_id_keeps_its_class_type :
  Demo.mappedType (graphQLField "id" (mkField "Pointer" "Post") Demo.schema initial)
    = Some (TypeRef 1)
  ∧ Demo.mappedType
      (graphQLQueryField "id" (mkField "Pointer" "Post") Demo.schema initial)
    = Some (TypeRef 4)
  ∧ Demo.mappedType
      (graphQLField "objectId" (mkField "Relation" "Comment") Demo.schema initial)
    = Some (TypeRef 6)
  ∧ Some (TypeRef 1) ≠ Some (GraphQLNonNull GraphQLID).
Proof. vm_compute. by repeat split. Qed.

(** C8 as stated fails: the add-input type of [_User], a class whose only
    field is [username], also has the [sessionToken] field. *)
Lemma user_add_input_has_sessionToken :
  Demo.addInputFieldNames "_User" = Some ["sessionToken"; "username"; "clientMutationId"]
  ∧ (fields <$> classes Demo.schema !! "_User")
    = Some [("username", mkField "String" "")].
Proof. vm_compute. by split. Qed.

(** C10 as stated fails: with both properties present and an empty
    [objectId], the object is addressed by the decoded [id], the [id]
    property is the one deleted, and the [objectId] property is what
    [rest.update] receives; with both empty the resolver raises. *)
Lemma empty_objectId_falls_back_to_id :
  hasKey Demo.emptyObjectId "id" = true
  ∧ hasKey Demo.emptyObjectId "objectId" = true
  ∧ getObjectId Demo.emptyObjectId = inr (VStr "p1", Demo.emptyObjectIdLeft)
  ∧ (run Demo.backend
       (update_resolve "Post" Demo.schema VUndef (Demo.inputOf Demo.emptyObjectId)
          Demo.context VUndef) Demo.world).1.2
    = [RestUpdate (Context.config Demo.context) (Context.auth Demo.context) "Post"
         (VObj [("objectId", VStr "p1")]) Demo.emptyObjectIdLeft;
       RunGet Demo.context VUndef "Post" (VStr "p1") None]
  ∧ getObjectId (VObj [("id", VStr ""); ("objectId", VStr "")])
    = inl MissingIdentifier.
Proof. vm_compute. by repeat split. Qed.

(** ** The statements at concrete inputs *)

(** C2 on an update and a destroy of a [Post] whose input has a title only. *)
Lemma missing_identifier_witness :
  run Demo.backend
    (update_resolve "Post" Demo.schema VUndef
       (Demo.inputOf (VObj [("title", VStr "t")])) Demo.context VUndef) Demo.world
    = (inl MissingIdentifier, [], Demo.world)
  ∧ run Demo.backend
      (destroy_resolve "Post" VUndef
         (Demo.inputOf (VObj [("title", VStr "t")])) Demo.context VUndef) Demo.world
    = (inl MissingIdentifier, [], Demo.world).
Proof.
  apply (missing_identifier_without_storage_call Demo.backend "Post" Demo.schema
           VUndef (Demo.inputOf (VObj [("title", VStr "t")])) Demo.context VUndef
           [("title", VStr "t")] Demo.world); reflexivity.
Defined.

(** C5 on the destroy of the stored post [p1], addressed by its global id. *)
Lemma destroy_witness :
  run Demo.backend
    (destroy_resolve "Post" VUndef
       (Demo.inputOf (VObj [("id", VStr "Post:p1"); ("clientMutationId", VStr "m-1")]))
       Demo.context VUndef) Demo.world
  = (inr (VObj [("object", (Demo.post "p1" "first").2);
                ("clientMutationId", VStr "m-1")]),
     [RunGet Demo.context VUndef "Post" (VStr "p1") None;
      RestDel (Context.config Demo.context) (Context.auth Demo.context) "Post"
        (VStr "p1")],
     [Demo.post "p2" "second"]).
Proof.
  exact (destroy_fetches_before_deleting Demo.backend "Post" VUndef
           (Demo.inputOf (VObj [("id", VStr "Post:p1");
                                ("clientMutationId", VStr "m-1")]))
           Demo.context VUndef
           [("id", VStr "Post:p1"); ("clientMutationId", VStr "m-1")]
           (VStr "p1") Demo.world eq_refl eq_refl).
Defined.

(** C6 on the creation of a user: the token is stripped, the session of
    the new user adopted, the user fetched and returned with the token. *)
Lemma create_witness :
  run Demo.backend
    (create_resolve "_User" Demo.schema VUndef (Demo.inputOf (VObj Cases.newUser))
       Demo.context VUndef) Demo.world
  = (inr (VObj [("object", VObj [("username", VStr "u"); ("objectId", VStr "fresh")]);
                ("clientMutationId", VStr "m-1")]),
     [RestCreate (Context.config Demo.context) (Context.auth Demo.context) "_User"
        (VObj [("username", VStr "u")]);
      GetAuthForSessionToken
        (VObj [("config", Context.config Demo.context);
               ("installationId", VStr "i-1");
               ("sessionToken", VStr "r:token")]);
      RunGet (Context.mk (VObj [("sessionToken", VStr "r:token")])
                (Context.config Demo.context) VUndef) VUndef "_User" (VStr "fresh") None],
     (Demo.world
      ++ [("fresh", VObj [("username", VStr "u"); ("objectId", VStr "fresh")])])%list).
Proof.
  destruct (create_strips_token_and_refetches Demo.backend "_User" Demo.schema VUndef
              (Demo.inputOf (VObj Cases.newUser)) Demo.context VUndef
              (VObj Cases.newUser) (VObj Cases.newUser) Demo.world
              eq_refl eq_refl eq_refl)
    as (forwarded & Hdel & _ & Hrun).
  injection Hdel as <-. exact Hrun.
Defined.

(** C10 on an update of a post whose input has both identifiers set. *)
Lemma update_both_witness :
  getObjectId (VObj Demo.bothIds) = inr (VStr "p2", VObj (Obj.del "objectId" Demo.bothIds))
  ∧ Obj.get "id" (Obj.del "objectId" Demo.bothIds) = Some (VStr "Post:p1")
  ∧ ∃ forwarded out rest w',
      hasKey forwarded "id" = true
      ∧ run Demo.backend
          (update_resolve "Post" Demo.schema VUndef (Demo.inputOf (VObj Demo.bothIds))
             Demo.context VUndef) Demo.world
        = (out,
           RestUpdate (Context.config Demo.context) (Context.auth Demo.context)
             "Post" (VObj [("objectId", VStr "p2")]) forwarded :: rest,
           w').
Proof.
  destruct (update_with_both_identifiers Demo.backend "Post" Demo.schema VUndef
              (Demo.inputOf (VObj Demo.bothIds)) Demo.context VUndef Demo.bothIds
              (VStr "Post:p1") (VStr "p2") Demo.world
              eq_refl eq_refl eq_refl eq_refl)
    as (Hget & Hid & _ & Hupdate).
  destruct (Hupdate (VObj [("id", VStr "Post:p1"); ("title", VStr "t");
                           ("clientMutationId", VStr "m-1")]) eq_refl)
    as (forwarded & _ & Hkept & _ & out & rest & w' & Hrun).
  split; [exact Hget|]. split; [exact Hid|].
  exists forwarded, out, rest, w'. exact (conj Hkept Hrun).
Defined.

(** The stored objects of the crowded example are objects. *)
Lemma crowded_objects : Forall (λ r, isObject r = true) Demo.crowded.*2.
Proof.
  unfold Demo.crowded. rewrite <- list_fmap_compose.
  apply Forall_fmap, Forall_true. by intros n.
Qed.

(** C3 on a store of 130 posts and a requested page of 500: the find, and
    the comments of a post, each issue their one call and return 100 of the
    130 results. *)
Lemma page_size_witness :
  (∃ found,
     Demo.crowdedFind
       = (inr found,
          [RunFind Demo.context VUndef (VStr "Post") Demo.pageOf500 None],
          Demo.crowded)
     ∧ sublist (nodes found) Demo.crowded.*2
     ∧ length (nodes found) = 100)
  ∧ ∃ related finding,
      Demo.crowdedRelation = (inr related, [finding], Demo.crowded)
      ∧ sublist (nodes related) (withGlobalId <$> Demo.crowded.*2)
      ∧ length (nodes related) = 100.
Proof.
  pose proof (page_size_capped Demo.backend "Post" "comments" VUndef
                (Demo.post "p1" "first").2 Demo.pageOf500 Demo.context VUndef
                Demo.crowded) as (Hfind & Hrel & _).
  split.
  - cbv beta iota zeta delta [Demo.backend] in Hfind.
    destruct Hfind as (found & Hrun & _ & Hsub & Hlen & _).
    exists found. exact (conj Hrun (conj Hsub Hlen)).
  - specialize (Hrel eq_refl _ eq_refl).
    cbv beta iota zeta delta [Demo.backend] in Hrel.
    destruct (Hrel crowded_objects) as (related & Hrun & _ & Hsub & Hlen & _).
    exists related. eexists. exact (conj Hrun (conj Hsub Hlen)).
Defined.

(** C7 on the comments of the stored post [p1]. *)
Lemma relation_witness :
  (run Demo.backend
     (relation_resolve "comments" (Demo.post "p1" "first").2 (VObj []) Demo.context
        VUndef) Demo.world).1.1
  = inr (connectionResultsArray (withGlobalId <$> Demo.world.*2)
           (VObj [("redirectClassNameForKey", VStr "comments")]) 100).
Proof.
  pose proof (relation_resolver_finds_related Demo.backend "comments"
                (Demo.post "p1" "first").2 (VObj []) Demo.context VUndef Demo.world
                _ [] eq_refl eq_refl) as [_ Hrun].
  cbv beta zeta iota delta [Demo.backend] in Hrun.
  destruct Hrun as [Hrun _]; [by repeat constructor|].
  exact (f_equal (λ r, r.1.1) Hrun).
Defined.


(** The class name [Ghost], which the example schema lists among its class
    names and does not define: the pass itself goes through. *)
Lemma absent_class_example :
  ∃ b s1,
    loadClass "Ghost" Demo.schema initial = (inr b, s1)
    ∧ console s1 = missingClassWarning "Ghost"
    ∧ ∃ out s2, getParseClassQueryFields Demo.schema s1 = (inr out, s2).
Proof.
  destruct (absent_class_is_contained "Ghost" Demo.schema initial
              eq_refl eq_refl cacheOk_initial)
    as (b & s1 & pc & E & Hlog & _ & _ & _ & _ & _ & Hquery & _).
  exists b, s1. exact (conj E (conj Hlog Hquery)).
Qed.

(** C9 on the instance of [Ghost]. *)
Lemma absent_class_thunks_witness :
  ∃ ty, graphQLInputConfig 0 Demo.ghostOnly = (inr ty, Demo.ghostOnly)
        ∧ (forceFields (ty_fields ty) Demo.ghostOnly).1 = inl TypeError.
Proof.
  destruct (absent_class_thunks_raise 0 Demo.ghostOnly
              (ParseClass.mk "Ghost" "Ghost" Demo.schema None []) eq_refl eq_refl)
    as ((ty & Hty & Hraise) & _).
  exists ty. exact (conj Hty Hraise).
Defined.

(** The same through [loadClass]: the add-input, update-input and query
    types of the bundle of [Ghost] raise when asked for their fields. *)
Lemma ghost_input_types_raise :
  Demo.fieldsOfGhost Bundle.inputType = Some (inl TypeError)
  ∧ Demo.fieldsOfGhost Bundle.updateType = Some (inl TypeError)
  ∧ Demo.fieldsOfGhost Bundle.queryType = Some (inl TypeError)
  ∧ Demo.fieldsOfGhost Bundle.objectType = Some (inr None).
Proof. vm_compute. by repeat split. Qed.

(** C4 on a String field named [id]. *)
Lemma reserved_id_witness :
  ∃ d, graphQLField "id" (mkField "String" "") Demo.schema initial
       = (inr (Some d), initial)
       ∧ fd_type d = Some (GraphQLNonNull GraphQLID).
Proof.
  destruct (reserved_id_field_type "id" (mkField "String" "") Demo.schema initial
              (or_introl eq_refl)) as (_ & Hout & _).
  apply Hout; discriminate.
Defined.

(** C8 on the instance of [_User]. *)
Lemma add_input_witness :
  ∃ ty fs,
    graphQLInputConfig 0 Demo.userOnly = (inr ty, Demo.userOnly)
    ∧ ty_name ty = "AddUserInput"
    ∧ forceFields (ty_fields ty) Demo.userOnly = (inr (Some fs), Demo.userOnly)
    ∧ Obj.get "sessionToken" fs = Some sessionTokenField
    ∧ Obj.get "clientMutationId" fs = Some (plainField GraphQLString)
    ∧ Obj.get "objectId" fs = None
    ∧ Obj.get "friends" fs = None.
Proof.
  destruct (add_input_fields 0 Demo.userOnly
              (ParseClass.mk "_User" "User" Demo.schema
                 (Some (AClass (mkClass [("username", mkField "String" "");
                                         ("objectId", mkField "String" "");
                                         ("friends", mkField "Relation" "_User")])))
                 [])
              (mkClass [("username", mkField "String" "");
                        ("objectId", mkField "String" "");
                        ("friends", mkField "Relation" "_User")])
              eq_refl eq_refl)
    as (ty & fs & Hty & Hname & Hforce & Hall).
  { unfold Obj.keys. simpl.
    repeat (apply NoDup_cons; split;
            [rewrite ?elem_of_cons, elem_of_nil; intuition discriminate|]).
    apply NoDup_nil_2. }
  exists ty, fs.
  exact (conj Hty (conj Hname (conj Hforce
           (conj (Hall "sessionToken") (conj (Hall "clientMutationId")
              (conj (Hall "objectId") (Hall "friends"))))))).
Defined.


(** * Further properties *)

(** ** Identifiers *)

Section Identifiers.
Context `{execute.Collab} {W : Type}.
Variable backend : ∀ c : Call, W → (Err + Resp c) * W.

(** X1.  An identifier that is present but falsy counts as missing: when
    the [id] and the [objectId] of the input are each absent, [null],
    [false], [0] or the empty string, [update] and [destroy] raise the
    missing-identifier error and call nothing. *)
Theorem falsy_identifiers_are_missing
    className schema root args context info input idValue objectId (w : W) :
  member args "input" = inr input →
  member input "id" = inr idValue →
  member input "objectId" = inr objectId →
  truthy idValue = false →
  truthy objectId = false →
  getObjectId input = inl MissingIdentifier
  ∧ run backend (update_resolve className schema root args context info) w
    = (inl MissingIdentifier, [], w)
  ∧ run backend (destroy_resolve className root args context info) w
    = (inl MissingIdentifier, [], w).
Proof.
  intros Hin Hid Hoid Hfid Hfoid.
  assert (getObjectId input = inl MissingIdentifier) as Hget.
  { unfold getObjectId. rewrite Hid, Hoid. simpl. by rewrite Hfid, Hfoid. }
  split; [done|].
  unfold update_resolve, destroy_resolve. rewrite Hin. simpl. by rewrite Hget.
Qed.

(** The branch of [getObjectId] that decodes the [id]. *)
Lemma getObjectId_by_id o idValue :
  Obj.get "id" o = Some idValue →
  truthy idValue = true →
  truthy (prop (VObj o) "objectId") = false →
  getObjectId (VObj o)
  = match execute.parseID idValue with
    | inl e => inl e
    | inr parsed =>
        match member parsed "objectId" with
        | inl e => inl e
        | inr objectId => inr (objectId, VObj (Obj.del "id" o))
        end
    end.
Proof.
  intros Hid Htid Hfoid.
  unfold getObjectId. simpl in *. rewrite Hid. simpl. rewrite Htid, Hfoid. simpl.
  destruct (execute.parseID idValue) as [e|parsed]; [done|]. simpl.
  by destruct (member parsed "objectId").
Qed.

(** X2.  With a falsy [objectId] and a truthy [id], [getObjectId] decodes
    the [id]: it returns the [objectId] of what [parseID] yields and deletes
    the [id] property, leaving every other property, a falsy [objectId]
    included, in place; when [parseID] raises, so does [getObjectId]. *)
Theorem getObjectId_decodes_id o idValue :
  Obj.get "id" o = Some idValue →
  truthy idValue = true →
  truthy (prop (VObj o) "objectId") = false →
  getObjectId (VObj o)
  = match execute.parseID idValue with
    | inl e => inl e
    | inr parsed =>
        match member parsed "objectId" with
        | inl e => inl e
        | inr objectId => inr (objectId, VObj (Obj.del "id" o))
        end
    end
  ∧ ∀ k, k ≠ "id" → Obj.get k (Obj.del "id" o) = Obj.get k o.
Proof.
  intros Hid Htid Hfoid. split.
  - by apply getObjectId_by_id.
  - intros k Hk. by apply ObjFacts.get_del_ne.
Qed.

(** X3.  An [id] that [parseID] refuses stops [update] and [destroy] with
    the error of [parseID] before anything is called. *)
Theorem undecodable_id_makes_no_call
    className schema root args context info o idValue e (w : W) :
  member args "input" = inr (VObj o) →
  Obj.get "id" o = Some idValue →
  truthy idValue = true →
  truthy (prop (VObj o) "objectId") = false →
  execute.parseID idValue = inl e →
  run backend (update_resolve className schema root args context info) w
    = (inl e, [], w)
  ∧ run backend (destroy_resolve className root args context info) w
    = (inl e, [], w).
Proof.
  intros Hin Hid Htid Hfoid Hparse.
  pose proof (getObjectId_by_id o idValue Hid Htid Hfoid) as Hget.
  rewrite Hparse in Hget.
  unfold update_resolve, destroy_resolve. rewrite Hin. simpl. by rewrite Hget.
Qed.
End Identifiers.

(** ** Normalising an input, continued *)

Lemma set_set_same {A : Type} k (v : A) o : Obj.set k v (Obj.set k v o) = Obj.set k v o.
Proof.
  induction o as [|[k' v'] o IH]; simpl.
  - by rewrite decide_True.
  - destruct (decide (k = k')) as [->|Hne]; simpl.
    + by rewrite decide_True.
    + by rewrite decide_False, IH.
Qed.

Lemma transformProps_keys fs o o' :
  transformProps fs o = inr o' → Obj.keys o' = Obj.keys o.
Proof.
  unfold Obj.keys. revert o'. induction o as [|[k v] o IH]; intros o' Ho; simpl in *.
  - by inversion Ho.
  - destruct (transformValue fs k v) as [e|v']; simpl in Ho; [done|].
    destruct (transformProps fs o) as [e|o'']; simpl in Ho; [done|].
    inversion Ho; subst. simpl. f_equal. by apply IH.
Qed.

(** What [transformInput] does to the value under one key. *)
Lemma transformProps_value fs o o' k v :
  transformProps fs o = inr o' →
  Obj.get k o = Some v →
  ∃ v', transformValue fs k v = inr v' ∧ Obj.get k o' = Some v'.
Proof.
  revert o'. induction o as [|[k' v0] o IH]; intros o' Ho Hk; simpl in *; [done|].
  destruct (transformValue fs k' v0) as [e|v0'] eqn:Hv; simpl in Ho; [done|].
  destruct (transformProps fs o) as [e|o''] eqn:Hrest; simpl in Ho; [done|].
  inversion Ho; subst o'; clear Ho. simpl.
  destruct (decide (k = k')) as [->|Hne].
  - inversion Hk; subst. by exists v0'.
  - by apply IH.
Qed.

(** X4.  [transformInput] keeps the keys of the input in their order.  The
    object under a Pointer field receives [__type = 'Pointer'], the object
    under a GeoPoint field [__type = 'GeoPoint'], and their other properties
    stay; the value under any other key is returned as it came. *)
Theorem transformInput_tags class o input1 :
  transformInput (VObj o) (Some (AClass class)) = inr input1 →
  ∃ o', input1 = VObj o'
    ∧ Obj.keys o' = Obj.keys o
    ∧ ∀ k v, Obj.get k o = Some v →
        match Obj.get k (fields class) with
        | Some f =>
            if decide (field_type f = "Pointer") then
              ∃ p, v = VObj p
                   ∧ Obj.get k o' = Some (VObj (Obj.set "__type" (VStr "Pointer") p))
            else if decide (field_type f = "GeoPoint") then
              ∃ p, v = VObj p
                   ∧ Obj.get k o' = Some (VObj (Obj.set "__type" (VStr "GeoPoint") p))
            else Obj.get k o' = Some v
        | None => Obj.get k o' = Some v
        end.
Proof.
  unfold transformInput. cbn [fieldsOf transformKeys].
  destruct (transformProps (fields class) o) as [e|o'] eqn:Ho; simpl; [done|].
  intros [= <-]. exists o'. split; [done|]. split; [by eapply transformProps_keys|].
  intros k v Hk.
  destruct (transformProps_value _ _ _ k v Ho Hk) as (v' & Hv & Hget).
  unfold transformValue in Hv.
  destruct (Obj.get k (fields class)) as [f|]; [|congruence].
  repeat case_decide; try congruence;
    (destruct v as [| | | | |p]; try done; exists p; simpl in Hv; split; congruence).
Qed.

Lemma transformProps_errors fs o : ∀ e, transformProps fs o = inl e → e = TypeError.
Proof.
  induction o as [|[k v] o IH]; intros e He; simpl in *; [done|].
  destruct (transformValue fs k v) as [e'|v'] eqn:Hv; simpl in He.
  - inversion He; subst. unfold transformValue in Hv.
    destruct (Obj.get k fs) as [f|]; [|done].
    repeat case_decide; try done; destruct v; simpl in Hv; congruence.
  - destruct (transformProps fs o) as [e'|o'']; simpl in He; [|done].
    inversion He; subst. by apply IH.
Qed.

Lemma transformProps_untaggable fs o k v :
  Obj.get k o = Some v → untaggable fs k v → transformProps fs o = inl TypeError.
Proof.
  intros Hk (Hprim & f & Hf & Hkind).
  destruct (transformProps fs o) as [e|o'] eqn:Ho.
  - f_equal. by eapply transformProps_errors.
  - destruct (transformProps_value _ _ _ k v Ho Hk) as (v' & Hv & _).
    unfold transformValue in Hv. rewrite Hf in Hv.
    destruct Hkind as [Hp | Hg].
    + rewrite decide_True in Hv by done. by destruct v.
    + case_decide; [by destruct v|]. rewrite decide_True in Hv by done. by destruct v.
Qed.

Section Normalising.
Context `{execute.Collab} {W : Type}.
Variable backend : ∀ c : Call, W → (Err + Resp c) * W.

(** X5.  A value that is not an object ([null], a string, a number) under
    a Pointer or GeoPoint field makes [transformInput] raise a [TypeError],
    the assignment of [__type] being strict; [create] then calls nothing. *)
Theorem untaggable_value_stops_create
    className schema class root args context info o k v (w : W) :
  member args "input" = inr (VObj o) →
  schemaGet schema className = Some (AClass class) →
  Obj.get k o = Some v →
  untaggable (fields class) k v →
  transformInput (VObj o) (Some (AClass class)) = inl TypeError
  ∧ run backend (create_resolve className schema root args context info) w
    = (inl TypeError, [], w).
Proof.
  intros Hin Hcls Hk Hbad.
  assert (transformInput (VObj o) (Some (AClass class)) = inl TypeError) as Htr.
  { unfold transformInput. cbn [fieldsOf transformKeys].
    by rewrite (transformProps_untaggable _ _ _ _ Hk Hbad). }
  split; [done|].
  unfold create_resolve. rewrite Hin. simpl. by rewrite Hcls, Htr.
Qed.

(** X6.  For a class name under which the schema object has nothing, its
    prototype included, so that [schema[className]] is [undefined], [create]
    raises a [TypeError] before anything is called, and so does [update]
    once the identifier is resolved, since both destructure
    [schema[className]]; [destroy] does not look at the schema and goes on
    to fetch. *)
Theorem absent_class_stops_create_and_update
    className schema root args context info o objectId (w : W) :
  schemaGet schema className = None →
  member args "input" = inr (VObj o) →
  identifierOf (VObj o) = Some objectId →
  run backend (create_resolve className schema root args context info) w
    = (inl TypeError, [], w)
  ∧ run backend (update_resolve className schema root args context info) w
    = (inl TypeError, [], w)
  ∧ ∃ out rest w',
      run backend (destroy_resolve className root args context info) w
      = (out, RunGet context info className objectId None :: rest, w').
Proof.
  intros Hcls Hin Hid.
  destruct (getObjectId_identifierOf o objectId Hid) as (k & Hk & Hget).
  split; [|split].
  - unfold create_resolve. rewrite Hin. simpl. by rewrite Hcls.
  - unfold update_resolve. rewrite Hin. simpl. rewrite Hget. simpl. by rewrite Hcls.
  - unfold destroy_resolve. rewrite Hin. simpl. rewrite Hget. simpl.
    match goal with |- context [backend ?c w] => set (fetch := c) end.
    destruct (backend fetch w) as [[e|object] w1]; [by do 3 eexists|].
    simpl.
    match goal with |- context [backend ?c w1] => set (remove := c) end.
    destruct (backend remove w1) as [[e|r] w2]; by do 3 eexists.
Qed.

(** X27.  A class name under which the schema object holds something that
    is no class, such as the inherited [constructor] or [toString] or its
    own [__classNames], passes the destructuring with [fields] undefined.
    [create] and [update] then raise a [TypeError] before anything is called
    only when the input has a key to visit; when none is left, [create]
    hands the empty input to [rest.create] and [update] hands it to
    [rest.update], under that class name. *)
Theorem class_name_of_no_class_reaches_storage
    className schema root args context info o (w : W) :
  schemaGet schema className = Some NotAClass →
  member args "input" = inr (VObj o) →
  (o ≠ [] →
   run backend (create_resolve className schema root args context info) w
     = (inl TypeError, [], w))
  ∧ (o = [] →
     ∃ out rest w',
       run backend (create_resolve className schema root args context info) w
         = (out,
            RestCreate (Context.config context) (Context.auth context) className
              (VObj []) :: rest, w'))
  ∧ ∀ objectId left,
      getObjectId (VObj o) = inr (objectId, VObj left) →
      (left ≠ [] →
       run backend (update_resolve className schema root args context info) w
         = (inl TypeError, [], w))
      ∧ (left = [] →
         ∃ out rest w',
           run backend (update_resolve className schema root args context info) w
             = (out,
                RestUpdate (Context.config context) (Context.auth context)
                  className (VObj [("objectId", objectId)]) (VObj []) :: rest,
                w')).
Proof.
  intros Hcls Hin. split; [|split].
  - intros Hkeys. unfold create_resolve. rewrite Hin. simpl. rewrite Hcls.
    by destruct o.
  - intros ->. unfold create_resolve. rewrite Hin. simpl. rewrite Hcls. simpl.
    match goal with |- context [backend ?c w] => set (creation := c) end.
    destruct (backend creation w) as [[e|res] w1]; [by do 3 eexists|]. simpl.
    match goal with |- context [run backend ?p w1] =>
      destruct (run backend p w1) as [[out calls] w'] end.
    by do 3 eexists.
  - intros objectId left Hget. split.
    + intros Hkeys. unfold update_resolve. rewrite Hin. simpl. rewrite Hget. simpl.
      rewrite Hcls. by destruct left.
    + intros ->. unfold update_resolve. rewrite Hin. simpl. rewrite Hget. simpl.
      rewrite Hcls. simpl.
      match goal with |- context [backend ?c w] => set (updating := c) end.
      destruct (backend updating w) as [[e|r] w1]; [by do 3 eexists|]. simpl.
      match goal with |- context [backend ?c w1] => set (fetch := c) end.
      destruct (backend fetch w1) as [[e|object] w2]; by do 3 eexists.
Qed.
End Normalising.

(** X7.  Normalising twice is normalising once: [transformInput] leaves an
    input that it has already tagged as it is. *)
Theorem transformInput_idempotent input class input1 :
  transformInput input (Some (AClass class)) = inr input1 →
  transformInput input1 (Some (AClass class)) = inr input1.
Proof.
  intros Htr.
  destruct (transformInput_inv _ _ _ Htr)
    as [[_ ->]|(o & o' & fs & -> & -> & Ho & Hfs)]; [done|].
  rewrite (Hfs class eq_refl) in Ho. clear Htr Hfs.
  unfold transformInput. cbn [fieldsOf transformKeys].
  assert (transformProps (fields class) o' = inr o') as ->; [|done].
  revert o' Ho. induction o as [|[k v] o IH]; intros o' Ho; simpl in *.
  - by inversion Ho.
  - destruct (transformValue (fields class) k v) as [e|v'] eqn:Hv; simpl in Ho; [done|].
    destruct (transformProps (fields class) o) as [e|o''] eqn:Hrest; simpl in Ho;
      [done|].
    inversion Ho; subst o'; clear Ho. simpl.
    assert (transformValue (fields class) k v' = inr v') as ->.
    { unfold transformValue in *.
      destruct (Obj.get k (fields class)) as [f|]; [|done].
      repeat case_decide; try done;
        (destruct v as [| | | | |p]; try done; simpl in Hv; inversion Hv; subst;
         simpl; by rewrite set_set_same). }
    simpl. by rewrite (IH o'' eq_refl).
Qed.

(** ** A string as input *)







(** ** The mutation resolvers, continued *)

Lemma transformInput_member input cls input1 k :
  transformInput input cls = inr input1 → member input1 k = inr (prop input1 k).
Proof.
  intros [[Hprim ->]|(o & o' & fs & -> & -> & _ & _)]%transformInput_inv; [|done].
  by destruct input.
Qed.

Lemma transformInput_delete input cls input1 k :
  transformInput input cls = inr input1 →
  ∃ forwarded, delete_prop input1 k = inr forwarded ∧ hasKey forwarded k = false.
Proof.
  intros [[Hprim ->]|(o & o' & fs & -> & -> & _ & _)]%transformInput_inv.
  - destruct input; try done; by eexists.
  - eexists. split; [done|]. apply ObjFacts.has_del_eq.
Qed.

Section Sequencing.
Context `{execute.Collab} {W : Type}.
Variable backend : ∀ c : Call, W → (Err + Resp c) * W.

(** X8.  An [update] whose identifier resolves and whose input normalises
    calls [rest.update] with the query [{ objectId }] and the input without
    its [clientMutationId].  A rejection ends the run there; otherwise the
    object is fetched by the same [objectId], and the result holds the
    fetched object and the [clientMutationId] of the input. *)
Theorem update_then_refetch
    className schema root args context info o objectId input1 input2 (w : W) :
  member args "input" = inr (VObj o) →
  getObjectId (VObj o) = inr (objectId, input1) →
  transformInput input1 (schemaGet schema className) = inr input2 →
  ∃ forwarded,
    delete_prop input2 "clientMutationId" = inr forwarded
    ∧ hasKey forwarded "clientMutationId" = false
    ∧ let updating :=
        RestUpdate (Context.config context) (Context.auth context) className
          (VObj [("objectId", objectId)]) forwarded in
      let fetch := RunGet context info className objectId None in
      run backend (update_resolve className schema root args context info) w =
        match backend updating w with
        | (inl e, w1) => (inl e, [updating], w1)
        | (inr _, w1) =>
            match backend fetch w1 with
            | (inl e, w2) => (inl e, [updating; fetch], w2)
            | (inr object, w2) =>
                (inr (VObj [("object", object);
                            ("clientMutationId", prop input2 "clientMutationId")]),
                 [updating; fetch], w2)
            end
        end.
Proof.
  intros Hin Hget Htr.
  destruct (transformInput_delete _ _ _ "clientMutationId" Htr)
    as (forwarded & Hdel & Hgone).
  exists forwarded. split; [done|]. split; [done|]. intros updating fetch.
  unfold update_resolve. rewrite Hin. simpl. rewrite Hget. simpl. rewrite Htr. simpl.
  rewrite (transformInput_member _ _ _ "clientMutationId" Htr). simpl.
  rewrite Hdel. simpl. fold updating.
  destruct (backend updating w) as [[e|r] w1]; [done|]. simpl. fold fetch.
  by destruct (backend fetch w1) as [[e|object] w2].
Qed.

(** X9.  For a class other than [_User], [create] never asks for an
    authorization: after [rest.create] it fetches the object by the
    [objectId] of the creation response under the caller's [auth] and
    [config], in a context without [info], and a response without a
    [response] member raises a [TypeError] after the creation. *)
Theorem create_keeps_caller_auth
    className schema root args context info input input1 forwarded (w : W) :
  className ≠ "_User" →
  member args "input" = inr input →
  transformInput input (schemaGet schema className) = inr input1 →
  delete_prop input1 "clientMutationId" = inr forwarded →
  let creation :=
    RestCreate (Context.config context) (Context.auth context) className forwarded in
  run backend (create_resolve className schema root args context info) w =
    match backend creation w with
    | (inl e, w1) => (inl e, [creation], w1)
    | (inr res, w1) =>
        match (response ← member res "response"; member response "objectId") with
        | inl e => (inl e, [creation], w1)
        | inr objectId =>
            let fetch :=
              RunGet (Context.mk (Context.auth context) (Context.config context) VUndef)
                info className objectId None in
            match backend fetch w1 with
            | (inl e, w2) => (inl e, [creation; fetch], w2)
            | (inr object, w2) =>
                (inr (VObj [("object", object);
                            ("clientMutationId", prop input1 "clientMutationId")]),
                 [creation; fetch], w2)
            end
        end
    end.
Proof.
  intros Hcn Hin Htr Hdel creation.
  unfold create_resolve. rewrite Hin. simpl. rewrite Htr. simpl.
  rewrite (transformInput_member _ _ _ "clientMutationId" Htr). simpl.
  rewrite Hdel. simpl. fold creation.
  destruct (backend creation w) as [[e|res] w1]; [done|]. simpl.
  rewrite decide_False by done. simpl.
  destruct (member res "response") as [e|response]; simpl; [done|].
  destruct (member response "objectId") as [e|objectId]; simpl; [done|].
  match goal with |- context [backend ?c w1] => set (fetch := c) end.
  by destruct (backend fetch w1) as [[e|object] w2].
Qed.

(** X10.  When the creation of a [_User] answers with a truthy
    [response.sessionToken], [create] asks [getAuthForSessionToken] for an
    authorization, passing the [config], the token and
    [context.info && context.info.installationId], and fetches the created
    user under the authorization it obtains; if that request is rejected
    the user is not fetched. *)
Theorem create_user_adopts_session
    schema root args context info input input1 forwarded res response token
    (w w1 : W) :
  member args "input" = inr input →
  transformInput input (schemaGet schema "_User") = inr input1 →
  delete_prop input1 "clientMutationId" = inr forwarded →
  let creation :=
    RestCreate (Context.config context) (Context.auth context) "_User" forwarded in
  backend creation w = (inr res, w1) →
  member res "response" = inr response →
  member response "sessionToken" = inr token →
  truthy token = true →
  let installationId :=
    if truthy (Context.info context) then prop (Context.info context) "installationId"
    else Context.info context in
  let authenticating :=
    GetAuthForSessionToken
      (VObj [("config", Context.config context);
             ("installationId", installationId);
             ("sessionToken", token)]) in
  run backend (create_resolve "_User" schema root args context info) w =
    match backend authenticating w1 with
    | (inl e, w2) => (inl e, [creation; authenticating], w2)
    | (inr auth1, w2) =>
        match member response "objectId" with
        | inl e => (inl e, [creation; authenticating], w2)
        | inr objectId =>
            let fetch :=
              RunGet (Context.mk auth1 (Context.config context) VUndef) info "_User"
                objectId None in
            match backend fetch w2 with
            | (inl e, w3) => (inl e, [creation; authenticating; fetch], w3)
            | (inr object, w3) =>
                (inr (VObj [("object", object);
                            ("clientMutationId", prop input1 "clientMutationId")]),
                 [creation; authenticating; fetch], w3)
            end
        end
    end.
Proof.
  intros Hin Htr Hdel creation Hcreate Hresp Htok Htruthy installationId
    authenticating.
  assert (truthy response = true) as Hr.
  { destruct response; try done; simpl in Htok; inversion Htok; by subst. }
  unfold create_resolve. rewrite Hin. simpl. rewrite Htr. simpl.
  rewrite (transformInput_member _ _ _ "clientMutationId" Htr). simpl.
  rewrite Hdel. simpl. fold creation. rewrite Hcreate. simpl.
  rewrite Hresp. simpl. rewrite Hr, Htok. simpl. rewrite Htruthy.
  subst authenticating installationId. simpl.
  destruct (backend _ w1) as [[e|auth1] w2]; [done|]. simpl.
  destruct (member response "objectId") as [e|objectId]; simpl; [done|].
  match goal with |- context [backend ?c w2] => set (fetch := c) end.
  by destruct (backend fetch w2) as [[e|object] w3].
Qed.
End Sequencing.

(** ** The relation resolver, continued *)

Section RelationGuards.
Context `{execute.Collab} {W : Type}.
Variable backend : ∀ c : Call, W → (Err + Resp c) * W.

Lemma tagResults_errors results : ∀ e, tagResults results = inl e → e = TypeError.
Proof.
  induction results as [|r rs IH]; intros e He; simpl in *; [done|].
  destruct (tagResult r) as [e'|r'] eqn:Hr; simpl in He.
  - inversion He; subst. unfold tagResult in Hr.
    destruct r; simpl in Hr; congruence.
  - destruct (tagResults rs) as [e'|rs']; simpl in He; [|done].
    inversion He; subst. by apply IH.
Qed.

Lemma tagResults_not_object results r :
  r ∈ results → isObject r = false → tagResults results = inl TypeError.
Proof.
  intros Hin Hr. destruct (tagResults results) as [e|rs] eqn:Htag.
  - f_equal. by eapply tagResults_errors.
  - exfalso. revert rs Htag. induction Hin as [r rs'|r r' rs' _ IH]; intros rs Htag;
      simpl in Htag.
    + by destruct r.
    + destruct (tagResult r') as [e|r'']; simpl in Htag; [done|].
      destruct (tagResults rs') as [e|rs'']; simpl in Htag; [done|]. by eapply IH.
Qed.

(** X11.  The resolver of a Relation field raises a [TypeError] and calls
    nothing when the parent is [undefined] or [null], or when the arguments
    are not an object that can take the redirect marker; and when the find
    resolves to a list with an element that is not an object, it raises a
    [TypeError] after that one call. *)
Theorem relation_resolver_guards
    fieldName parent args context info (w : W) :
  (member parent "className" = inl TypeError →
   run backend (relation_resolve fieldName parent args context info) w
     = (inl TypeError, [], w))
  ∧ (isObject parent = true → isObject args = false →
     run backend (relation_resolve fieldName parent args context info) w
       = (inl TypeError, [], w))
  ∧ ∀ a results r w1,
      isObject parent = true →
      args = VObj a →
      let finding :=
        RunFind context info (prop parent "className")
          (VObj (Obj.set "redirectClassNameForKey" (VStr fieldName) a))
          (Some (relatedTo fieldName (prop parent "className")
                   (prop parent "objectId"))) in
      backend finding w = (inr results, w1) →
      r ∈ results →
      isObject r = false →
      run backend (relation_resolve fieldName parent args context info) w
        = (inl TypeError, [finding], w1).
Proof.
  split; [|split].
  - intros Hp. unfold relation_resolve. by rewrite Hp.
  - intros Hp Ha. destruct parent; try done. unfold relation_resolve. simpl.
    by destruct args.
  - intros a results r w1 Hp -> finding Hfind Hr Hprim.
    destruct parent; try done. unfold relation_resolve. simpl.
    subst finding. simpl in Hfind. rewrite Hfind. simpl.
    by rewrite (tagResults_not_object _ _ Hr Hprim).
Qed.
End RelationGuards.

Lemma keys_del {A : Type} k (o : list (string * A)) :
  Obj.keys (Obj.del k o) = filter (λ k', k' ≠ k) (Obj.keys o).
Proof.
  unfold Obj.keys. induction o as [|[k' v] o IH]; simpl; [done|].
  rewrite filter_cons. simpl.
  destruct (decide (k = k')) as [->|Hne].
  - rewrite decide_False by auto. exact IH.
  - rewrite decide_True by auto. simpl. f_equal. exact IH.
Qed.

Section Forwarding.
Context `{execute.Collab} {W : Type}.
Variable backend : ∀ c : Call, W → (Err + Resp c) * W.

(** X26.  [create] strips nothing but the token: what [rest.create]
    receives has the keys of the input in their order, [clientMutationId]
    left out, an [id] or [objectId] of the input included. *)
Theorem create_forwards_all_but_token
    className schema root args context info o input1 (w : W) :
  member args "input" = inr (VObj o) →
  transformInput (VObj o) (schemaGet schema className) = inr input1 →
  ∃ forwarded out rest w',
    run backend (create_resolve className schema root args context info) w
      = (out,
         RestCreate (Context.config context) (Context.auth context) className
           (VObj forwarded) :: rest, w')
    ∧ Obj.keys forwarded = filter (λ k, k ≠ "clientMutationId") (Obj.keys o).
Proof.
  intros Hin Htr.
  assert (∃ o', input1 = VObj o' ∧ Obj.keys o' = Obj.keys o) as (o' & -> & Hkeys).
  { destruct (transformInput_inv _ _ _ Htr)
      as [[[] _]|(o0 & o' & fs & [= <-] & -> & Ho & _)].
    exists o'. split; [done|]. by eapply transformProps_keys. }
  exists (Obj.del "clientMutationId" o').
  assert (Obj.keys (Obj.del "clientMutationId" o')
          = filter (λ k, k ≠ "clientMutationId") (Obj.keys o)) as Hfwd
    by (by rewrite keys_del, Hkeys).
  unfold create_resolve. rewrite Hin. simpl. rewrite Htr. simpl.
  match goal with |- context [backend ?c w] => set (creation := c) end.
  destruct (backend creation w) as [[e|res] w1]; [by do 3 eexists|]. simpl.
  match goal with |- context [run backend ?p w1] =>
    destruct (run backend p w1) as [[out calls] w'] end.
  by do 3 eexists.
Qed.
End Forwarding.


(** ** Display names *)

Lemma String_ne_tail a s : String a s ≠ s.
Proof.
  intros E. apply (f_equal String.length) in E. simpl in E. lia.
Qed.

(** X12.  The display name is the class name without one leading
    underscore, and the class name itself when there is none; hence a class
    name and the same name with an underscore in front, two different class
    names, have one display name. *)
Theorem displayName_strips_one_underscore className :
  displayNameOf (String "_" className) = className
  ∧ (∀ a rest, className = String a rest → a ≠ "_"%char →
       displayNameOf className = className)
  ∧ (displayNameOf className = className →
     String "_" className ≠ className
     ∧ displayNameOf (String "_" className) = displayNameOf className).
Proof.
  split; [done|]. split.
  - intros a rest -> Ha. simpl.
    destruct a as [[] [] [] [] [] [] [] []]; try done.
  - intros E. split; [apply String_ne_tail|]. by rewrite E.
Qed.

(** ** buildFields for any mapper *)

Section Binds.
Context {A B : Type}.

Lemma bind_inv (m : M A) (f : A → M B) s b s' :
  (m ≫= f) s = (inr b, s') →
  ∃ a s1, m s = (inr a, s1) ∧ f a s1 = (inr b, s').
Proof.
  unfold mbind, M_bind. destruct (m s) as [[e|a] s1]; [done|]. intros E.
  by exists a, s1.
Qed.
End Binds.

Lemma has_set {A : Type} k k' (v : A) o :
  Obj.has k (Obj.set k' v o) = if decide (k = k') then true else Obj.has k o.
Proof.
  unfold Obj.has. case_decide as Hk.
  - subst. by rewrite ObjFacts.get_set_eq.
  - by rewrite ObjFacts.get_set_ne.
Qed.

Section BuildFields.
Context `{execute.Collab} `{types.Collab}.

(** The reduce only adds: a key of the seed stays, and a key is added for
    the name of a field alone. *)
Lemma reduceFields_keys mapper filterReserved schema fs :
  ∀ memo s out s',
    reduceFields mapper filterReserved schema fs memo s = (inr out, s') →
    (∀ k, Obj.has k memo = true → Obj.has k out = true)
    ∧ (∀ k, Obj.has k out = true → Obj.has k memo = true ∨ k ∈ Obj.keys fs)
    ∧ (filterReserved = true →
       ∀ k, k ∈ reservedFieldNames → Obj.has k out = Obj.has k memo).
Proof.
  unfold Obj.keys. induction fs as [|[name field] fs IH]; intros memo s out s' Hrun.
  - inversion Hrun; subst. by auto.
  - cbn [reduceFields] in Hrun.
    destruct (filterReserved && bool_decide (name ∈ reservedFieldNames)) eqn:Hskip.
    + destruct (IH _ _ _ _ Hrun) as (Hkeep & Hnew & Hres).
      split; [done|]. split; [|done].
      intros k Hk. destruct (Hnew k Hk); [by left|right]. simpl. by right.
    + apply bind_inv in Hrun as (gQLField & s1 & Hmap & Hrun).
      destruct gQLField as [d|].
      * destruct (IH _ _ _ _ Hrun) as (Hkeep & Hnew & Hres).
        split; [|split].
        -- intros k Hk. apply Hkeep. rewrite has_set.
           by destruct (decide (k = name)).
        -- intros k Hk. destruct (Hnew k Hk) as [Hset|?]; [|right; simpl; by right].
           rewrite has_set in Hset.
           destruct (decide (k = name)); [subst; right; simpl; by left|by left].
        -- intros -> k Hk. rewrite (Hres eq_refl k Hk), has_set.
           destruct (decide (k = name)); [|done]. subst. simpl in Hskip.
           by rewrite bool_decide_eq_false in Hskip.
      * destruct (IH _ _ _ _ Hrun) as (Hkeep & Hnew & Hres).
        split; [done|]. split; [|done].
        intros k Hk. destruct (Hnew k Hk); [by left|right]. simpl. by right.
Qed.

(** X13.  With [filterReserved] set, the field set that [buildFields]
    returns has no [objectId], [createdAt] or [updatedAt] field, whatever
    the mapper does with the other fields. *)
Theorem buildFields_filters_reserved c mapper isObject s fs s' k :
  buildFields c mapper true isObject s = (inr (Some fs), s') →
  k ∈ reservedFieldNames →
  Obj.has k fs = false.
Proof.
  unfold buildFields. intros Hrun Hk.
  apply bind_inv in Hrun as (this & s1 & _ & Hrun).
  destruct (ParseClass.class this) as [[class|]|]; [|done|].
  - cbn [fieldsOf] in Hrun.
    apply bind_inv in Hrun as (out & s2 & Hred & Hret).
    inversion Hret; subst. clear Hret.
    destruct (reduceFields_keys _ _ _ _ _ _ _ _ Hred) as (_ & _ & Hres).
    rewrite (Hres eq_refl k Hk).
    repeat (apply elem_of_cons in Hk as [->|Hk]);
      [| | |by apply elem_of_nil in Hk];
      destruct isObject; case_decide; done.
  - apply bind_inv in Hrun as (? & ? & _ & Hrun).
    apply bind_inv in Hrun as (? & ? & _ & Hrun). by inversion Hrun.
Qed.

(** What the seeding and the fold of [buildFields] leave in the field
    set. *)
Lemma buildFields_fields c mapper filterReserved isObject s pc fs s' :
  instances s !! c = Some pc →
  buildFields c mapper filterReserved isObject s = (inr (Some fs), s') →
  ∃ class,
    ParseClass.class pc = Some (AClass class)
    ∧ (isObject = true → Obj.has "id" fs = true)
    ∧ (ParseClass.className pc = "_User" → Obj.has "sessionToken" fs = true)
    ∧ ∀ k, Obj.has k fs = true →
        k ∈ Obj.keys (fields class)
        ∨ (k = "id" ∧ isObject = true)
        ∨ (k = "sessionToken" ∧ ParseClass.className pc = "_User").
Proof.
  unfold buildFields. intros Hc Hrun.
  rewrite (bind_returns _ _ _ _ _ (self_spec _ _ _ Hc)) in Hrun.
  destruct (ParseClass.class pc) as [[class|]|]; [|done|].
  - exists class. split; [done|]. cbn [fieldsOf] in Hrun.
    apply bind_inv in Hrun as (out & s2 & Hred & Hret).
    inversion Hret; subst. clear Hret.
    destruct (reduceFields_keys _ _ _ _ _ _ _ _ Hred) as (Hkeep & Hnew & _).
    split; [|split].
    + intros ->. apply Hkeep. case_decide; by rewrite ?has_set.
    + intros Hu. apply Hkeep. rewrite decide_True by done. by rewrite has_set.
    + intros k Hk. destruct (Hnew k Hk) as [Hseed|?]; [|by left]. right.
      destruct isObject; case_decide; rewrite ?has_set in Hseed;
        repeat case_decide; subst; auto; done.
  - apply bind_inv in Hrun as (? & ? & _ & Hrun).
    apply bind_inv in Hrun as (? & ? & _ & Hrun). by inversion Hrun.
Qed.

(** X14.  A field set that [buildFields] returns has the [id] field when
    [isObject] is set and the [sessionToken] field when the class is
    [_User], whatever the mapper returns; and it has no field but these two
    and fields named after the fields of the class. *)
Theorem buildFields_seeds c mapper filterReserved isObject s pc fs s' :
  instances s !! c = Some pc →
  buildFields c mapper filterReserved isObject s = (inr (Some fs), s') →
  ∃ class,
    ParseClass.class pc = Some (AClass class)
    ∧ (isObject = true → Obj.has "id" fs = true)
    ∧ (ParseClass.className pc = "_User" → Obj.has "sessionToken" fs = true)
    ∧ ∀ k, Obj.has k fs = true →
        k ∈ Obj.keys (fields class)
        ∨ (k = "id" ∧ isObject = true)
        ∨ (k = "sessionToken" ∧ ParseClass.className pc = "_User").
Proof. apply buildFields_fields. Qed.
End BuildFields.

(** ** The update-input type *)

Section UpdateInput.
Context `{execute.Collab} `{types.Collab}.

(** X15.  For a class of the schema, the update-input type has the fields
    of the add-input type, except that [id] and [objectId] are the nullable
    [GraphQLID]: neither is required, neither is filtered out as reserved,
    and a class field named [id] does not show through. *)
Theorem update_input_fields c s pc class :
  instances s !! c = Some pc →
  ParseClass.class pc = Some (AClass class) →
  NoDup (Obj.keys (fields class)) →
  ∃ ty fs,
    graphQLUpdateInputConfig c s = (inr ty, s)
    ∧ ty_name ty = "Update" ++ ParseClass.displayName pc ++ "Input"
    ∧ forceFields (ty_fields ty) s = (inr (Some fs), s)
    ∧ Obj.get "id" fs = Some (plainField GraphQLID)
    ∧ Obj.get "objectId" fs = Some (plainField GraphQLID)
    ∧ ∀ name, name ≠ "id" → name ≠ "objectId" →
        Obj.get name fs = addInputField (ParseClass.className pc) class name.
Proof.
  intros Hc Hcls Hnd.
  set (seed := if decide (ParseClass.className pc = "_User")
               then Obj.set "sessionToken" sessionTokenField []
               else ([] : Fields)).
  destruct (reduceFields_input (ParseClass.schema pc) (fields class) Hnd seed s)
    as (out & Hred & Hout).
  assert (buildFields c inputMapper true false s = (inr (Some out), s)) as Hbuild.
  { unfold buildFields.
    rewrite (bind_returns _ _ _ _ _ (self_spec _ _ _ Hc)), Hcls.
    cbn [Obj.set fieldsOf]. fold seed. by rewrite (bind_returns _ _ _ _ _ Hred). }
  unfold graphQLUpdateInputConfig.
  rewrite (bind_returns _ _ _ _ _ (self_spec _ _ _ Hc)).
  eexists _, _. split; [reflexivity|]. split; [done|].
  cbn [ty_fields forceFields]. rewrite (bind_returns _ _ _ _ _ Hbuild).
  split; [reflexivity|]. split; [|split].
  - rewrite ObjFacts.get_set_ne by done. rewrite ObjFacts.get_set_ne by done.
    apply ObjFacts.get_set_eq.
  - rewrite ObjFacts.get_set_ne by done. apply ObjFacts.get_set_eq.
  - intros name Hid Hoid. unfold addInputField.
    destruct (decide (name = "clientMutationId")) as [->|Hne].
    + by rewrite ObjFacts.get_set_eq.
    + rewrite !ObjFacts.get_set_ne by done. rewrite Hout.
      destruct (if bool_decide (name ∈ reservedFieldNames) then None else _);
        [done|].
      unfold seed. destruct (decide (ParseClass.className pc = "_User")); [|done].
      simpl. by destruct (decide (name = "sessionToken")).
Qed.
End UpdateInput.

(** ** Fields that refer to other classes *)

Section References.
Context `{execute.Collab} `{types.Collab}.

(** Loading a class again yields the types of the first load. *)
Lemma loadClass_again className schema s b1 s1 :
  cacheOk s →
  loadClass className schema s = (inr b1, s1) →
  ∃ b2 s2,
    loadClass className schema s1 = (inr b2, s2)
    ∧ cacheOk s2
    ∧ Bundle.parseClass b2 = Bundle.parseClass b1
    ∧ Bundle.objectType b2 = Bundle.objectType b1
    ∧ Bundle.inputType b2 = Bundle.inputType b1
    ∧ Bundle.updateType b2 = Bundle.updateType b1
    ∧ Bundle.queryType b2 = Bundle.queryType b1
    ∧ Bundle.queryResultType b2 = Bundle.queryResultType b1
    ∧ Bundle.mutationResultType b2 = Bundle.mutationResultType b1.
Proof.
  intros Hok E1.
  destruct (loadClass_spec className schema s Hok)
    as (b1' & s1' & pc1 & E1' & Hok1 & Hc1 & Hpc1 & B1 & _).
  rewrite E1 in E1'. inversion E1'; subst b1' s1'; clear E1'.
  destruct (loadClass_spec className schema s1 Hok1)
    as (b2 & s2 & pc2 & E2 & Hok2 & Hc2 & Hpc2 & B2 & Hhit & _).
  assert (cache s1 !! className = Some (Bundle.parseClass b1)) as Hcached
    by (by rewrite Hc1, lookup_insert_eq).
  destruct (Hhit _ Hcached) as (Hsame & _ & _ & Hgrown).
  destruct (Hgrown pc1 Hpc1) as (_ & _ & _ & _ & Hslots).
  exists b2, s2. split; [done|]. split; [done|]. split; [done|].
  destruct B1 as (O1 & I1 & U1 & Q1 & R1 & M1 & _).
  destruct B2 as (O2 & I2 & U2 & Q2 & R2 & M2 & _).
  apply Hslots in O1, I1, U1, Q1, R1, M1.
  repeat split; congruence.
Qed.

(** X16.  The type of a Pointer field is the very object type of its
    target class: the output mapper gives the field the type object that a
    later [loadClass] of the target returns as [objectType], and the filter
    mapper, when it keeps the field, the one returned as [queryType]. *)
Theorem pointer_field_shares_target_type fieldName field schema s :
  cacheOk s →
  field_type field = "Pointer" →
  (∃ d s1 b s2,
     graphQLField fieldName field schema s = (inr (Some d), s1)
     ∧ loadClass (targetClass field) schema s1 = (inr b, s2)
     ∧ fd_name d = Some fieldName
     ∧ fd_type d = Some (TypeRef (Bundle.objectType b)))
  ∧ (is_Some (orElse (handleIdField fieldName) (types.queryType field)) →
     ∃ d s1 b s2,
       graphQLQueryField fieldName field schema s = (inr (Some d), s1)
       ∧ loadClass (targetClass field) schema s1 = (inr b, s2)
       ∧ fd_type d = Some (TypeRef (Bundle.queryType b))).
Proof.
  intros Hok Hptr.
  destruct (loadClass_spec (targetClass field) schema s Hok)
    as (b1 & s1 & pc1 & E1 & _).
  destruct (loadClass_again _ _ _ _ _ Hok E1)
    as (b2 & s2 & E2 & _ & _ & Hobj & _ & _ & Hq & _).
  split.
  - exists (mkFieldDesc None (Some fieldName) (Some (TypeRef (Bundle.objectType b1)))
              (Some ("Accessor for " ++ fieldName ++ " (" ++ getFieldType field ++ ")"))
              [] (Some (λ parent args context info,
                          single (pointer_resolve fieldName field parent args
                                    context info)))), s1, b2, s2.
    split; [|split; [done|split; [done|simpl; by rewrite Hobj]]].
    unfold graphQLField.
    rewrite (decide_False (P := field_type field = "Relation")) by congruence.
    rewrite (decide_True (P := field_type field = "Pointer")) by done.
    by rewrite (bind_returns _ _ _ _ _ (bind_returns _ _ _ _ _ E1)).
  - intros [t Ht].
    exists (mkFieldDesc None (Some fieldName) (Some (TypeRef (Bundle.queryType b1)))
              (Some ("Query for " ++ fieldName ++ " (" ++ field_type field ++ ")"))
              [] None), s1, b2, s2.
    split; [|split; [done|simpl; by rewrite Hq]].
    unfold graphQLQueryField. rewrite Ht.
    rewrite (decide_True (P := field_type field = "Pointer")) by done.
    by rewrite (bind_returns _ _ _ _ _ (bind_returns _ _ _ _ _ E1)).
Qed.

(** X17.  A Relation field is the [find] operation of its target class
    under another resolver: the output mapper returns, whatever the name of
    the field, a descriptor without a name whose type is the query-result
    type of the target, whose [where] argument is its query type, as a later
    [loadClass] of the target returns them, and whose description is that of
    the target's [find]; its resolver is the relation resolver of the field,
    which is not the resolver of the target's [find]. *)
Theorem relation_field_is_target_find fieldName field schema s :
  cacheOk s →
  field_type field = "Relation" →
  ∃ d s1 b s2,
    graphQLField fieldName field schema s = (inr (Some d), s1)
    ∧ loadClass (targetClass field) schema s1 = (inr b, s2)
    ∧ fd_type d = Some (TypeRef (Bundle.queryResultType b))
    ∧ Obj.get "where" (fd_args d) = Some (TypeRef (Bundle.queryType b))
    ∧ fd_description d
      = Some ("Use this endpoint to get or query " ++ targetClass field ++ " objects")
    ∧ fd_name d = None
    ∧ fd_resolve d
      = Some (λ parent args context info,
                paged (relation_resolve fieldName parent args context info))
    ∧ fd_resolve (Bundle.find b)
      = Some (λ root args context info,
                paged (find_resolve (targetClass field) root args context info))
    ∧ fd_resolve d ≠ fd_resolve (Bundle.find b).
Proof.
  intros Hok Hrel.
  destruct (loadClass_spec (targetClass field) schema s Hok)
    as (b1 & s1 & pc1 & E1 & _).
  destruct (loadClass_again _ _ _ _ _ Hok E1)
    as (b2 & s2 & E2 & _ & _ & _ & _ & _ & Hq & Hr & _).
  assert (∃ d, graphQLField fieldName field schema s = (inr (Some d), s1)
               ∧ fd_type d = fd_type (Bundle.find b1)
               ∧ fd_args d = fd_args (Bundle.find b1)
               ∧ fd_description d = fd_description (Bundle.find b1)
               ∧ fd_name d = fd_name (Bundle.find b1)
               ∧ fd_resolve d
                 = Some (λ parent args context info,
                           paged (relation_resolve fieldName parent args context
                                    info)))
    as (d & Hd & Ht & Ha & Hdesc & Hn & Hres).
  { unfold graphQLField.
    rewrite (decide_True (P := field_type field = "Relation")) by done.
    unfold getRelationField.
    rewrite (bind_returns _ _ _ _ _ (bind_returns _ _ _ _ _ E1)).
    eexists. split; [reflexivity|]. simpl. by repeat split. }
  assert (fd_resolve (Bundle.find b2)
          = Some (λ root args context info,
                    paged (find_resolve (targetClass field) root args context info)))
    as Hfind.
  { pose proof E2 as E. unfold loadClass in E.
    repeat (apply bind_inv in E as (? & ? & _ & E)).
    by inversion E. }
  exists d, s1, b2, s2. split; [done|]. split; [done|].
  rewrite Ht, Ha, Hdesc, Hn, Hq, Hr, Hres, Hfind. clear Hd Ht Ha Hdesc Hn E2 Hres Hfind.
  unfold loadClass in E1.
  repeat (apply bind_inv in E1 as (? & ? & _ & E1)).
  inversion E1; subst; clear E1. simpl.
  split; [done|]. split; [done|]. split; [done|]. split; [done|].
  split; [done|]. split; [done|].
  intros [= Heq].
  apply (f_equal (λ r, r VNull (VObj []) (Context.mk VUndef VUndef VUndef) VUndef))
    in Heq.
  discriminate Heq.
Qed.
End References.

(** ** Forcing the object and the query type *)

Section Thunks.
Context `{execute.Collab} `{types.Collab}.

Lemma graphQLField_returns fieldName field schema s :
  cacheOk s →
  ∃ d s', graphQLField fieldName field schema s = (inr (Some d), s') ∧ cacheOk s'.
Proof.
  intros Hok.
  destruct (loadClass_spec (targetClass field) schema s Hok)
    as (b1 & s1 & pc1 & E1 & Hok1 & _).
  unfold graphQLField. destruct (decide (field_type field = "Relation")).
  - unfold getRelationField.
    rewrite (bind_returns _ _ _ _ _ (bind_returns _ _ _ _ _ E1)). by eexists _, _.
  - destruct (decide (field_type field = "Pointer")).
    + rewrite (bind_returns _ _ _ _ _ (bind_returns _ _ _ _ _ E1)). by eexists _, _.
    + by eexists _, _.
Qed.

Lemma graphQLQueryField_returns fieldName field schema s :
  cacheOk s →
  ∃ r s', graphQLQueryField fieldName field schema s = (inr r, s')
          ∧ cacheOk s'
          ∧ (is_Some (orElse (handleIdField fieldName) (types.queryType field)) →
             is_Some r).
Proof.
  intros Hok.
  destruct (loadClass_spec (targetClass field) schema s Hok)
    as (b1 & s1 & pc1 & E1 & Hok1 & _).
  unfold graphQLQueryField.
  destruct (orElse (handleIdField fieldName) (types.queryType field)) as [t|].
  - destruct (decide (field_type field = "Pointer")).
    + rewrite (bind_returns _ _ _ _ _ (bind_returns _ _ _ _ _ E1)).
      eexists _, _. by repeat split.
    + eexists _, _. by repeat split.
  - eexists _, _. split; [reflexivity|]. split; [done|]. by intros [].
Qed.

(** A reduce whose mapper keeps the cache in order returns, and a field
    that the mapper does not omit is in the result. *)
Lemma reduceFields_mapped (mapper : Mapper) (P : string → Field → Prop) schema fs :
  (∀ name field s, cacheOk s →
     ∃ r s', mapper name field schema s = (inr r, s') ∧ cacheOk s'
             ∧ (P name field → is_Some r)) →
  ∀ memo s, cacheOk s →
    ∃ out s',
      reduceFields mapper false schema fs memo s = (inr out, s')
      ∧ cacheOk s'
      ∧ ∀ name field, (name, field) ∈ fs → P name field → Obj.has name out = true.
Proof.
  intros Hmapper. induction fs as [|[name field] fs IH]; intros memo s Hok.
  - exists memo, s. split; [done|]. split; [done|]. intros ?? Hin.
    by apply elem_of_nil in Hin.
  - cbn [reduceFields andb].
    destruct (Hmapper name field s Hok) as (r & s1 & Hr & Hok1 & HP).
    rewrite (bind_returns _ _ _ _ _ Hr).
    destruct r as [d|].
    + destruct (IH (Obj.set name d memo) s1 Hok1) as (out & s2 & Hrun & Hok2 & Hall).
      exists out, s2. split; [done|]. split; [done|].
      intros name' field' [[= -> ->]|Hin]%elem_of_cons HP'; [|by eapply Hall].
      destruct (reduceFields_keys _ _ _ _ _ _ _ _ Hrun) as (Hkeep & _).
      apply Hkeep. rewrite has_set. by rewrite decide_True.
    + destruct (IH memo s1 Hok1) as (out & s2 & Hrun & Hok2 & Hall).
      exists out, s2. split; [done|]. split; [done|].
      intros name' field' [[= -> ->]|Hin]%elem_of_cons HP'; [|by eapply Hall].
      by destruct (HP HP').
Qed.

(** X18.  For a class of the schema, asking the object type for its fields
    returns, whichever classes its Pointer and Relation fields refer to,
    itself included: the field set has the [id] field and a field for every
    field of the class, and nothing beyond these but [sessionToken] for
    [_User]. *)
Theorem object_fields_returned c s pc class :
  cacheOk s →
  instances s !! c = Some pc →
  ParseClass.class pc = Some (AClass class) →
  ∃ ty fs s',
    graphQLConfig c s = (inr ty, s)
    ∧ ty_name ty = ParseClass.displayName pc
    ∧ forceFields (ty_fields ty) s = (inr (Some fs), s')
    ∧ cacheOk s'
    ∧ Obj.has "id" fs = true
    ∧ (∀ k, k ∈ Obj.keys (fields class) → Obj.has k fs = true)
    ∧ ∀ k, Obj.has k fs = true →
        k ∈ Obj.keys (fields class) ∨ k = "id"
        ∨ (k = "sessionToken" ∧ ParseClass.className pc = "_User").
Proof.
  intros Hok Hc Hcls.
  set (seed := if decide (ParseClass.className pc = "_User")
               then Obj.set "sessionToken" sessionTokenField (Obj.set "id" idField [])
               else Obj.set "id" idField []).
  destruct (reduceFields_mapped graphQLField (λ _ _, True) (ParseClass.schema pc)
              (fields class)) with (memo := seed) (s := s)
    as (out & s' & Hred & Hok' & Hall); [|done|].
  { intros name field s0 Hok0.
    destruct (graphQLField_returns name field (ParseClass.schema pc) s0 Hok0)
      as (d & s1 & Hd & Hok1).
    exists (Some d), s1. by repeat split. }
  assert (buildFields c graphQLField false true s = (inr (Some out), s')) as Hbuild.
  { unfold buildFields.
    rewrite (bind_returns _ _ _ _ _ (self_spec _ _ _ Hc)), Hcls.
    cbn [Obj.set fieldsOf]. fold seed. by rewrite (bind_returns _ _ _ _ _ Hred). }
  destruct (buildFields_fields _ _ _ _ _ _ _ _ Hc Hbuild)
    as (class' & Hcls' & Hid & _ & Honly).
  assert (class' = class) as -> by congruence.
  unfold graphQLConfig. rewrite (bind_returns _ _ _ _ _ (self_spec _ _ _ Hc)).
  eexists _, out, s'. split; [reflexivity|]. split; [done|].
  cbn [ty_fields forceFields]. split; [done|]. split; [done|].
  split; [by apply Hid|]. split.
  - intros k [[k' field] [-> Hin]]%list_elem_of_fmap. by eapply Hall.
  - intros k Hk. destruct (Honly k Hk) as [?|[[-> _]|?]]; auto.
Qed.

(** X19.  For a class of the schema, asking the query type for its fields
    returns a field set without [id] and without [objectId], with a field
    for every other class field for which [queryType] has a type, and, for
    the class [_User], with the [sessionToken] field. *)
Theorem query_fields_returned c s pc class :
  cacheOk s →
  instances s !! c = Some pc →
  ParseClass.class pc = Some (AClass class) →
  ∃ ty fs s',
    graphQLQueryConfig c s = (inr ty, s)
    ∧ ty_name ty = ParseClass.displayName pc ++ "Query"
    ∧ forceFields (ty_fields ty) s = (inr (Some fs), s')
    ∧ cacheOk s'
    ∧ Obj.has "id" fs = false
    ∧ Obj.has "objectId" fs = false
    ∧ (∀ name field,
         (name, field) ∈ fields class → name ≠ "id" → name ≠ "objectId" →
         is_Some (types.queryType field) → Obj.has name fs = true)
    ∧ (ParseClass.className pc = "_User" → Obj.has "sessionToken" fs = true).
Proof.
  intros Hok Hc Hcls.
  set (seed := if decide (ParseClass.className pc = "_User")
               then Obj.set "sessionToken" sessionTokenField []
               else ([] : Fields)).
  destruct (reduceFields_mapped graphQLQueryField
              (λ name field,
                 is_Some (orElse (handleIdField name) (types.queryType field)))
              (ParseClass.schema pc) (fields class)) with (memo := seed) (s := s)
    as (out & s' & Hred & Hok' & Hall); [|done|].
  { intros name field s0 Hok0.
    by apply graphQLQueryField_returns. }
  assert (buildFields c graphQLQueryField false false s = (inr (Some out), s'))
    as Hbuild.
  { unfold buildFields.
    rewrite (bind_returns _ _ _ _ _ (self_spec _ _ _ Hc)), Hcls.
    cbn [Obj.set fieldsOf]. fold seed. by rewrite (bind_returns _ _ _ _ _ Hred). }
  destruct (buildFields_fields _ _ _ _ _ _ _ _ Hc Hbuild)
    as (class' & Hcls' & _ & Htoken & _).
  unfold graphQLQueryConfig. rewrite (bind_returns _ _ _ _ _ (self_spec _ _ _ Hc)).
  eexists _, _, s'. split; [reflexivity|]. split; [done|].
  cbn [ty_fields forceFields]. rewrite (bind_returns _ _ _ _ _ Hbuild).
  split; [reflexivity|]. split; [done|].
  split; [apply ObjFacts.has_del_eq|].
  split; [rewrite ObjFacts.has_del_ne by done; apply ObjFacts.has_del_eq|].
  split.
  - intros name field Hin Hid Hoid [t Ht].
    rewrite !ObjFacts.has_del_ne by done. eapply Hall; [done|].
    destruct (handleIdField name); simpl; [by eexists|]. by rewrite Ht.
  - intros Hu. rewrite !ObjFacts.has_del_ne by done. by apply Htoken.
Qed.
End Thunks.


(** ** The store invariant *)

Lemma typeOfSlot_grown sl c pc pc' ty :
  grown pc pc' → typeOfSlot sl c pc ty → typeOfSlot sl c pc' ty.
Proof.
  intros (Hcn & Hdn & _ & _ & Hslots). unfold typeOfSlot. rewrite Hcn, Hdn.
  destruct sl; try done.
  - intros (object & edge & Ho & ->). exists object, edge. auto.
  - intros (object & Ho & ->). exists object. auto.
Qed.

Lemma grown_setSlot sl l pc :
  ParseClass.slot sl pc = None → grown pc (ParseClass.setSlot sl l pc).
Proof.
  intros Hnone. repeat split; auto. intros sl' l' Hsl'.
  rewrite slot_setSlot_ne; [done|]. intros ->. congruence.
Qed.

Lemma storeOk_initial : storeOk initial.
Proof.
  repeat split.
  - intros c [pc Hc]. simpl in Hc. by rewrite lookup_empty in Hc.
  - intros l [ty Hl]. simpl in Hl. by rewrite lookup_empty in Hl.
  - intros c pc sl l Hc. simpl in Hc. by rewrite lookup_empty in Hc.
Qed.

Lemma wellFormed_initial : wellFormed initial.
Proof.
  split; [apply cacheOk_initial|]. split; [apply storeOk_initial|].
  intros cn c Hc. simpl in Hc. by rewrite lookup_empty in Hc.
Qed.

(** Allocating an address, and registering a type at a fresh address. *)
Lemma storeOk_alloc s l s' :
  storeOk s → alloc s = (inr l, s') → storeOk s'.
Proof.
  intros (Hi & Ht & Hs) [= <- <-]. repeat split; simpl.
  - intros c Hc. specialize (Hi c Hc). lia.
  - intros l Hl. specialize (Ht l Hl). lia.
  - done.
Qed.

Lemma storeOk_newType ty s l s' :
  storeOk s → newType ty s = (inr l, s') →
  storeOk s'
  ∧ l = next s
  ∧ next s' = S (next s)
  ∧ instances s' = instances s
  ∧ typeObjects s' !! l = Some ty
  ∧ ∀ l', (l' < next s)%nat → typeObjects s' !! l' = typeObjects s !! l'.
Proof.
  intros (Hi & Ht & Hs) [= <- <-]. simpl.
  assert (∀ l', (l' < next s)%nat →
                <[next s := ty]> (typeObjects s) !! l' = typeObjects s !! l') as Hold.
  { intros l' Hl'. apply lookup_insert_ne. lia. }
  split; [|by rewrite lookup_insert_eq].
  repeat split; simpl.
  - intros c Hc. specialize (Hi c Hc). lia.
  - intros l [ty' Hl]. destruct (decide (next s = l)) as [<-|Hne]; [lia|].
    rewrite lookup_insert_ne in Hl by done. specialize (Ht l (ex_intro _ _ Hl)). lia.
  - intros c pc sl l Hc Hsl. destruct (Hs c pc sl l Hc Hsl) as (ty' & Hl & Hty).
    exists ty'. split; [|done]. rewrite Hold; [done|]. apply Ht. by eexists.
Qed.

(** A memoising method keeps the store in order, given that building its
    configuration does and that the configuration is the one of the slot. *)
Lemma memoised_store sl c config s pc l s' :
  storeOk s →
  instances s !! c = Some pc →
  (ParseClass.slot sl pc = None →
   ∃ ty s1,
     config s = (inr ty, s1)
     ∧ storeOk s1
     ∧ instances s1 = instances s
     ∧ (next s ≤ next s1)%nat
     ∧ (∀ l', (l' < next s)%nat → typeObjects s1 !! l' = typeObjects s !! l')
     ∧ typeOfSlot sl c (ParseClass.setSlot sl (next s1) pc) ty) →
  memoised sl c config s = (inr l, s') →
  storeOk s'
  ∧ (∀ c', c' ≠ c → instances s' !! c' = instances s !! c')
  ∧ (∀ l', (l' < next s)%nat → typeObjects s' !! l' = typeObjects s !! l').
Proof.
  intros Hstore Hc Hconfig Hrun.
  destruct (ParseClass.slot sl pc) as [l0|] eqn:Hsl.
  { rewrite (memoised_hit _ _ _ _ _ _ Hc Hsl) in Hrun. by inversion Hrun; subst. }
  destruct Hconfig as (ty & s1 & Hty & Hstore1 & Hinst1 & Hnext1 & Hold1 & Hslot);
    [done|].
  destruct (newType ty s1) as [r2 s2] eqn:Hnew.
  assert (r2 = inr (next s1)) as -> by (by inversion Hnew).
  destruct (storeOk_newType _ _ _ _ Hstore1 Hnew)
    as (Hstore2 & _ & Hnext2 & Hinst2 & Hl2 & Hold2).
  assert (instances s2 !! c = Some pc) as Hc2 by congruence.
  unfold memoised in Hrun.
  rewrite (bind_returns _ _ _ _ _ (self_spec _ _ _ Hc)), Hsl in Hrun.
  rewrite (bind_returns _ _ _ _ _ Hty) in Hrun.
  rewrite (bind_returns _ _ _ _ _ Hnew) in Hrun.
  rewrite (bind_returns _ _ _ _ _ (self_spec _ _ _ Hc2)) in Hrun.
  inversion Hrun; subst l s'; clear Hrun.
  destruct Hstore2 as (Hi2 & Ht2 & Hs2).
  split; [|split].
  - repeat split; simpl.
    + intros c' Hc'. destruct (decide (c = c')) as [<-|Hne].
      * apply Hi2. by eexists.
      * rewrite lookup_insert_ne in Hc' by done. by apply Hi2.
    + done.
    + intros c' pc' sl' l' Hc' Hsl'.
      destruct (decide (c = c')) as [<-|Hne].
      * rewrite lookup_insert_eq in Hc'. inversion Hc'; subst pc'; clear Hc'.
        destruct (decide (sl' = sl)) as [->|Hnesl].
        -- rewrite slot_setSlot_eq in Hsl'. inversion Hsl'; subst l'. by exists ty.
        -- rewrite slot_setSlot_ne in Hsl' by done.
           destruct (Hs2 c pc sl' l' Hc2 Hsl') as (ty' & Hl' & Hty').
           exists ty'. split; [done|].
           eapply typeOfSlot_grown; [|done]. by apply grown_setSlot.
      * rewrite lookup_insert_ne in Hc' by done. by eapply Hs2.
  - intros c' Hne. simpl. rewrite lookup_insert_ne by done. congruence.
  - intros l' Hl'. simpl. rewrite Hold2 by lia. by apply Hold1.
Qed.

Lemma getOrElse_miss className schema s :
  cache s !! className = None →
  ∃ s0,
    getOrElse className (newParseClass className schema) s = (inr (next s), s0)
    ∧ next s0 = S (next s)
    ∧ cache s0 = <[className := next s]> (cache s)
    ∧ instances s0
      = <[next s := ParseClass.mk className (displayNameOf className) schema
                      (schemaGet schema className) []]> (instances s)
    ∧ typeObjects s0 = typeObjects s.
Proof.
  intros Hmiss. unfold getOrElse. rewrite Hmiss.
  destruct (newParseClass_spec className schema s)
    as (s1 & -> & Hc & Hn & Hi & Ht & _).
  eexists. split; [reflexivity|]. simpl. by rewrite Hc.
Qed.

(** Each memoising method, run on a store in order. *)
Lemma method_run sl c s pc :
  storeOk s →
  instances s !! c = Some pc →
  (sl = queryResultObjectType ∨ sl = mutationResultObjectType →
   is_Some (ParseClass.slot objectType pc)) →
  ∃ l s' pc',
    memoised sl c (configOf sl c) s = (inr l, s')
    ∧ storeOk s'
    ∧ extends s s'
    ∧ instances s' !! c = Some pc'
    ∧ grown pc pc'
    ∧ ParseClass.slot sl pc' = Some l
    ∧ (∀ c', c' ≠ c → instances s' !! c' = instances s !! c')
    ∧ (∀ l', (l' < next s)%nat → typeObjects s' !! l' = typeObjects s !! l').
Proof.
  intros Hstore Hc Hobject.
  assert (ParseClass.slot sl pc = None →
          ∃ ty s1,
            configOf sl c s = (inr ty, s1)
            ∧ storeOk s1
            ∧ instances s1 = instances s
            ∧ (next s ≤ next s1)%nat
            ∧ (∀ l', (l' < next s)%nat → typeObjects s1 !! l' = typeObjects s !! l')
            ∧ typeOfSlot sl c (ParseClass.setSlot sl (next s1) pc) ty
            ∧ extends s s1) as Hconfig.
  { intros Hnone. destruct sl; simpl.
    - unfold graphQLConfig. rewrite (bind_returns _ _ _ _ _ (self_spec _ _ _ Hc)).
      eexists _, s. split; [reflexivity|]. auto 10 using extends_refl.
    - unfold graphQLUpdateInputConfig.
      rewrite (bind_returns _ _ _ _ _ (self_spec _ _ _ Hc)).
      eexists _, s. split; [reflexivity|]. auto 10 using extends_refl.
    - unfold graphQLInputConfig.
      rewrite (bind_returns _ _ _ _ _ (self_spec _ _ _ Hc)).
      eexists _, s. split; [reflexivity|]. auto 10 using extends_refl.
    - unfold graphQLQueryConfig.
      rewrite (bind_returns _ _ _ _ _ (self_spec _ _ _ Hc)).
      eexists _, s. split; [reflexivity|]. auto 10 using extends_refl.
    - destruct Hobject as [object Hobject]; [by left|].
      unfold graphQLQueryResultConfig, graphQLObjectType.
      rewrite (bind_returns _ _ _ _ _ (memoised_hit _ _ _ _ _ _ Hc Hobject)).
      rewrite (bind_returns _ _ _ _ _ (self_spec _ _ _ Hc)).
      match goal with |- context [newType ?ty] =>
        destruct (newType ty s) as [r1 s1] eqn:Hnew end.
      assert (r1 = inr (next s)) as -> by (by inversion Hnew).
      destruct (storeOk_newType _ _ _ _ Hstore Hnew)
        as (Hstore1 & _ & Hnext1 & Hinst1 & _ & Hold1).
      destruct (newType_spec
                  (mkTypeObj ObjectType (ParseClass.displayName pc ++ "Edge") None []
                     (StaticFields [("node", plainField (TypeRef object));
                                    ("cursor", plainField GraphQLString)]) None) s)
        as (s1' & Hnew' & Hext1 & _).
      assert (s1' = s1) as -> by congruence.
      rewrite (bind_returns _ _ _ _ _ Hnew).
      eexists _, s1. split; [reflexivity|].
      split; [done|]. split; [done|]. split; [lia|]. split; [done|].
      split; [|done]. exists object, (next s). split; [|done].
      by rewrite slot_setSlot_ne.
    - destruct Hobject as [object Hobject]; [by right|].
      unfold graphQLMutationResultConfig, graphQLObjectType.
      rewrite (bind_returns _ _ _ _ _ (memoised_hit _ _ _ _ _ _ Hc Hobject)).
      rewrite (bind_returns _ _ _ _ _ (self_spec _ _ _ Hc)).
      eexists _, s. split; [reflexivity|].
      split; [done|]. split; [done|]. split; [done|]. split; [done|].
      split; [|apply extends_refl]. exists object. split; [|done].
      by rewrite slot_setSlot_ne. }
  destruct (memoised_spec sl c (configOf sl c) s pc Hc)
    as (l & s' & pc' & Hrun & Hext & Hpc' & Hgrown & Hslot & _).
  { intros Hnone. destruct (Hconfig Hnone) as (ty & s1 & ? & _ & ? & _ & _ & _ & ?).
    by exists ty, s1. }
  destruct (memoised_store sl c (configOf sl c) s pc l s' Hstore Hc)
    as (Hstore' & Hothers & Hold); [|done|].
  { intros Hnone. destruct (Hconfig Hnone) as (ty & s1 & ? & ? & ? & ? & ? & ? & _).
    by exists ty, s1. }
  by exists l, s', pc'.
Qed.

Section LoadClassRun.
Context `{execute.Collab} `{types.Collab}.

(** [loadClass] on a well-formed store, with all that it leaves behind. *)
Lemma loadClass_run className schema s :
  wellFormed s →
  ∃ b s' pc',
    loadClass className schema s = (inr b, s')
    ∧ wellFormed s'
    ∧ untouched className (Bundle.parseClass b) s s'
    ∧ instances s' !! Bundle.parseClass b = Some pc'
    ∧ bundleOf b pc'
    ∧ ParseClass.className pc' = className
    ∧ ParseClass.displayName pc' = displayNameOf className
    ∧ (next s ≤ next s')%nat
    ∧ cache s' !! className = Some (Bundle.parseClass b)
    ∧ (∃ l, inputTypeOf (Bundle.destroy b) = Some l
            ∧ allocatedBetween s s' l
            ∧ typeObjects s' !! l
              = Some (destroyInputType (displayNameOf className)))
    ∧ inputTypeOf (Bundle.create b) = Some (Bundle.inputType b)
    ∧ inputTypeOf (Bundle.update b) = Some (Bundle.updateType b).
Proof.
  intros (Hok & Hstore & Hnamed).
  (* the cache *)
  assert (∃ c s0 pc0,
            getOrElse className (newParseClass className schema) s = (inr c, s0)
            ∧ cacheOk s0 ∧ storeOk s0
            ∧ instances s0 !! c = Some pc0
            ∧ ParseClass.className pc0 = className
            ∧ ParseClass.displayName pc0 = displayNameOf className
            ∧ cache s0 = <[className := c]> (cache s)
            ∧ (next s ≤ next s0)%nat
            ∧ (∀ c', c' ≠ c → instances s0 !! c' = instances s !! c')
            ∧ typeObjects s0 = typeObjects s
            ∧ (∀ cn' c', cn' ≠ className → cache s !! cn' = Some c' → c' ≠ c))
    as (c & s0 & pc0 & Hget & Hok0 & Hstore0 & Hpc0 & Hcn0 & Hdn0 & Hcache0 & Hn0
        & Hothers0 & Htypes0 & Hdistinct).
  { destruct (getOrElse_spec className schema s Hok)
      as (c & s0 & pc0 & Hget & Hok0 & Hpc0 & Hcache0 & Hn0 & _ & Hhit & _).
    destruct (cache s !! className) as [c'|] eqn:Hcached.
    - destruct (Hhit c' eq_refl) as [-> ->].
      destruct (Hnamed className c Hcached) as (pc & Hpc & Hcn & Hdn).
      assert (pc = pc0) as -> by congruence.
      exists c, s, pc0. split; [done|]. split; [done|]. split; [done|].
      split; [done|]. split; [done|]. split; [done|].
      split; [by rewrite insert_id|]. split; [done|]. split; [done|].
      split; [done|].
      intros cn' c' Hne Hc' ->.
      destruct (Hnamed cn' c Hc') as (pc & Hpc' & Hcn' & _). congruence.
    - destruct (getOrElse_miss className schema s Hcached)
        as (s0' & Hget' & Hnext & Hcache' & Hinst & Htypes).
      rewrite Hget in Hget'. inversion Hget'; subst c s0'; clear Hget'.
      rewrite Hinst, lookup_insert_eq in Hpc0. inversion Hpc0; subst pc0.
      destruct Hstore as (Hi & Ht & Hs).
      eexists (next s), s0, _. split; [done|]. split; [done|].
      split.
      { repeat split.
        - intros c' Hc'. rewrite Hinst in Hc'. rewrite Hnext.
          destruct (decide (next s = c')) as [<-|Hne]; [lia|].
          rewrite lookup_insert_ne in Hc' by done. specialize (Hi c' Hc'). lia.
        - intros l Hl. rewrite Htypes in Hl. specialize (Ht l Hl). lia.
        - intros c' pc sl l Hc' Hsl. rewrite Hinst in Hc'. rewrite Htypes.
          destruct (decide (next s = c')) as [<-|Hne].
          + rewrite lookup_insert_eq in Hc'. by inversion Hc'; subst.
          + rewrite lookup_insert_ne in Hc' by done. by eapply Hs. }
      split; [by rewrite Hinst, lookup_insert_eq|].
      split; [done|]. split; [done|]. split; [done|]. split; [lia|].
      split; [intros c' Hne; by rewrite Hinst, lookup_insert_ne|].
      split; [done|].
      intros cn' c' Hne Hc' ->.
      destruct (Hnamed cn' (next s) Hc') as (pc & Hpc & _).
      specialize (Hi (next s) (ex_intro _ _ Hpc)). lia. }
  (* the six memoised types *)
  destruct (method_run objectType c s0 pc0 Hstore0 Hpc0)
    as (t1 & s1 & pc1 & E1 & St1 & X1 & Hpc1 & G1 & S1 & Oth1 & Old1).
  { by intros [|]. }
  pose proof (extends_next _ _ X1) as N1.
  destruct (method_run inputObjectType c s1 pc1 St1 Hpc1)
    as (t2 & s2 & pc2 & E2 & St2 & X2 & Hpc2 & G2 & S2 & Oth2 & Old2).
  { by intros [|]. }
  pose proof (extends_next _ _ X2) as N2.
  destruct (method_run updateInputObjectType c s2 pc2 St2 Hpc2)
    as (t3 & s3 & pc3 & E3 & St3 & X3 & Hpc3 & G3 & S3 & Oth3 & Old3).
  { by intros [|]. }
  pose proof (extends_next _ _ X3) as N3.
  destruct (method_run queryInputObjectType c s3 pc3 St3 Hpc3)
    as (t4 & s4 & pc4 & E4 & St4 & X4 & Hpc4 & G4 & S4 & Oth4 & Old4).
  { by intros [|]. }
  pose proof (extends_next _ _ X4) as N4.
  assert (ParseClass.slot objectType pc4 = Some t1) as Hobj4.
  { destruct G2 as (_ & _ & _ & _ & G2), G3 as (_ & _ & _ & _ & G3),
      G4 as (_ & _ & _ & _ & G4). auto. }
  destruct (method_run queryResultObjectType c s4 pc4 St4 Hpc4)
    as (t5 & s5 & pc5 & E5 & St5 & X5 & Hpc5 & G5 & S5 & Oth5 & Old5).
  { intros _. by eexists. }
  pose proof (extends_next _ _ X5) as N5.
  assert (ParseClass.slot objectType pc5 = Some t1) as Hobj5.
  { destruct G5 as (_ & _ & _ & _ & G5). auto. }
  destruct (method_run mutationResultObjectType c s5 pc5 St5 Hpc5)
    as (t6 & s6 & pc6 & E6 & St6 & X6 & Hpc6 & G6 & S6 & Oth6 & Old6).
  { intros _. by eexists. }
  pose proof (extends_next _ _ X6) as N6.
  (* the descriptors and the bundle *)
  destruct (alloc_spec s6) as (s7 & A7 & X7 & N7 & I7 & T7).
  pose proof (storeOk_alloc _ _ _ St6 A7) as St7.
  destruct (alloc_spec s7) as (s8 & A8 & X8 & N8 & I8 & T8).
  pose proof (storeOk_alloc _ _ _ St7 A8) as St8.
  destruct (alloc_spec s8) as (s9 & A9 & X9 & N9 & I9 & T9).
  pose proof (storeOk_alloc _ _ _ St8 A9) as St9.
  destruct (alloc_spec s9) as (s10 & A10 & X10 & N10 & I10 & T10).
  pose proof (storeOk_alloc _ _ _ St9 A10) as St10.
  assert (instances s10 !! c = Some pc6) as Hpc10 by congruence.
  destruct (newType_spec (destroyInputType (ParseClass.displayName pc6)) s10)
    as (s11 & A11 & X11 & N11 & I11 & T11).
  destruct (storeOk_newType _ _ _ _ St10 A11) as (St11 & _ & _ & _ & Hl11 & Old11).
  destruct (alloc_spec s11) as (s12 & A12 & X12 & N12 & I12 & T12).
  pose proof (storeOk_alloc _ _ _ St11 A12) as St12.
  assert (instances s12 !! c = Some pc6) as Hpc12 by congruence.
  destruct (alloc_spec s12) as (s13 & A13 & X13 & N13 & I13 & T13).
  pose proof (storeOk_alloc _ _ _ St12 A13) as St13.
  assert (instances s13 !! c = Some pc6) as Hpc13 by congruence.
  assert (grown pc0 pc6) as G by eauto 10 using grown_trans.
  assert (extends s0 s13) as X by eauto 20 using extends_trans.
  eexists _, s13, pc6. split.
  { unfold loadClass. step Hget.
    unfold graphQLObjectType, graphQLInputObjectType, graphQLUpdateInputObjectType,
      graphQLQueryInputObjectType, graphQLQueryResultType, graphQLMutationResultType.
    change (graphQLConfig c) with (configOf objectType c).
    change (graphQLInputConfig c) with (configOf inputObjectType c).
    change (graphQLUpdateInputConfig c) with (configOf updateInputObjectType c).
    change (graphQLQueryConfig c) with (configOf queryInputObjectType c).
    change (graphQLQueryResultConfig c) with (configOf queryResultObjectType c).
    change (graphQLMutationResultConfig c) with (configOf mutationResultObjectType c).
    step E1. step E2. step E3. step E4. step E5. step E6.
    step A7. step A8. step A9. step A10.
    step (self_spec _ _ _ Hpc10).
    change (newType _) with (newType (destroyInputType (ParseClass.displayName pc6))).
    step A11. step A12.
    step (self_spec _ _ _ Hpc12). step A13. reflexivity. }
  destruct G as (Gcn & Gdn & _ & _ & Gslots).
  pose proof (cacheOk_extends _ _ X Hok0) as Hok13.
  destruct X as (Xc & Xl & Xk & Xn & Xi).
  assert (∀ c', c' ≠ c → instances s13 !! c' = instances s0 !! c') as Hothers.
  { intros c' Hne.
    rewrite I13, I12, I11, I10, I9, I8, I7, Oth6, Oth5, Oth4, Oth3, Oth2, Oth1; done. }
  assert (∀ l, (l < next s0)%nat → typeObjects s13 !! l = typeObjects s0 !! l) as Hold.
  { intros l Hl.
    rewrite T13, T12, Old11, T10, T9, T8, T7, Old6, Old5, Old4, Old3, Old2, Old1;
      try done; lia. }
  simpl. split.
  { split; [done|]. split; [done|].
    intros cn' c' Hc'. rewrite Xc, Hcache0 in Hc'.
    destruct (decide (className = cn')) as [<-|Hne].
    - rewrite lookup_insert_eq in Hc'. inversion Hc'; subst c'.
      exists pc6. split; [done|]. split; congruence.
    - rewrite lookup_insert_ne in Hc' by done.
      destruct (Hnamed cn' c' Hc') as (pc & Hpc & Hcn & Hdn).
      exists pc. split; [|done].
      assert (c' ≠ c) as Hc'c by (eapply Hdistinct; [|done]; congruence).
      by rewrite Hothers, Hothers0. }
  split.
  { split; [|split].
    - intros c' Hne. by rewrite Hothers, Hothers0.
    - intros l Hl. rewrite Hold by lia. by rewrite Htypes0.
    - intros cn' Hne. rewrite Xc, Hcache0. by rewrite lookup_insert_ne. }
  split; [done|].
  split.
  { destruct G2 as (_ & _ & _ & _ & G2), G3 as (_ & _ & _ & _ & G3),
      G4 as (_ & _ & _ & _ & G4), G5 as (_ & _ & _ & _ & G5),
      G6 as (_ & _ & _ & _ & G6).
    repeat split; simpl; auto 10. }
  split; [congruence|]. split; [congruence|]. split; [lia|].
  split; [by rewrite Xc, Hcache0, lookup_insert_eq|].
  split; [|done].
  exists (next s10). split; [done|]. split; [unfold allocatedBetween; lia|].
  rewrite T13, T12, T11, lookup_insert_eq. by rewrite Gdn, Hdn0.
Qed.
End LoadClassRun.

(** ** What a bundle refers to *)

Section Registry.
Context `{execute.Collab} `{types.Collab}.

(** X20.  On a well-formed store [loadClass] returns and leaves the store
    well-formed; it changes no instance but the one of the class it loads,
    no type object that existed before the call, and no cache entry of
    another class name. *)
Theorem loadClass_leaves_the_rest className schema s :
  wellFormed s →
  ∃ b s',
    loadClass className schema s = (inr b, s')
    ∧ wellFormed s'
    ∧ cache s' !! className = Some (Bundle.parseClass b)
    ∧ untouched className (Bundle.parseClass b) s s'.
Proof.
  intros Hwf.
  destruct (loadClass_run className schema s Hwf)
    as (b & s' & pc' & E & Hwf' & Hun & _ & _ & _ & _ & _ & Hc & _).
  by exists b, s'.
Qed.

(** X21.  The four types of a bundle that have a field thunk are
    registered under the names [<DisplayName>], [Add<DisplayName>Input],
    [Update<DisplayName>Input] and [<DisplayName>Query], the display name
    being that of the class name asked for; the object type implements
    [Node], and each thunk is the one of the instance of the bundle. *)
Theorem bundle_types_registered className schema s :
  wellFormed s →
  ∃ b s',
    loadClass className schema s = (inr b, s')
    ∧ Bundle.displayName b = displayNameOf className
    ∧ typeObjects s' !! Bundle.objectType b
      = Some (mkTypeObj ObjectType (displayNameOf className)
                (Some ("Parse Class " ++ className)) ["Node"]
                (ObjectFields (Bundle.parseClass b)) (Some className))
    ∧ typeObjects s' !! Bundle.inputType b
      = Some (mkTypeObj InputObjectType ("Add" ++ displayNameOf className ++ "Input")
                (Some ("Parse Class " ++ className ++ " Input")) []
                (InputFields (Bundle.parseClass b)) (Some className))
    ∧ typeObjects s' !! Bundle.updateType b
      = Some (mkTypeObj InputObjectType
                ("Update" ++ displayNameOf className ++ "Input")
                (Some ("Parse Class " ++ className ++ " Update")) []
                (UpdateFields (Bundle.parseClass b)) (Some className))
    ∧ typeObjects s' !! Bundle.queryType b
      = Some (mkTypeObj InputObjectType (displayNameOf className ++ "Query")
                (Some ("Parse Class " ++ className ++ " Query")) []
                (QueryFields (Bundle.parseClass b)) (Some className)).
Proof.
  intros Hwf.
  destruct (loadClass_run className schema s Hwf)
    as (b & s' & pc' & E & (_ & (_ & _ & Hslots) & _) & _ & Hpc & B & Hcn & Hdn & _).
  destruct B as (O & I & U & Q & _ & _ & N).
  exists b, s'. split; [done|]. split; [congruence|].
  destruct (Hslots _ _ _ _ Hpc O) as (ty1 & -> & ->).
  destruct (Hslots _ _ _ _ Hpc I) as (ty2 & -> & ->).
  destruct (Hslots _ _ _ _ Hpc U) as (ty3 & -> & ->).
  destruct (Hslots _ _ _ _ Hpc Q) as (ty4 & -> & ->).
  by rewrite Hcn, Hdn.
Qed.

(** X22.  The two result types of a bundle are built on its object type:
    the [nodes] of [<DisplayName>QueryConnection] are a list of the very
    type object that the bundle gives as [objectType], and so is the
    [object] of [<DisplayName>MutationCompletePayload]. *)
Theorem result_types_share_object_type className schema s :
  wellFormed s →
  ∃ b s' edge,
    loadClass className schema s = (inr b, s')
    ∧ typeObjects s' !! Bundle.queryResultType b
      = Some (mkTypeObj ObjectType (displayNameOf className ++ "QueryConnection")
                None []
                (StaticFields
                   [("nodes", plainField (GraphQLList (TypeRef (Bundle.objectType b))));
                    ("edges", plainField (GraphQLList (TypeRef edge)));
                    ("pageInfo", plainField types.PageInfo)])
                None)
    ∧ typeObjects s' !! Bundle.mutationResultType b
      = Some (mkTypeObj ObjectType
                (displayNameOf className ++ "MutationCompletePayload") None []
                (StaticFields
                   [("object", plainField (TypeRef (Bundle.objectType b)));
                    ("clientMutationId", plainField GraphQLString)])
                None)
    ∧ fd_type (Bundle.find b) = Some (TypeRef (Bundle.queryResultType b))
    ∧ fd_type (Bundle.create b) = Some (TypeRef (Bundle.mutationResultType b))
    ∧ fd_type (Bundle.update b) = Some (TypeRef (Bundle.mutationResultType b))
    ∧ fd_type (Bundle.destroy b) = Some (TypeRef (Bundle.mutationResultType b)).
Proof.
  intros Hwf.
  destruct (loadClass_run className schema s Hwf)
    as (b & s' & pc' & E & (_ & (_ & _ & Hslots) & _) & _ & Hpc & B & Hcn & Hdn & _).
  destruct B as (O & _ & _ & _ & R & M & _).
  destruct (Hslots _ _ _ _ Hpc R) as (ty5 & Hl5 & object & edge & Ho & ->).
  destruct (Hslots _ _ _ _ Hpc M) as (ty6 & Hl6 & object' & Ho' & ->).
  assert (object = Bundle.objectType b) as -> by congruence.
  assert (object' = Bundle.objectType b) as -> by congruence.
  exists b, s', edge. split; [done|].
  rewrite Hl5, Hl6, Hdn. split; [done|]. split; [done|].
  unfold loadClass in E.
  repeat (apply bind_inv in E as (? & ? & _ & E)).
  by inversion E; subst.
Qed.

(** X23.  Unlike the memoised types, the input type of [destroy] is made
    by every call: two loads of one class give [create] one and the same
    input type, and give [destroy] two distinct type objects that both bear
    the name [Destroy<DisplayName>Input]. *)
Theorem destroy_input_type_is_made_anew className schema s :
  wellFormed s →
  ∃ b1 s1 b2 s2 l1 l2,
    loadClass className schema s = (inr b1, s1)
    ∧ loadClass className schema s1 = (inr b2, s2)
    ∧ inputTypeOf (Bundle.create b1) = inputTypeOf (Bundle.create b2)
    ∧ inputTypeOf (Bundle.destroy b1) = Some l1
    ∧ inputTypeOf (Bundle.destroy b2) = Some l2
    ∧ l1 ≠ l2
    ∧ typeObjects s2 !! l1 = Some (destroyInputType (displayNameOf className))
    ∧ typeObjects s2 !! l2 = Some (destroyInputType (displayNameOf className)).
Proof.
  intros Hwf.
  destruct (loadClass_run className schema s Hwf)
    as (b1 & s1 & pc1 & E1 & Hwf1 & _ & _ & _ & _ & _ & _ & _
        & (l1 & Hd1 & A1 & T1) & C1 & _).
  destruct (loadClass_run className schema s1 Hwf1)
    as (b2 & s2 & pc2 & E2 & Hwf2 & (_ & Hold & _) & _ & _ & _ & _ & _ & _
        & (l2 & Hd2 & A2 & T2) & C2 & _).
  destruct Hwf as (Hok & _).
  destruct (loadClass_again _ _ _ _ _ Hok E1) as (b2' & s2' & E2' & _ & _ & _ & Hi & _).
  assert (b2' = b2) as -> by congruence.
  unfold allocatedBetween in *.
  exists b1, s1, b2, s2, l1, l2. split; [done|]. split; [done|].
  split; [by rewrite C1, C2, Hi|]. split; [done|]. split; [done|].
  split; [lia|]. split; [|done]. rewrite Hold by lia. done.
Qed.

(** ** The root fields *)

Lemma queryFieldsOf_run schema classNames :
  ∀ fields s, wellFormed s →
    ∃ out s',
      queryFieldsOf schema classNames fields s = (inr out, s')
      ∧ wellFormed s'
      ∧ (∀ k, Obj.has k fields = true → Obj.has k out = true)
      ∧ (∀ className, className ∈ classNames →
           Obj.has (displayNameOf className) out = true
           ∧ Obj.has ("find" ++ displayNameOf className) out = true)
      ∧ ∀ k, Obj.has k out = true →
          Obj.has k fields = true
          ∨ ∃ className, className ∈ classNames
              ∧ (k = displayNameOf className ∨ k = "find" ++ displayNameOf className).
Proof.
  induction classNames as [|className rest IH]; intros fields s Hwf; simpl.
  - exists fields, s. split; [done|]. split; [done|]. split; [done|].
    split; [|by left]. intros ? Hin. by apply elem_of_nil in Hin.
  - destruct (loadClass_run className schema s Hwf)
      as (b & s1 & pc & E & Hwf1 & _ & _ & (_ & _ & _ & _ & _ & _ & Hb) & _ & Hdn & _).
    rewrite (bind_returns _ _ _ _ _ E). rewrite <- Hb, Hdn.
    destruct (IH (Obj.set ("find" ++ displayNameOf className) (Bundle.find b)
                    (Obj.set (displayNameOf className) (Bundle.get b) fields))
                s1 Hwf1) as (out & s' & Hrun & Hwf' & Hkeep & Hall & Honly).
    exists out, s'. split; [done|]. split; [done|]. split; [|split].
    + intros k Hk. apply Hkeep. rewrite !has_set. by repeat case_decide.
    + intros cn [->|Hin]%elem_of_cons; [|by apply Hall].
      split; apply Hkeep; rewrite !has_set; by repeat case_decide.
    + intros k Hk. destruct (Honly k Hk) as [Hset|(cn & Hin & Hcn)].
      * rewrite !has_set in Hset.
        destruct (decide (k = "find" ++ displayNameOf className)) as [->|];
          [right; exists className; split; [by left|by right]|].
        destruct (decide (k = displayNameOf className)) as [->|];
          [right; exists className; split; [by left|by left]|].
        by left.
      * right. exists cn. split; [by right|done].
Qed.

Lemma mutationFieldsOf_run schema classNames :
  ∀ fields s, wellFormed s →
    ∃ out s',
      mutationFieldsOf schema classNames fields s = (inr out, s')
      ∧ wellFormed s'
      ∧ (∀ k, Obj.has k fields = true → Obj.has k out = true)
      ∧ (∀ className, className ∈ classNames →
           Obj.has ("add" ++ displayNameOf className) out = true
           ∧ Obj.has ("update" ++ displayNameOf className) out = true
           ∧ Obj.has ("destroy" ++ displayNameOf className) out = true)
      ∧ ∀ k, Obj.has k out = true →
          Obj.has k fields = true
          ∨ ∃ className, className ∈ classNames
              ∧ (k = "add" ++ displayNameOf className
                 ∨ k = "update" ++ displayNameOf className
                 ∨ k = "destroy" ++ displayNameOf className).
Proof.
  induction classNames as [|className rest IH]; intros fields s Hwf; simpl.
  - exists fields, s. split; [done|]. split; [done|]. split; [done|].
    split; [|by left]. intros ? Hin. by apply elem_of_nil in Hin.
  - destruct (loadClass_run className schema s Hwf)
      as (b & s1 & pc & E & Hwf1 & _ & _ & (_ & _ & _ & _ & _ & _ & Hb) & _ & Hdn & _).
    rewrite (bind_returns _ _ _ _ _ E). rewrite <- Hb, Hdn.
    destruct (IH (Obj.set ("destroy" ++ displayNameOf className) (Bundle.destroy b)
                    (Obj.set ("update" ++ displayNameOf className) (Bundle.update b)
                       (Obj.set ("add" ++ displayNameOf className) (Bundle.create b)
                          fields)))
                s1 Hwf1) as (out & s' & Hrun & Hwf' & Hkeep & Hall & Honly).
    exists out, s'. split; [done|]. split; [done|]. split; [|split].
    + intros k Hk. apply Hkeep. rewrite !has_set. by repeat case_decide.
    + intros cn [->|Hin]%elem_of_cons; [|by apply Hall].
      repeat split; apply Hkeep; rewrite !has_set; by repeat case_decide.
    + intros k Hk. destruct (Honly k Hk) as [Hset|(cn & Hin & Hcn)].
      * rewrite !has_set in Hset.
        destruct (decide (k = "destroy" ++ displayNameOf className)) as [->|];
          [right; exists className; split; [by left|auto]|].
        destruct (decide (k = "update" ++ displayNameOf className)) as [->|];
          [right; exists className; split; [by left|auto]|].
        destruct (decide (k = "add" ++ displayNameOf className)) as [->|];
          [right; exists className; split; [by left|auto]|].
        by left.
      * right. exists cn. split; [by right|done].
Qed.

(** X24.  [getParseClassQueryFields] returns a field map whose names are
    exactly [<DisplayName>] and [find<DisplayName>] for the class names of
    [schema.__classNames], whether the schema defines them or not. *)
Theorem query_root_fields schema s :
  wellFormed s →
  ∃ out s',
    getParseClassQueryFields schema s = (inr out, s')
    ∧ wellFormed s'
    ∧ ∀ k, Obj.has k out = true ↔
        ∃ className, className ∈ __classNames schema
          ∧ (k = displayNameOf className ∨ k = "find" ++ displayNameOf className).
Proof.
  intros Hwf.
  destruct (queryFieldsOf_run schema (__classNames schema) [] s Hwf)
    as (out & s' & Hrun & Hwf' & _ & Hall & Honly).
  exists out, s'. split; [done|]. split; [done|]. intros k. split.
  - intros Hk. by destruct (Honly k Hk).
  - intros (cn & Hin & [-> | ->]); by apply Hall.
Qed.

(** X25.  [getParseClassMutationFields] returns a field map whose names
    are exactly [add<DisplayName>], [update<DisplayName>] and
    [destroy<DisplayName>] for the class names of [schema.__classNames]. *)
Theorem mutation_root_fields schema s :
  wellFormed s →
  ∃ out s',
    getParseClassMutationFields schema s = (inr out, s')
    ∧ wellFormed s'
    ∧ ∀ k, Obj.has k out = true ↔
        ∃ className, className ∈ __classNames schema
          ∧ (k = "add" ++ displayNameOf className
             ∨ k = "update" ++ displayNameOf className
             ∨ k = "destroy" ++ displayNameOf className).
Proof.
  intros Hwf.
  destruct (mutationFieldsOf_run schema (__classNames schema) [] s Hwf)
    as (out & s' & Hrun & Hwf' & _ & Hall & Honly).
  exists out, s'. split; [done|]. split; [done|]. intros k. split.
  - intros Hk. by destruct (Honly k Hk).
  - intros (cn & Hin & [-> | [-> | ->]]); by apply Hall.
Qed.
End Registry.

(** ** Class names that are no class *)

Section NoClass.
Context `{execute.Collab} `{types.Collab}.

(** X28.  For a class name under which the schema object holds something
    that is no class, the constructor of [ParseClass] finds a truthy value
    and writes no warning, and [loadClass] returns a bundle; but
    [buildFields] then takes the keys of [fields], which is undefined, so
    that forcing the fields of the object type, of either input type or of
    the query type raises a [TypeError], with no diagnostic. *)
Theorem class_name_of_no_class_builds className schema s :
  schemaGet schema className = Some NotAClass →
  cache s !! className = None →
  cacheOk s →
  ∃ b s1 pc,
    loadClass className schema s = (inr b, s1)
    ∧ console s1 = console s
    ∧ instances s1 !! Bundle.parseClass b = Some pc
    ∧ ParseClass.class pc = Some NotAClass
    ∧ (∀ mapper filterReserved isObject,
         buildFields (Bundle.parseClass b) mapper filterReserved isObject s1
         = (inl TypeError, s1))
    ∧ ∀ thunk,
        thunk ∈ [ObjectFields (Bundle.parseClass b); QueryFields (Bundle.parseClass b);
                 InputFields (Bundle.parseClass b); UpdateFields (Bundle.parseClass b)] →
        forceFields thunk s1 = (inl TypeError, s1).
Proof.
  intros Hcls Hfirst Hok.
  destruct (loadClass_spec className schema s Hok)
    as (b & s1 & pc & E & Hok1 & _ & Hpc & _ & _ & Hmiss & _).
  destruct (Hmiss Hfirst) as (_ & Hlog & _ & _ & _ & Hclass & _).
  rewrite Hcls in Hlog, Hclass. simpl in Hclass. rewrite app_nil_r in Hlog.
  assert (∀ mapper filterReserved isObject,
            buildFields (Bundle.parseClass b) mapper filterReserved isObject s1
            = (inl TypeError, s1)) as Hbuild.
  { intros mapper filterReserved isObject. unfold buildFields.
    rewrite (bind_returns _ _ _ _ _ (self_spec _ _ _ Hpc)). by rewrite Hclass. }
  exists b, s1, pc. split; [done|]. split; [done|]. split; [done|].
  split; [done|]. split; [done|].
  intros thunk Hthunk.
  repeat (apply elem_of_cons in Hthunk as [->|Hthunk]);
    [| | | |by apply elem_of_nil in Hthunk];
    cbn [forceFields]; unfold mbind, M_bind; by rewrite ?Hbuild.
Qed.
End NoClass.


(** * Further examples *)

(** X1 on an update and a destroy whose input has an empty [id] and a
    [null] [objectId]. *)
Lemma falsy_identifiers_witness :
  getObjectId Cases.falsyIds = inl MissingIdentifier
  ∧ run Demo.backend
      (update_resolve "Post" Demo.schema VUndef (Demo.inputOf Cases.falsyIds)
         Demo.context VUndef) Demo.world
    = (inl MissingIdentifier, [], Demo.world)
  ∧ run Demo.backend
      (destroy_resolve "Post" VUndef (Demo.inputOf Cases.falsyIds) Demo.context
         VUndef) Demo.world
    = (inl MissingIdentifier, [], Demo.world).
Proof.
  exact (falsy_identifiers_are_missing Demo.backend "Post" Demo.schema VUndef
           (Demo.inputOf Cases.falsyIds) Demo.context VUndef Cases.falsyIds
           (VStr "") VNull Demo.world eq_refl eq_refl eq_refl eq_refl eq_refl).
Defined.

(** X2 on an input with the global id [Post:p1] and an empty [objectId]. *)
Lemma getObjectId_decodes_witness :
  getObjectId Demo.emptyObjectId = inr (VStr "p1", Demo.emptyObjectIdLeft)
  ∧ Obj.get "objectId" (Obj.del "id" [("id", VStr "Post:p1"); ("objectId", VStr "");
                                      ("title", VStr "t")])
    = Some (VStr "").
Proof.
  destruct (getObjectId_decodes_id
              [("id", VStr "Post:p1"); ("objectId", VStr ""); ("title", VStr "t")]
              (VStr "Post:p1") eq_refl eq_refl eq_refl) as [Hget Hrest].
  split; [exact Hget|]. apply (Hrest "objectId"). discriminate.
Defined.

(** X3 on an update and a destroy whose [id] is a number. *)
Lemma undecodable_id_witness :
  run Demo.backend
    (update_resolve "Post" Demo.schema VUndef (Demo.inputOf (VObj Cases.numericId))
       Demo.context VUndef) Demo.world
    = (inl (Thrown (VStr "Invalid ID")), [], Demo.world)
  ∧ run Demo.backend
      (destroy_resolve "Post" VUndef (Demo.inputOf (VObj Cases.numericId))
         Demo.context VUndef) Demo.world
    = (inl (Thrown (VStr "Invalid ID")), [], Demo.world).
Proof.
  exact (undecodable_id_makes_no_call Demo.backend "Post" Demo.schema VUndef
           (Demo.inputOf (VObj Cases.numericId)) Demo.context VUndef
           Cases.numericId (VNum 7) (Thrown (VStr "Invalid ID")) Demo.world
           eq_refl eq_refl eq_refl eq_refl eq_refl).
Defined.

(** X4 on a post with its author. *)
Lemma transformInput_tags_witness :
  ∃ o', VObj Cases.authoredTagged = VObj o'
        ∧ Obj.keys o' = ["author"; "title"]
        ∧ Obj.get "title" o' = Some (VStr "t").
Proof.
  destruct (transformInput_tags Cases.postClass Cases.authored
              (VObj Cases.authoredTagged) eq_refl) as (o' & Heq & Hkeys & Hall).
  exists o'. exact (conj Heq (conj Hkeys (Hall "title" (VStr "t") eq_refl))).
Defined.

(** X5 on the creation of a post whose author is [null]. *)
Lemma untaggable_value_witness :
  transformInput (VObj Cases.orphan) (Some (AClass Cases.postClass)) = inl TypeError
  ∧ run Demo.backend
      (create_resolve "Post" Demo.schema VUndef (Demo.inputOf (VObj Cases.orphan))
         Demo.context VUndef) Demo.world
    = (inl TypeError, [], Demo.world).
Proof.
  exact (untaggable_value_stops_create Demo.backend "Post" Demo.schema
           Cases.postClass VUndef (Demo.inputOf (VObj Cases.orphan)) Demo.context
           VUndef Cases.orphan "author" VNull Demo.world eq_refl eq_refl eq_refl
           (conj eq_refl
              (ex_intro _ (mkField "Pointer" "_User")
                 (conj eq_refl (or_introl eq_refl))))).
Defined.

(** X6 on the class name [Ghost]. *)
Lemma absent_class_resolvers_witness :
  run Demo.backend
    (create_resolve "Ghost" Demo.schema VUndef
       (Demo.inputOf (VObj [("objectId", VStr "p1")])) Demo.context VUndef)
    Demo.world
    = (inl TypeError, [], Demo.world)
  ∧ run Demo.backend
      (update_resolve "Ghost" Demo.schema VUndef
         (Demo.inputOf (VObj [("objectId", VStr "p1")])) Demo.context VUndef)
      Demo.world
    = (inl TypeError, [], Demo.world)
  ∧ ∃ out rest w',
      run Demo.backend
        (destroy_resolve "Ghost" VUndef
           (Demo.inputOf (VObj [("objectId", VStr "p1")])) Demo.context VUndef)
        Demo.world
      = (out, RunGet Demo.context VUndef "Ghost" (VStr "p1") None :: rest, w').
Proof.
  exact (absent_class_stops_create_and_update Demo.backend "Ghost" Demo.schema
           VUndef (Demo.inputOf (VObj [("objectId", VStr "p1")])) Demo.context
           VUndef [("objectId", VStr "p1")] (VStr "p1") Demo.world
           eq_refl eq_refl eq_refl).
Defined.

(** X7 on a post with its author. *)
Lemma transformInput_idempotent_witness :
  transformInput (VObj Cases.authoredTagged) (Some (AClass Cases.postClass))
  = inr (VObj Cases.authoredTagged).
Proof.
  exact (transformInput_idempotent (VObj Cases.authored) Cases.postClass
           (VObj Cases.authoredTagged) eq_refl).
Defined.

(** X8 on an update of the stored post [p2]. *)
Lemma update_then_refetch_witness :
  ∃ forwarded,
    hasKey forwarded "clientMutationId" = false
    ∧ (run Demo.backend
         (update_resolve "Post" Demo.schema VUndef (Demo.inputOf (VObj Demo.bothIds))
            Demo.context VUndef) Demo.world).1
      = (inr (VObj [("object", forwarded); ("clientMutationId", VStr "m-1")]),
         [RestUpdate (Context.config Demo.context) (Context.auth Demo.context)
            "Post" (VObj [("objectId", VStr "p2")]) forwarded;
          RunGet Demo.context VUndef "Post" (VStr "p2") None]).
Proof.
  destruct (update_then_refetch Demo.backend "Post" Demo.schema VUndef
              (Demo.inputOf (VObj Demo.bothIds)) Demo.context VUndef Demo.bothIds
              (VStr "p2") (VObj (Obj.del "objectId" Demo.bothIds))
              (VObj (Obj.del "objectId" Demo.bothIds)) Demo.world
              eq_refl eq_refl eq_refl) as (forwarded & Hdel & Hgone & Hrun).
  exists forwarded. split; [exact Hgone|].
  injection Hdel as <-.
  exact (f_equal fst Hrun).
Defined.

(** X9 on the creation of a post that brings an [objectId] of its own. *)
Lemma create_keeps_caller_auth_witness :
  (run Demo.backend
     (create_resolve "Post" Demo.schema VUndef (Demo.inputOf (VObj Cases.newPost))
        Demo.context VUndef) Demo.world).1.2
  = [RestCreate (Context.config Demo.context) (Context.auth Demo.context) "Post"
       (VObj [("objectId", VStr "mine"); ("title", VStr "t")]);
     RunGet (Context.mk (Context.auth Demo.context) (Context.config Demo.context)
               VUndef) VUndef "Post" (VStr "fresh") None].
Proof.
  pose proof (create_keeps_caller_auth Demo.backend "Post" Demo.schema VUndef
                (Demo.inputOf (VObj Cases.newPost)) Demo.context VUndef
                (VObj Cases.newPost) (VObj Cases.newPost)
                (VObj [("objectId", VStr "mine"); ("title", VStr "t")]) Demo.world
                ltac:(discriminate) eq_refl eq_refl eq_refl) as Hrun.
  exact (f_equal (λ r, r.1.2) Hrun).
Defined.

(** X10 on the creation of a user. *)
Lemma create_user_adopts_session_witness :
  (run Demo.backend
     (create_resolve "_User" Demo.schema VUndef (Demo.inputOf (VObj Cases.newUser))
        Demo.context VUndef) Demo.world).1.2
  = [RestCreate (Context.config Demo.context) (Context.auth Demo.context) "_User"
       (VObj [("username", VStr "u")]);
     GetAuthForSessionToken
       (VObj [("config", Context.config Demo.context);
              ("installationId", VStr "i-1");
              ("sessionToken", VStr "r:token")]);
     RunGet (Context.mk (VObj [("sessionToken", VStr "r:token")])
               (Context.config Demo.context) VUndef) VUndef "_User" (VStr "fresh") None].
Proof.
  pose proof (create_user_adopts_session Demo.backend Demo.schema VUndef
                (Demo.inputOf (VObj Cases.newUser)) Demo.context VUndef
                (VObj Cases.newUser) (VObj Cases.newUser)
                (VObj [("username", VStr "u")])
                (VObj [("response", Cases.created)]) Cases.created
                (VStr "r:token") Demo.world
                (Obj.set "fresh"
                   (VObj [("username", VStr "u"); ("objectId", VStr "fresh")])
                   Demo.world)
                eq_refl eq_refl eq_refl eq_refl eq_refl eq_refl eq_refl) as Hrun.
  exact (f_equal (λ r, r.1.2) Hrun).
Defined.

(** X11 on the comments of a parent that is [null]. *)
Lemma relation_guards_witness :
  run Demo.backend
    (relation_resolve "comments" VNull (VObj []) Demo.context VUndef) Demo.world
  = (inl TypeError, [], Demo.world).
Proof.
  exact (proj1 (relation_resolver_guards Demo.backend "comments" VNull (VObj [])
                  Demo.context VUndef Demo.world) eq_refl).
Defined.

(** X12 on the class names [User] and [_User]. *)
Lemma displayName_witness :
  displayNameOf "_User" = "User"
  ∧ displayNameOf "User" = "User"
  ∧ "_User" ≠ "User".
Proof.
  destruct (displayName_strips_one_underscore "User") as (Hstrip & Hkeep & Hclash).
  pose proof (Hkeep "U"%char "ser" eq_refl ltac:(discriminate)) as Hsame.
  exact (conj Hstrip (conj Hsame (proj1 (Hclash Hsame)))).
Defined.

(** X13 on the add-input fields of the instance of [_User], whose class
    has an [objectId] field. *)
Lemma buildFields_filters_witness :
  ∃ fs s',
    buildFields 0 inputMapper true false Demo.userOnly = (inr (Some fs), s')
    ∧ Obj.has "objectId" fs = false.
Proof.
  destruct (buildFields 0 inputMapper true false Demo.userOnly)
    as [[e|[fs|]] s'] eqn:E;
    [vm_compute in E; discriminate| |vm_compute in E; discriminate].
  exists fs, s'. split; [reflexivity|].
  apply (buildFields_filters_reserved 0 inputMapper false Demo.userOnly fs s'
           "objectId" E).
  apply list_elem_of_In. simpl. tauto.
Defined.

(** X14 on the same fields. *)
Lemma buildFields_seeds_witness :
  ∃ fs s',
    buildFields 0 inputMapper true false Demo.userOnly = (inr (Some fs), s')
    ∧ Obj.has "sessionToken" fs = true.
Proof.
  destruct (buildFields 0 inputMapper true false Demo.userOnly)
    as [[e|[fs|]] s'] eqn:E;
    [vm_compute in E; discriminate| |vm_compute in E; discriminate].
  exists fs, s'. split; [reflexivity|].
  destruct (buildFields_seeds 0 inputMapper true false Demo.userOnly
              Cases.userInstance fs s' eq_refl E) as (class & _ & _ & Htoken & _).
  exact (Htoken eq_refl).
Defined.

(** X15 on the instance of [_User]. *)
Lemma update_input_witness :
  ∃ ty fs,
    graphQLUpdateInputConfig 0 Demo.userOnly = (inr ty, Demo.userOnly)
    ∧ ty_name ty = "UpdateUserInput"
    ∧ forceFields (ty_fields ty) Demo.userOnly = (inr (Some fs), Demo.userOnly)
    ∧ Obj.get "id" fs = Some (plainField GraphQLID)
    ∧ Obj.get "objectId" fs = Some (plainField GraphQLID)
    ∧ Obj.get "friends" fs = None.
Proof.
  destruct (update_input_fields 0 Demo.userOnly Cases.userInstance Cases.userClass
              eq_refl eq_refl)
    as (ty & fs & Hty & Hname & Hforce & Hid & HobjectId & Hrest).
  { unfold Obj.keys. simpl.
    repeat (apply NoDup_cons; split;
            [rewrite ?elem_of_cons, elem_of_nil; intuition discriminate|]).
    apply NoDup_nil_2. }
  exists ty, fs.
  exact (conj Hty (conj Hname (conj Hforce (conj Hid (conj HobjectId
           (Hrest "friends" ltac:(discriminate) ltac:(discriminate))))))).
Defined.

(** X16 on the author of a post. *)
Lemma pointer_field_witness :
  ∃ d s1 b s2,
    graphQLField "author" (mkField "Pointer" "_User") Demo.schema initial
      = (inr (Some d), s1)
    ∧ loadClass "_User" Demo.schema s1 = (inr b, s2)
    ∧ fd_name d = Some "author"
    ∧ fd_type d = Some (TypeRef (Bundle.objectType b)).
Proof.
  exact (proj1 (pointer_field_shares_target_type "author"
                  (mkField "Pointer" "_User") Demo.schema initial cacheOk_initial
                  eq_refl)).
Defined.

(** X17 on the comments of a post. *)
Lemma relation_field_witness :
  ∃ d s1 b s2,
    graphQLField "comments" (mkField "Relation" "Comment") Demo.schema initial
      = (inr (Some d), s1)
    ∧ loadClass "Comment" Demo.schema s1 = (inr b, s2)
    ∧ fd_type d = Some (TypeRef (Bundle.queryResultType b))
    ∧ fd_name d = None
    ∧ fd_resolve d
      = Some (λ parent args context info,
                paged (relation_resolve "comments" parent args context info))
    ∧ fd_resolve d ≠ fd_resolve (Bundle.find b).
Proof.
  destruct (relation_field_is_target_find "comments"
              (mkField "Relation" "Comment") Demo.schema initial cacheOk_initial
              eq_refl)
    as (d & s1 & b & s2 & Hd & Hb & Hty & _ & _ & Hname & Hres & _ & Hother).
  exists d, s1, b, s2.
  exact (conj Hd (conj Hb (conj Hty (conj Hname (conj Hres Hother))))).
Defined.

Lemma cacheOk_userOnly : cacheOk Demo.userOnly.
Proof. intros cn. done. Qed.

(** X18 on the instance of [_User], whose [friends] are users. *)
Lemma object_fields_witness :
  ∃ ty fs s',
    graphQLConfig 0 Demo.userOnly = (inr ty, Demo.userOnly)
    ∧ ty_name ty = "User"
    ∧ forceFields (ty_fields ty) Demo.userOnly = (inr (Some fs), s')
    ∧ Obj.has "id" fs = true
    ∧ Obj.has "friends" fs = true.
Proof.
  destruct (object_fields_returned 0 Demo.userOnly Cases.userInstance
              Cases.userClass cacheOk_userOnly eq_refl eq_refl)
    as (ty & fs & s' & Hty & Hname & Hforce & _ & Hid & Hall & _).
  exists ty, fs, s'.
  refine (conj Hty (conj Hname (conj Hforce (conj Hid (Hall "friends" _))))).
  apply list_elem_of_In. simpl. tauto.
Defined.

(** X19 on the instance of [_User]. *)
Lemma query_fields_witness :
  ∃ ty fs s',
    graphQLQueryConfig 0 Demo.userOnly = (inr ty, Demo.userOnly)
    ∧ ty_name ty = "UserQuery"
    ∧ forceFields (ty_fields ty) Demo.userOnly = (inr (Some fs), s')
    ∧ Obj.has "objectId" fs = false
    ∧ Obj.has "username" fs = true
    ∧ Obj.has "sessionToken" fs = true.
Proof.
  destruct (query_fields_returned 0 Demo.userOnly Cases.userInstance
              Cases.userClass cacheOk_userOnly eq_refl eq_refl)
    as (ty & fs & s' & Hty & Hname & Hforce & _ & _ & HobjectId & Hall & Htoken).
  exists ty, fs, s'.
  refine (conj Hty (conj Hname (conj Hforce (conj HobjectId
            (conj (Hall "username" (mkField "String" "") _ ltac:(discriminate)
                     ltac:(discriminate) (ex_intro _ _ eq_refl))
                  (Htoken eq_refl)))))).
  apply list_elem_of_In. simpl. tauto.
Defined.

(** X20 on a load of the class [Post] into the empty store. *)
Lemma loadClass_leaves_witness :
  ∃ b s',
    loadClass "Post" Demo.schema initial = (inr b, s')
    ∧ wellFormed s'
    ∧ cache s' !! "Post" = Some (Bundle.parseClass b).
Proof.
  destruct (loadClass_leaves_the_rest "Post" Demo.schema initial wellFormed_initial)
    as (b & s' & Hb & Hwf & Hcache & _).
  exists b, s'. exact (conj Hb (conj Hwf Hcache)).
Defined.

(** X21 on a load of the class [_User]. *)
Lemma bundle_types_witness :
  ∃ b s',
    loadClass "_User" Demo.schema initial = (inr b, s')
    ∧ Bundle.displayName b = "User"
    ∧ typeObjects s' !! Bundle.objectType b
      = Some (mkTypeObj ObjectType "User" (Some "Parse Class _User") ["Node"]
                (ObjectFields (Bundle.parseClass b)) (Some "_User")).
Proof.
  destruct (bundle_types_registered "_User" Demo.schema initial wellFormed_initial)
    as (b & s' & Hb & Hname & Hobject & _).
  exists b, s'. exact (conj Hb (conj Hname Hobject)).
Defined.

(** X22 on a load of the class [Post]. *)
Lemma result_types_witness :
  ∃ b s',
    loadClass "Post" Demo.schema initial = (inr b, s')
    ∧ typeObjects s' !! Bundle.mutationResultType b
      = Some (mkTypeObj ObjectType "PostMutationCompletePayload" None []
                (StaticFields
                   [("object", plainField (TypeRef (Bundle.objectType b)));
                    ("clientMutationId", plainField GraphQLString)])
                None)
    ∧ fd_type (Bundle.find b) = Some (TypeRef (Bundle.queryResultType b)).
Proof.
  destruct (result_types_share_object_type "Post" Demo.schema initial
              wellFormed_initial)
    as (b & s' & edge & Hb & _ & Hmutation & Hfind & _).
  exists b, s'. exact (conj Hb (conj Hmutation Hfind)).
Defined.

(** X23 on two loads of the class [Post]. *)
Lemma destroy_input_type_witness :
  ∃ b1 s1 b2 s2 l1 l2,
    loadClass "Post" Demo.schema initial = (inr b1, s1)
    ∧ loadClass "Post" Demo.schema s1 = (inr b2, s2)
    ∧ inputTypeOf (Bundle.create b1) = inputTypeOf (Bundle.create b2)
    ∧ inputTypeOf (Bundle.destroy b1) = Some l1
    ∧ inputTypeOf (Bundle.destroy b2) = Some l2
    ∧ l1 ≠ l2.
Proof.
  destruct (destroy_input_type_is_made_anew "Post" Demo.schema initial
              wellFormed_initial)
    as (b1 & s1 & b2 & s2 & l1 & l2 & H1 & H2 & Hcreate & Hl1 & Hl2 & Hne & _).
  exists b1, s1, b2, s2, l1, l2.
  exact (conj H1 (conj H2 (conj Hcreate (conj Hl1 (conj Hl2 Hne))))).
Defined.

(** X24 on the example schema, which lists [Ghost] and does not define
    it. *)
Lemma query_root_witness :
  ∃ out s',
    getParseClassQueryFields Demo.schema initial = (inr out, s')
    ∧ Obj.has "User" out = true
    ∧ Obj.has "findGhost" out = true.
Proof.
  destruct (query_root_fields Demo.schema initial wellFormed_initial)
    as (out & s' & Hout & _ & Hnames).
  exists out, s'. split; [exact Hout|]. split.
  - apply Hnames. exists "_User". split; [|by left].
    apply list_elem_of_In. simpl. tauto.
  - apply Hnames. exists "Ghost". split; [|by right].
    apply list_elem_of_In. simpl. tauto.
Defined.

(** X25 on the example schema. *)
Lemma mutation_root_witness :
  ∃ out s',
    getParseClassMutationFields Demo.schema initial = (inr out, s')
    ∧ Obj.has "destroyUser" out = true.
Proof.
  destruct (mutation_root_fields Demo.schema initial wellFormed_initial)
    as (out & s' & Hout & _ & Hnames).
  exists out, s'. split; [exact Hout|].
  apply Hnames. exists "_User". split; [|by right; right].
  apply list_elem_of_In. simpl. tauto.
Defined.

(** X26 on the creation of a post that brings an [objectId] of its own. *)
Lemma create_forwards_witness :
  ∃ forwarded out rest w',
    run Demo.backend
      (create_resolve "Post" Demo.schema VUndef (Demo.inputOf (VObj Cases.newPost))
         Demo.context VUndef) Demo.world
    = (out,
       RestCreate (Context.config Demo.context) (Context.auth Demo.context) "Post"
         (VObj forwarded) :: rest, w')
    ∧ Obj.keys forwarded = ["objectId"; "title"].
Proof.
  exact (create_forwards_all_but_token Demo.backend "Post" Demo.schema VUndef
           (Demo.inputOf (VObj Cases.newPost)) Demo.context VUndef Cases.newPost
           (VObj Cases.newPost) Demo.world eq_refl eq_refl).
Defined.

(** X27 on the class name [constructor], which the example schema does not
    define: an update that carries nothing but the identifier. *)
Lemma class_name_of_no_class_witness :
  run Demo.backend
    (create_resolve "constructor" Demo.schema VUndef
       (Demo.inputOf (VObj [("objectId", VStr "p1")])) Demo.context VUndef)
    Demo.world
  = (inl TypeError, [], Demo.world)
  ∧ ∃ out rest w',
      run Demo.backend
        (update_resolve "constructor" Demo.schema VUndef
           (Demo.inputOf (VObj [("objectId", VStr "p1")])) Demo.context VUndef)
        Demo.world
      = (out,
         RestUpdate (Context.config Demo.context) (Context.auth Demo.context)
           "constructor" (VObj [("objectId", VStr "p1")]) (VObj []) :: rest,
         w').
Proof.
  destruct (class_name_of_no_class_reaches_storage Demo.backend "constructor"
              Demo.schema VUndef (Demo.inputOf (VObj [("objectId", VStr "p1")]))
              Demo.context VUndef [("objectId", VStr "p1")] Demo.world
              eq_refl eq_refl) as (Hcreate & _ & Hupdate).
  split; [apply Hcreate; discriminate|].
  exact (proj2 (Hupdate (VStr "p1") [] eq_refl) eq_refl).
Defined.

(** X28 on the class name [toString]. *)
Lemma class_name_of_no_class_builds_witness :
  ∃ b s1,
    loadClass "toString" Demo.schema initial = (inr b, s1)
    ∧ console s1 = []
    ∧ forceFields (ObjectFields (Bundle.parseClass b)) s1 = (inl TypeError, s1).
Proof.
  destruct (class_name_of_no_class_builds "toString" Demo.schema initial
              eq_refl eq_refl cacheOk_initial)
    as (b & s1 & pc & Hb & Hlog & _ & _ & _ & Hthunks).
  exists b, s1. refine (conj Hb (conj Hlog (Hthunks _ _))).
  apply list_elem_of_In. simpl. tauto.
Defined.

